(** * bankacct: a shallow embedding of the account manager and its properties

    The development follows [src/bankacct.cpp] and [src/bankacct.h].
    Definitions come first, one module per part of the program, and
    every definition names the source lines it embeds:
    - [Machine]: the C++ integer types the program computes with;
    - [Double]: the [double] arithmetic of balances and amounts, as
      IEEE 754 binary64 (Rocq's primitive floats);
    - [Curses]: key codes and the skeleton of every menu loop;
    - [Bank]: the [Account] structure and the store;
    - [Viewport]: the cursor and window arithmetic of [mainMenu];
    - [Entry]: the amount entry of [deposit], [withdraw] and
      [transferAmmount];
    - [Transfer]: [transferAccount] and [transfer];
    - [Credential]: [verify];
    - [Opening]: the insertion that ends [openAccount];
    - [Persistence]: the file written at shutdown and [loadDatabase].
    The properties follow the definitions. *)

From Stdlib Require Import ZArith QArith Qpower Lia Bool List Ascii String.
From Stdlib Require Import Sorting.Sorted Sorting.Permutation.
From Stdlib Require Import Floats.
From stdpp Require Import base tactics list.
Import ListNotations.

#[local] Set Warnings "-inexact-float".
#[local] Open Scope Z_scope.

(** ** Machine integers

    [unsigned int] is 32 bits wide and [size_t] 64 bits wide on the
    platform the program is built for (g++, LP64); both wrap around. *)
Module Machine.

Definition u32 (x : Z) : Z := x mod 2 ^ 32.
Definition u64 (x : Z) : Z := x mod 2 ^ 64.

(** [long long]: 64 bits, two's complement. *)
Definition LLONG_MIN : Z := - 2 ^ 63.
Definition s64 (x : Z) : Z := (x + 2 ^ 63) mod 2 ^ 64 - 2 ^ 63.

End Machine.

(** ** Double-precision arithmetic

    [Account::balance] and the amount being typed are C++ [double]s.
    They are modelled by Rocq's primitive binary64 floats, whose
    [+ - * /] and comparisons are the IEEE 754 operations the compiled
    program executes.  The functions of <cmath> and the conversions the
    program uses are defined on top of the exact decomposition
    [Prim2SF] of a float into sign, mantissa and exponent. *)
Module Double.
Import Machine.

(** The float nearest to [m * 2 ^ e] (ties to even): it is [m * 2 ^ e]
    itself whenever that number is a binary64 value. *)
Definition of_scaled (m e : Z) (negative_zero : bool) : float :=
  SF2Prim (binary_normalize prec emax m e negative_zero).

(** Conversion from [int] to [double], as in [(in - '0') * pow(...)]. *)
Definition of_int (n : Z) : float := of_scaled n 0 false.

(** The binary64 representation of a positive integer below [2 ^ 53]:
    its bits, moved up to fill the 53 bits of the mantissa. *)
Definition canon (n : positive) : spec_float :=
  S754_finite false (Pos.shiftl n (Z.to_N (53 - Zpos (Pos.size n))))
              (Zpos (Pos.size n) - 53).

(** The rational number a finite float stands for ([0] for an infinity
    or a NaN, which have none). *)
Definition value (x : float) : Q :=
  match Prim2SF x with
  | S754_finite s m e =>
      (inject_Z (if s then Zneg m else Zpos m) * Qpower (2 # 1) e)%Q
  | _ => 0%Q
  end.

(** Conversion from [double] to [long long], as at the calls
    [numPlaces(acc->balance + newBalance)]: truncation toward zero.  C++
    leaves the conversion of a NaN or of a value out of range undefined;
    the x86-64 instruction answers [LLONG_MIN], which is what is modelled. *)
Definition to_ll (x : float) : Z :=
  match Prim2SF x with
  | S754_zero _ => 0
  | S754_finite s m e =>
      let a := if 0 <=? e then Zpos m * 2 ^ e else Zpos m / 2 ^ (- e) in
      let r := if s then - a else a in
      if (LLONG_MIN <=? r) && (r <? 2 ^ 63) then r else LLONG_MIN
  | _ => LLONG_MIN
  end.

(** [pow(10, place)] of <cmath> at an integer exponent: [10 ^ n] is
    built by exact multiplications (exact up to [10 ^ 22]) and a negative
    power is one correctly rounded division, which gives the double
    nearest to the power for every exponent the program reaches within
    [-22 .. 22]. *)
Fixpoint pow10_nat (n : nat) : float :=
  match n with
  | O => 1%float
  | S k => (10 * pow10_nat k)%float
  end.

Definition pow10 (place : Z) : float :=
  if 0 <=? place then pow10_nat (Z.to_nat place)
  else (1 / pow10_nat (Z.to_nat (- place)))%float.

(** [fmod(x, y)] of <cmath>: the exact remainder of [x / y] truncated
    toward zero, with the sign of [x]; always a binary64 value. *)
Definition fmod (x y : float) : float :=
  match Prim2SF x, Prim2SF y with
  | S754_nan, _ | _, S754_nan => nan
  | S754_infinity _, _ | _, S754_zero _ => nan
  | _, S754_infinity _ => x
  | S754_zero _, _ => x
  | S754_finite sx mx ex, S754_finite _ my ey =>
      let e := Z.min ex ey in
      let a := Zpos mx * 2 ^ (ex - e) in
      let b := Zpos my * 2 ^ (ey - e) in
      let r := a mod b in
      of_scaled (if sx then - r else r) e sx
  end.

(** [floor(x)] of <cmath>. *)
Definition floor (x : float) : float :=
  match Prim2SF x with
  | S754_finite s m e =>
      if 0 <=? e then x
      else of_scaled ((if s then Zneg m else Zpos m) / 2 ^ (- e)) 0 s
  | _ => x
  end.

(** [!x] on a [double]: true for either zero, false for a NaN. *)
Definition is_zero (x : float) : bool := PrimFloat.eqb x 0.

(** bankacct.cpp, lines 1446-1457, [numPlaces(long long i)]: the number
    of characters of [i] written in decimal, its sign included.  The
    [while] loop divides a 64-bit value by ten, so nineteen iterations
    are the most it can make; the fuel is twenty. *)
Fixpoint numPlaces_loop (fuel : nat) (i places : Z) : Z :=
  match fuel with
  | O => places
  | S fuel' =>
      if 10 <=? i then numPlaces_loop fuel' (Z.quot i 10) (places + 1)
      else places
  end.

Definition numPlaces (i : Z) : Z :=
  if i <? 0 then numPlaces_loop 20 (s64 (i * -1)) 2
  else numPlaces_loop 20 i 1.

End Double.

(** ** The terminal: key codes and the shape of a menu loop *)
Module Curses.

(** Key codes of <ncurses.h> the program switches on. *)
Definition KEY_DOWN : Z := 258.
Definition KEY_UP : Z := 259.
Definition KEY_LEFT : Z := 260.
Definition KEY_RIGHT : Z := 261.
Definition KEY_BACKSPACE : Z := 263.
Definition KEY_ENTER : Z := 343.
Definition KEY_RESIZE : Z := 410.

(** [case KEY_ENTER: case 10:]. *)
Definition is_enter (ch : Z) : bool := (ch =? KEY_ENTER) || (ch =? 10).

(** ['0' .. '9'] as key codes. *)
Definition is_digit (ch : Z) : bool := (48 <=? ch) && (ch <=? 57).

(** [isalnum], [toupper] of <cctype> on the ASCII range. *)
Definition isalnum (ch : Z) : bool :=
  is_digit ch || ((65 <=? ch) && (ch <=? 90)) || ((97 <=? ch) && (ch <=? 122)).

Definition toupper (ch : Z) : Z :=
  if (97 <=? ch) && (ch <=? 122) then ch - 32 else ch.

(** The character a key code is stored as in a [char] buffer. *)
Definition char_of_key (ch : Z) : ascii := ascii_of_N (Z.to_N (ch mod 256)).

(** Every menu of the program is a [while(true)] around one blocking
    [getch()] and a [switch]; what the body does to the loop: *)
Inductive step (S R : Type) : Type :=
  | Continue (s : S)        (* [break] or [continue]: next iteration *)
  | Return (r : R)          (* [return r] *)
  | ReturnAfterKey (r : R)  (* [getch(); return r] *)
  | Exit.                   (* [exit(0)] *)
Arguments Continue {S R} s.
Arguments Return {S R} r.
Arguments ReturnAfterKey {S R} r.
Arguments Exit {S R}.

(** and what a call has come to once the keys typed so far are consumed: *)
Inductive run (S R : Type) : Type :=
  | Waiting (s : S)                 (* blocked in [getch()] *)
  | Returned (r : R) (rest : list Z) (* returned; the keys not yet read *)
  | Exited                          (* the process has exited *)
  | Undefined.                      (* an access out of the store's range *)
Arguments Waiting {S R} s.
Arguments Returned {S R} r rest.
Arguments Exited {S R}.
Arguments Undefined {S R}.

Section MenuLoop.
Context {S R : Type}.
(** the code between the top of the loop and [getch()] *)
Variable head : S -> S.
(** the [switch], but for [case 27] *)
Variable on_key : Z -> S -> step S R.
(** what [case 27] does when the escape stands alone *)
Variable on_escape : S -> step S R.

(** The input is the sequence of values the successive calls of
    [getch()] return, [-1] included when a non-blocking call finds no
    key.  [case 27] is the same in every menu (for instance lines
    459-473): a non-blocking [getch()] tells a lone escape, answered
    [-1], from a function key, whose three further codes are read and
    dropped. *)
Fixpoint menu_loop (input : list Z) (s : S) : run S R :=
  match input with
  | [] => Waiting (head s)
  | ch :: rest =>
      if ch =? 27 then
        match rest with
        | [] => Waiting (head s)
        | peek :: rest1 =>
            if peek =? -1 then
              match on_escape (head s) with
              | Continue s' => menu_loop rest1 s'
              | Return r => Returned r rest1
              | ReturnAfterKey r =>
                  match rest1 with
                  | [] => Waiting (head s)
                  | _ :: rest2 => Returned r rest2
                  end
              | Exit => Exited
              end
            else
              match rest1 with
              | _ :: _ :: _ :: rest2 => menu_loop rest2 (head s)
              | _ => Waiting (head s)
              end
        end
      else
        match on_key ch (head s) with
        | Continue s' => menu_loop rest s'
        | Return r => Returned r rest
        | ReturnAfterKey r =>
            match rest with
            | [] => Waiting (head s)
            | _ :: rest1 => Returned r rest1
            end
        | Exit => Exited
        end
  end.
End MenuLoop.

(** A loop keeps [Inv] and returns within [Post] when every step does. *)
Definition step_ok {S R : Type} (Inv : S -> Prop) (Post : R -> Prop)
    (st : step S R) : Prop :=
  match st with
  | Continue s' => Inv s'
  | Return r | ReturnAfterKey r => Post r
  | Exit => True
  end.

Definition run_ok {S R : Type} (Inv : S -> Prop) (Post : R -> Prop)
    (r : run S R) : Prop :=
  match r with
  | Waiting s' => Inv s'
  | Returned r _ => Post r
  | Exited | Undefined => True
  end.

(** The key codes of a string of characters, as typed. *)
Definition keys (a : string) : list Z :=
  map (fun c => Z.of_N (N_of_ascii c)) (list_ascii_of_string a).

End Curses.

(** ** Accounts and the store (bankacct.h, lines 63-75) *)
Module Bank.

Record Account : Type := mkAccount {
  first : string;
  last : string;
  middle : ascii;
  social : Z;
  area : Z;
  phone : Z;
  balance : float;
  number : string;
  password : string;
  nameLength : Z
}.

(** An assignment to [acc->balance]. *)
Definition set_balance (acc : Account) (b : float) : Account :=
  mkAccount (first acc) (last acc) (middle acc) (social acc) (area acc)
            (phone acc) b (number acc) (password acc) (nameLength acc).

(** [vector<Account>]: the store, in index order. *)
Abbreviation store := (list Account).

(** [strcmp] of <cstring>: the sign of the first difference, characters
    compared as unsigned. *)
Definition strcmp (a b : string) : Z :=
  match String.compare a b with
  | Lt => -1
  | Eq => 0
  | Gt => 1
  end.

(** [strlen]. *)
Definition strlen (a : string) : Z := Z.of_nat (String.length a).

(** bankacct.h, lines 25-26. *)
Definition ACC_NUM_LENGTH : Z := 5.
Definition PASS_LENGTH : Z := 6.

(** A record for the examples: John Q. Smith, with the account number
    and the balance given. *)
Definition holder (n : string) (b : float) : Account :=
  mkAccount "John" "Smith" "Q" 123456789 775 5551234 b n "SECRET" 13.

End Bank.

(** ** The main menu's viewport (bankacct.cpp, [mainMenu], lines 95-182) *)
Module Viewport.
Import Machine Curses.

(** bankacct.h, lines 43-45. *)
Definition MIN_ROW : Z := 11.
Definition MAX_ROW : Z := 40.
Definition UI_ROWS : Z := 6.

(** [cursorPos] and [windowPos], both [unsigned int] (line 99). *)
Record view : Type := View { cursorPos : Z; windowPos : Z }.

(** Line 104:
    [numRows = height - UI_ROWS > MAX_ROW ? MAX_ROW : height - UI_ROWS],
    with [height] an [unsigned int]. *)
Definition numRows (height : Z) : Z :=
  if MAX_ROW <? u32 (height - UI_ROWS) then MAX_ROW else u32 (height - UI_ROWS).

(** Lines 106-112: try and fit everything onto the screen.  [size] is
    [people->size()], a [size_t]; the mixed comparisons and differences
    are computed in 64 bits and stored back into 32. *)
Definition fit_window (size height : Z) (v : view) : view :=
  if size <? numRows height then
    View (u32 (cursorPos v + windowPos v)) 0
  else if u64 (size - numRows height) <? windowPos v then
    View (u32 (u64 (cursorPos v + u64 (windowPos v - u64 (size - numRows height)))))
         (u32 (u64 (size - numRows height)))
  else v.

(** Line 115: [if(cursorPos >= numRows) windowPos += cursorPos - numRows + 1]. *)
Definition follow_cursor (height : Z) (v : view) : view :=
  if numRows height <=? cursorPos v then
    View (cursorPos v)
         (u32 (windowPos v + u32 (u32 (cursorPos v - numRows height) + 1)))
  else v.

(** Lines 104-115, the head of every iteration of the menu loop. *)
Definition layout (size height : Z) (v : view) : view :=
  follow_cursor height (fit_window size height v).

(** Lines 126-140, [case KEY_UP]. *)
Definition key_up (size height : Z) (v : view) : view :=
  if negb (cursorPos v =? 0) then View (u32 (cursorPos v - 1)) (windowPos v)
  else if size <=? numRows height then View (u32 (u64 (size - 1))) (windowPos v)
  else if negb (windowPos v =? 0) then View (cursorPos v) (u32 (windowPos v - 1))
  else
    let c := u32 (numRows height - 1) in
    View c (u32 (u64 (u64 (size - c) - 1))).

(** Lines 141-150, [case KEY_DOWN]. *)
Definition key_down (size height : Z) (v : view) : view :=
  if u64 (size - 1) <=? u32 (cursorPos v + windowPos v) then View 0 0
  else if (cursorPos v =? MAX_ROW - 1) || (cursorPos v =? u32 (height - 7)) then
    View (cursorPos v) (u32 (windowPos v + 1))
  else View (u32 (cursorPos v + 1)) (windowPos v).

(** What the blocking [getch] of line 121 delivers to the menu: a key
    code, or [KEY_RESIZE] once the terminal has changed to [height] rows
    (the next [getmaxyx] of line 103 then reports that height). *)
Inductive event : Type :=
  | KeyPress (ch : Z)
  | Resized (height : Z).

Definition MoveUp : event := KeyPress KEY_UP.
Definition MoveDown : event := KeyPress KEY_DOWN.

(** The terminal height together with the menu's two variables. *)
Record screen : Type := Screen { rows : Z; pos : view }.

(** One iteration of the loop of [mainMenu] for an event that opens no
    other menu: the layout is recomputed for the current height, then the
    key is handled.  A key other than the two arrows falls through the
    [switch], and so does [KEY_RESIZE]. *)
Definition menu_iter (size : Z) (s : screen) (ev : event) : screen :=
  let v := layout size (rows s) (pos s) in
  match ev with
  | KeyPress ch =>
      if ch =? KEY_UP then Screen (rows s) (key_up size (rows s) v)
      else if ch =? KEY_DOWN then Screen (rows s) (key_down size (rows s) v)
      else Screen (rows s) v
  | Resized height => Screen height v
  end.

(** The loop over a sequence of events, from [cursorPos = 0],
    [windowPos = 0] (line 99) on a terminal of [height] rows. *)
Definition menu_run (size height : Z) (evs : list event) : screen :=
  fold_left (menu_iter size) evs (Screen height (View 0 0)).

(** The record index the menu hands to [displayAccount] on Enter
    (line 153): [windowPos + cursorPos], as an [unsigned int]. *)
Definition selected (v : view) : Z := u32 (windowPos v + cursorPos v).

(** The index Enter selects in the iteration that follows: line 153 runs
    after the layout of lines 104-115. *)
Definition selected_on_enter (size : Z) (s : screen) : Z :=
  selected (layout size (rows s) (pos s)).

(** The two arrow keys. *)
Definition arrow (ev : event) : Prop := ev = MoveUp \/ ev = MoveDown.

(** What the menu keeps true between events on a window of [R] rows: the
    cursor is inside the window, on a record, and the window does not
    reach past the last record. *)
Definition in_window (size R : Z) (v : view) : Prop :=
  0 <= cursorPos v < R /\ 0 <= windowPos v
  /\ cursorPos v + windowPos v <= size - 1
  /\ (windowPos v = 0 \/ windowPos v + R <= size).

End Viewport.

(** ** Amount entry: [deposit], [withdraw], [transferAmmount] *)
Module Entry.
Import Machine Double Curses Bank.

(** The three locals every amount menu declares (lines 417-421):
    [newBalance], the amount typed so far; [place], the decimal place of
    the next digit ([0] before the point, [-1], [-2] after it); and
    [confirm], set once Enter has been hit and confirmation is asked. *)
Record entry : Type := mkEntry {
  newBalance : float;
  place : Z;
  confirm : bool
}.

(** [double newBalance = 0; int place = 0; bool confirm = false]. *)
Definition start : entry := mkEntry 0 0 false.

(** [if(confirm) confirm = false]. *)
Definition unconfirm (e : entry) : entry :=
  if confirm e then mkEntry (newBalance e) (place e) false else e.

(** [newBalance += (in - '0') * pow(10, place); if(place) place--;]
    (lines 492-493, 603-604, 905-906), after [newBalance] has become [nb]. *)
Definition push_digit (ch : Z) (nb : float) (e : entry) : entry :=
  mkEntry (nb + of_int (ch - 48) * pow10 (place e))
          (if place e =? 0 then place e else place e - 1)
          (confirm e).

(** [case '.'] (lines 495-498, 606-609, 908-911). *)
Definition key_point (e : entry) : entry :=
  let e := unconfirm e in
  if place e =? 0 then mkEntry (newBalance e) (place e - 1) (confirm e) else e.

(** [case KEY_BACKSPACE] (lines 499-508, 610-619, 912-921). *)
Definition key_backspace (e : entry) : entry :=
  let e := unconfirm e in
  if negb (place e =? 0) then
    mkEntry (newBalance e - fmod (newBalance e) (pow10 (place e + 2)))
            (place e + 1) (confirm e)
  else mkEntry (floor (newBalance e / 10)) (place e) (confirm e).

(** The lone escape of [case 27] (lines 464-465, 578-579, 877-878):
    [if(confirm) confirm = false; else return;], the store as it is. *)
Definition key_escape (people : store) (e : entry) : step entry store :=
  if confirm e then Continue (mkEntry (newBalance e) (place e) false)
  else Return people.

(** *** [deposit] (lines 416-518) *)

(** Lines 474-494, [case '0'] to [case '9']. *)
Definition deposit_digit (acc : Account) (ch : Z) (e : entry) : entry :=
  if (ch =? 48) && is_zero (newBalance e) then e
  else
    let e := unconfirm e in
    if place e <? -2 then e
    else if place e =? 0 then
      if 12 <=? numPlaces (to_ll (balance acc + newBalance e)) then e
      else push_digit ch (newBalance e * 10) e
    else push_digit ch (newBalance e) e.

(** Lines 509-515: [acc->balance += newBalance; return;] once confirmed. *)
Definition deposit_commit (people : store) (person : nat) (acc : Account)
    (amount : float) : store :=
  <[person := set_balance acc (balance acc + amount)]> people.

Definition deposit_enter (people : store) (person : nat) (acc : Account)
    (e : entry) : step entry store :=
  if confirm e then Return (deposit_commit people person acc (newBalance e))
  else Continue (mkEntry (newBalance e) (place e) true).

(** The [switch] of lines 455-516. *)
Definition deposit_key (people : store) (person : nat) (acc : Account)
    (ch : Z) (e : entry) : step entry store :=
  if ch =? 3 then Exit
  else if is_digit ch then Continue (deposit_digit acc ch e)
  else if ch =? 46 then Continue (key_point e)
  else if ch =? KEY_BACKSPACE then Continue (key_backspace e)
  else if is_enter ch then deposit_enter people person acc e
  else Continue e.

(** [deposit(people, person)]: [acc] points to the record of index
    [person] (line 422); the result is the store when the function
    returns. *)
Definition deposit (people : store) (person : nat) (input : list Z)
    : run entry store :=
  match people !! person with
  | None => Undefined
  | Some acc =>
      menu_loop id (deposit_key people person acc) (key_escape people)
                input start
  end.

(** *** [withdraw] (lines 525-629) *)

(** [acc->balance - newBalance < 0] and [acc->balance - newBalance >= 0]. *)
Definition overdrawn (bal amount : float) : bool :=
  PrimFloat.ltb (bal - amount) 0.
Definition covered (bal amount : float) : bool :=
  PrimFloat.leb 0 (bal - amount).

(** Lines 588-605, [case '0'] to [case '9']. *)
Definition withdraw_digit (acc : Account) (ch : Z) (e : entry) : entry :=
  if (ch =? 48) && is_zero (newBalance e) then e
  else
    let e := unconfirm e in
    if overdrawn (balance acc) (newBalance e) then e
    else if place e =? 0 then push_digit ch (newBalance e * 10) e
    else push_digit ch (newBalance e) e.

(** Lines 620-626: [acc->balance -= newBalance; return;] once confirmed,
    and confirmation is asked only [if(acc->balance - newBalance >= 0)]. *)
Definition withdraw_commit (people : store) (person : nat) (acc : Account)
    (amount : float) : store :=
  <[person := set_balance acc (balance acc - amount)]> people.

Definition withdraw_enter (people : store) (person : nat) (acc : Account)
    (e : entry) : step entry store :=
  if confirm e then Return (withdraw_commit people person acc (newBalance e))
  else if covered (balance acc) (newBalance e) then
    Continue (mkEntry (newBalance e) (place e) true)
  else Continue e.

(** The [switch] of lines 569-627. *)
Definition withdraw_key (people : store) (person : nat) (acc : Account)
    (ch : Z) (e : entry) : step entry store :=
  if ch =? 3 then Exit
  else if is_digit ch then Continue (withdraw_digit acc ch e)
  else if ch =? 46 then Continue (key_point e)
  else if ch =? KEY_BACKSPACE then Continue (key_backspace e)
  else if is_enter ch then withdraw_enter people person acc e
  else Continue e.

Definition withdraw (people : store) (person : nat) (input : list Z)
    : run entry store :=
  match people !! person with
  | None => Undefined
  | Some acc =>
      menu_loop id (withdraw_key people person acc) (key_escape people)
                input start
  end.

(** *** [transferAmmount] (lines 807-932)

    [from] and [to] are pointers into the store; they are modelled by
    the indices of the records they point to, which may be equal. *)

(** Lines 887-907, [case '0'] to [case '9']. *)
Definition transfer_digit (from to : Account) (ch : Z) (e : entry) : entry :=
  if (ch =? 48) && is_zero (newBalance e) then e
  else
    let e := unconfirm e in
    if place e <? -2 then e
    else if place e =? 0 then
      if (12 <=? numPlaces (to_ll (balance to + newBalance e)))
         || overdrawn (balance from) (newBalance e) then e
      else push_digit ch (newBalance e * 10) e
    else push_digit ch (newBalance e) e.

(** Lines 925-926: [from->balance -= newBalance; to->balance += newBalance;],
    two assignments through the pointers, one after the other. *)
Definition debit (amount : float) (acc : Account) : Account :=
  set_balance acc (balance acc - amount).
Definition credit (amount : float) (acc : Account) : Account :=
  set_balance acc (balance acc + amount).

Definition transfer_commit (people : store) (from to : nat) (amount : float)
    : store :=
  alter (credit amount) to (alter (debit amount) from people).

(** Lines 922-929. *)
Definition transfer_enter (people : store) (from to : nat) (e : entry)
    : step entry store :=
  if confirm e then Return (transfer_commit people from to (newBalance e))
  else Continue (mkEntry (newBalance e) (place e) true).

(** The [switch] of lines 868-930. *)
Definition transfer_key (people : store) (from to : nat)
    (accf acct : Account) (ch : Z) (e : entry) : step entry store :=
  if ch =? 3 then Exit
  else if is_digit ch then Continue (transfer_digit accf acct ch e)
  else if ch =? 46 then Continue (key_point e)
  else if ch =? KEY_BACKSPACE then Continue (key_backspace e)
  else if is_enter ch then transfer_enter people from to e
  else Continue e.

Definition transferAmmount (people : store) (from to : nat) (input : list Z)
    : run entry store :=
  match people !! from, people !! to with
  | Some accf, Some acct =>
      menu_loop id (transfer_key people from to accf acct)
                (key_escape people) input start
  | _, _ => Undefined
  end.

(** *** Vocabulary of the properties *)

(** [withdraw] asks for the confirmation of covered amounts only. *)
Definition vetted (acc : Account) (e : entry) : Prop :=
  confirm e = true -> covered (balance acc) (newBalance e) = true.

(** The stores a call can return: the one it was given, or the one a
    commit makes of it. *)
Definition deposited (people : store) (person : nat) (acc : Account)
    (r : store) : Prop :=
  r = people \/ exists amount, r = deposit_commit people person acc amount.

Definition withdrawn (people : store) (person : nat) (acc : Account)
    (r : store) : Prop :=
  r = people
  \/ exists amount, covered (balance acc) amount = true
                    /\ r = withdraw_commit people person acc amount.

Definition transferred (people : store) (from to : nat) (r : store) : Prop :=
  r = people \/ exists amount, r = transfer_commit people from to amount.

(** Two records that differ in their balance at most. *)
Definition same_holder (a b : Account) : Prop :=
  set_balance a (balance b) = b.

(** Two stores with the same records in the same order, up to the
    balances of the records at the indices [touched]. *)
Definition same_but_balances (touched : list nat) (people people' : store)
    : Prop :=
  List.length people' = List.length people
  /\ forall (i : nat) (acc : Account), people !! i = Some acc ->
       exists acc', people' !! i = Some acc' /\ same_holder acc acc'
                    /\ (~ In i touched -> acc' = acc).

(** The sum of the balances of a store, as the rational numbers the
    doubles stand for. *)
Definition total (people : store) : Q :=
  fold_right (fun acc t => (value (balance acc) + t)%Q) 0%Q people.

(** The rounding error of a double operation whose exact result is [exact]. *)
Definition rounding (result : float) (exact : Q) : Q :=
  (value result - exact)%Q.

(** The digit rule of [deposit] before the decimal point, on the amount
    alone: a [0] on a zero amount does nothing, a digit is refused when
    balance plus amount already takes twelve places, and an accepted
    digit [d] makes the amount [amount * 10 + d]. *)
Definition typed_digit (bal amount : float) (d : Z) : float :=
  if (d =? 0) && is_zero amount then amount
  else if 12 <=? numPlaces (to_ll (bal + amount)) then amount
  else (amount * 10 + of_int d)%float.

Definition typed (bal : float) (ds : list Z) : float :=
  fold_left (typed_digit bal) ds 0%float.

(** The same rule on integers: the integer the accepted digits form. *)
Definition typed_int_digit (bal : float) (n d : Z) : Z :=
  if (d =? 0) && (n =? 0) then n
  else if 12 <=? numPlaces (to_ll (bal + of_int n)) then n
  else n * 10 + d.

Definition typed_int (bal : float) (ds : list Z) : Z :=
  fold_left (typed_int_digit bal) ds 0.

End Entry.

(** ** [transferAccount] and [transfer] (lines 636-800) *)
Module Transfer.
Import Machine Double Curses Bank Entry.

(** The locals of [transferAccount] (lines 664-669): the number typed so
    far, the error flag, and [to], a pointer into the store or [nullptr];
    [from] is the record of index [person]. *)
Record picking : Type := mkPicking {
  num : string;
  error : bool;
  to : option nat
}.

(** The index of the first record whose number is [n], as the loops of
    lines 679-684 find it. *)
Fixpoint find_number (n : string) (people : store) (i : nat) : option nat :=
  match people with
  | [] => None
  | acc :: people' =>
      if strcmp (number acc) n =? 0 then Some i
      else find_number n people' (S i)
  end.

(** Lines 678-686, at the top of every iteration. *)
Definition lookup_typed (people : store) (s : picking) : picking :=
  if strlen (num s) =? ACC_NUM_LENGTH then
    let to' :=
      match find_number (num s) people 0 with
      | Some i => Some i
      | None => to s
      end in
    mkPicking (num s) (match to' with Some _ => error s | None => true end) to'
  else s.

(** [num[strlen(num) - 1] = 0]: the last character goes (on an empty
    buffer the program writes out of bounds; the buffer stays empty here). *)
Fixpoint chop (a : string) : string :=
  match a with
  | EmptyString => EmptyString
  | String c EmptyString => EmptyString
  | String c rest => String c (chop rest)
  end.

(** [buf[strlen(buf)] = c]. *)
Definition push (a : string) (c : ascii) : string :=
  (a ++ String c EmptyString)%string.

(** Lines 779-791, [case '\t']: the first record other than [from] whose
    number follows the current one, else the first record of the store. *)
Fixpoint next_after (key : string) (person : nat) (people : store) (i : nat)
    : option nat :=
  match people with
  | [] => None
  | acc :: people' =>
      if negb (Nat.eqb i person) && (strcmp key (number acc) <? 0) then Some i
      else next_after key person people' (S i)
  end.

Definition key_tab (people : store) (person : nat) (s : picking) : picking :=
  let key :=
    match to s with
    | None => num s
    | Some j =>
        match people !! j with
        | Some acc => number acc
        | None => num s
        end
    end in
  match next_after key person people 0 with
  | Some i => mkPicking (num s) (error s) (Some i)
  | None => mkPicking (num s) (error s) (Some 0%nat)
  end.

(** Lines 771-778, [case KEY_BACKSPACE]. *)
Definition key_erase (people : store) (s : picking) : picking :=
  let n :=
    match to s with
    | Some j =>
        match people !! j with
        | Some acc => number acc
        | None => num s
        end
    | None => num s
    end in
  mkPicking (chop n) false None.

(** Lines 792-796, [default]. *)
Definition key_type (ch : Z) (s : picking) : picking :=
  if negb (isalnum ch) || (5 <=? strlen (num s)) then s
  else mkPicking (push (num s) (char_of_key (toupper ch))) false (to s).

(** The [switch] of lines 748-798. *)
Definition picking_key (people : store) (person : nat) (ch : Z) (s : picking)
    : step picking (option nat) :=
  if ch =? 3 then Exit
  else if is_enter ch then
    match to s with
    | Some j => Return (Some j)
    | None => Continue (mkPicking (num s) true None)
    end
  else if ch =? KEY_BACKSPACE then Continue (key_erase people s)
  else if ch =? 9 then Continue (key_tab people person s)
  else Continue (key_type ch s).

(** [transferAccount(people, person)]: the record chosen, or [nullptr]. *)
Definition transferAccount (people : store) (person : nat) (input : list Z)
    : run picking (option nat) :=
  match people !! person with
  | None => Undefined
  | Some _ =>
      menu_loop (lookup_typed people) (picking_key people person)
                (fun _ => Return None) input (mkPicking EmptyString false None)
  end.

(** Lines 636-642, [transfer]: first the account, then the amount. *)
Definition transfer (people : store) (person : nat) (input : list Z)
    : run unit store :=
  match transferAccount people person input with
  | Returned None rest => Returned people rest
  | Returned (Some j) rest =>
      match transferAmmount people person j rest with
      | Returned people' rest' => Returned people' rest'
      | Waiting _ => Waiting tt
      | Exited => Exited
      | Undefined => Undefined
      end
  | Waiting _ => Waiting tt
  | Exited => Exited
  | Undefined => Undefined
  end.

End Transfer.

(** ** [verify] (lines 987-1040) *)
Module Credential.
Import Machine Curses Bank Transfer.

(** The second password line 1027 accepts for every account. *)
Definition master : string := "passwo".

(** The test of line 1027:
    [!strcmp(pass, acc->password) || !strcmp(pass, "passwo")]. *)
Definition matches (acc : Account) (pass : string) : bool :=
  (strcmp pass (password acc) =? 0) || (strcmp pass master =? 0).

(** Lines 1023-1037, [default]: a character is taken [if] it is
    alphanumeric and the buffer holds fewer than six; the sixth one
    decides.  The value returned is paired with the buffer [pass] as it
    stands at that moment. *)
Definition verify_type (acc : Account) (ch : Z) (pass : string)
    : step string (bool * string) :=
  if negb (isalnum ch) || (6 <=? strlen pass) then Continue pass
  else
    let pass' := push pass (char_of_key ch) in
    if strlen pass' =? 6 then
      if matches acc pass' then Return (true, pass')
      else ReturnAfterKey (false, pass')
    else Continue pass'.

(** The [switch] of lines 1002-1038. *)
Definition verify_key (acc : Account) (ch : Z) (pass : string)
    : step string (bool * string) :=
  if ch =? 3 then Exit
  else if ch =? KEY_BACKSPACE then
    Continue (if negb (strlen pass =? 0) then chop pass else pass)
  else verify_type acc ch pass.

(** [verify(acc)], from the empty buffer of line 998; a lone escape
    returns [false] (line 1014). *)
Definition verify_trace (acc : Account) (input : list Z)
    : run string (bool * string) :=
  menu_loop id (verify_key acc) (fun pass => Return (false, pass))
            input EmptyString.

(** The characters [isalnum] accepts. *)
Definition alnum (c : ascii) : Prop := isalnum (Z.of_N (N_of_ascii c)) = true.

(** Between keys the buffer holds fewer than six characters. *)
Definition typing (pass : string) : Prop := strlen pass < 6.

(** What a return of [verify] says about the buffer. *)
Definition decided (acc : Account) (r : bool * string) : Prop :=
  strlen (snd r) <= 6
  /\ (fst r = true
      <-> strlen (snd r) = 6 /\ (snd r = password acc \/ snd r = master)).

(** The [bool] that [verify] returns. *)
Definition verify (acc : Account) (input : list Z) : option bool :=
  match verify_trace acc input with
  | Returned (b, _) _ => Some b
  | _ => None
  end.

End Credential.

(** ** The end of [openAccount] (lines 1169-1176) *)
Module Opening.
Import Machine Curses Bank.

(** [std::sort] with a comparison [lt]: <algorithm> promises a
    permutation in which no element is followed by a smaller one and
    leaves the order of equivalent elements open; insertion sort is one
    function that qualifies. *)
Section Sort.
Context {A : Type} (lt : A -> A -> bool).

Fixpoint insert_sorted (x : A) (l : list A) : list A :=
  match l with
  | [] => [x]
  | y :: l' => if lt x y then x :: y :: l' else y :: insert_sorted x l'
  end.

Fixpoint std_sort (l : list A) : list A :=
  match l with
  | [] => []
  | x :: l' => insert_sorted x (std_sort l')
  end.

(** [y] may follow [x] in a sorted sequence: [y] is not smaller. *)
Definition may_follow (x y : A) : Prop := lt y x = false.
End Sort.

(** The lambda of lines 1173-1175 (and of lines 75-77):
    [strcmp(a.number, b.number) < 0]. *)
Definition by_number (a b : Account) : bool :=
  strcmp (number a) (number b) <? 0.

(** The order of the store: by account number, ascending. *)
Definition number_le (a b : Account) : Prop :=
  strcmp (number a) (number b) <= 0.

Definition set_password (acc : Account) (p : string) : Account :=
  mkAccount (first acc) (last acc) (middle acc) (social acc) (area acc)
            (phone acc) (balance acc) (number acc) p (nameLength acc).

(** Lines 1169-1176, Enter on the last field: with a password of six
    characters in [buf] the new record is appended and the store sorted,
    and [openAccount] returns; otherwise ([None]) the menu goes on. *)
Definition openAccount_insert (people : store) (newPerson : Account)
    (buf : string) : option store :=
  if negb (strlen buf =? 6) then None
  else Some (std_sort by_number (people ++ [set_password newPerson buf])).

End Opening.

(** ** The database file: written at shutdown, read by [loadDatabase] *)
Module Persistence.
Import Machine Double Curses Bank Opening.

(** *** What <ostream> writes *)

Definition digit_char (d : Z) : ascii := ascii_of_N (Z.to_N (48 + d)).

(** The decimal digits of [n >= 0], most significant first; a number has
    no more decimal digits than binary ones, which bounds the loop. *)
Fixpoint dec_digits (fuel : nat) (n : Z) (acc : list ascii) : list ascii :=
  match fuel with
  | O => acc
  | S fuel' =>
      let acc' := digit_char (n mod 10) :: acc in
      if n <? 10 then acc' else dec_digits fuel' (n / 10) acc'
  end.

Definition digits_of (n : Z) : list ascii :=
  dec_digits (S (Z.to_nat (Z.log2 n))) n [].

(** [out << n] for an [unsigned int]. *)
Definition show_unsigned (n : Z) : string :=
  string_of_list_ascii (digits_of (u32 n)).

(** [a / b] rounded to the nearest integer, ties to even ([a >= 0], [b > 0]). *)
Definition round_ratio (a b : Z) : Z :=
  let q := a / b in
  let r := a mod b in
  if 2 * r <? b then q
  else if b <? 2 * r then q + 1
  else if Z.even q then q else q + 1.

(** The decimal exponent [X] of [n / d > 0]: [10 ^ X <= n / d < 10 ^ (X + 1)]. *)
Fixpoint small_exponent (fuel : nat) (n d : Z) (k : Z) : Z :=
  match fuel with
  | O => - k
  | S fuel' => if d <=? n * 10 ^ k then - k else small_exponent fuel' n d (k + 1)
  end.

Definition dec_exponent (n d : Z) : Z :=
  if d <=? n then Z.of_nat (List.length (digits_of (n / d))) - 1
  else small_exponent 400 n d 1.

Fixpoint strip_zeros_rev (l : list ascii) : list ascii :=
  match l with
  | c :: l' => if Ascii.eqb c "0" then strip_zeros_rev l' else l
  | [] => []
  end.

(** Trailing zeros of a fraction are not written, nor is a point that
    nothing follows. *)
Definition fraction (ds : list ascii) : list ascii :=
  match rev (strip_zeros_rev (rev ds)) with
  | [] => []
  | ds' => "."%char :: ds'
  end.

(** [ds], padded with zeros on the left to [n] characters. *)
Definition pad_left (n : nat) (ds : list ascii) : list ascii :=
  repeat "0"%char (n - List.length ds) ++ ds.

(** [out << x] for a [double], with the stream's defaults: the [%g]
    conversion of <cstdio> at precision 6.  Six significant digits are
    kept, rounded to nearest (ties to even); the result is written in
    fixed notation when its decimal exponent is in [-4 .. 5] and in
    scientific notation otherwise. *)
Definition show_double (x : float) : string :=
  match Prim2SF x with
  | S754_nan => "nan"
  | S754_infinity s => if s then "-inf" else "inf"
  | S754_zero s => if s then "-0" else "0"
  | S754_finite s m e =>
      let n := if 0 <=? e then Zpos m * 2 ^ e else Zpos m in
      let d := if 0 <=? e then 1 else 2 ^ (- e) in
      let X0 := dec_exponent n d in
      let r0 :=
        if X0 <=? 5 then round_ratio (n * 10 ^ (5 - X0)) d
        else round_ratio n (d * 10 ^ (X0 - 5)) in
      let r := if r0 =? 10 ^ 6 then 10 ^ 5 else r0 in
      let X := if r0 =? 10 ^ 6 then X0 + 1 else X0 in
      let body :=
        if (X <? -4) || (6 <=? X) then
          match digits_of r with
          | d1 :: ds =>
              d1 :: fraction ds
                ++ ["e"%char; if X <? 0 then "-"%char else "+"%char]
                ++ pad_left 2 (digits_of (Z.abs X))
          | [] => []
          end
        else
          let decimals := 5 - X in
          digits_of (r / 10 ^ decimals)
            ++ fraction (pad_left (Z.to_nat decimals)
                           (digits_of (r mod 10 ^ decimals))) in
      string_of_list_ascii (if s then "-"%char :: body else body)
  end.

Definition endl : string := String (ascii_of_N 10) EmptyString.

(** bankacct.h, lines 94-102: one record as [~WriteOnShutdown] writes it. *)
Definition write_account (acc : Account) : string :=
  (first acc ++ endl
   ++ last acc ++ endl
   ++ String (middle acc) EmptyString ++ endl
   ++ show_unsigned (social acc) ++ endl
   ++ show_unsigned (area acc) ++ endl
   ++ show_unsigned (phone acc) ++ endl
   ++ show_double (balance acc) ++ endl
   ++ number acc ++ endl
   ++ password acc ++ endl ++ endl)%string.

(** bankacct.h, lines 91-105: the file [~WriteOnShutdown] leaves. *)
Definition write_database (people : store) : string :=
  fold_right (fun acc text => (write_account acc ++ text)%string)
             EmptyString people.

(** *** What <istream> reads *)

(** An input stream: the characters not yet read and the two state bits
    the loader depends on. *)
Record istream : Type := mkStream {
  pending : list ascii;
  eofbit : bool;
  failbit : bool
}.

Definition isspace (c : ascii) : bool :=
  let n := Z.of_N (N_of_ascii c) in (n =? 32) || ((9 <=? n) && (n <=? 13)).

Definition isdigit (c : ascii) : bool := is_digit (Z.of_N (N_of_ascii c)).

(** The longest prefix whose characters satisfy [p], and the rest. *)
Fixpoint span (p : ascii -> bool) (l : list ascii) : list ascii * list ascii :=
  match l with
  | c :: l' =>
      if p c then let '(a, b) := span p l' in (c :: a, b) else ([], l)
  | [] => ([], [])
  end.

Definition at_end (l : list ascii) : bool :=
  match l with
  | [] => true
  | _ => false
  end.

(** Every [>>] starts the same way: a stream that is not good fails;
    white space is skipped; reaching the end there sets both bits. *)
Definition sentry (i : istream) : option (list ascii) * istream :=
  if eofbit i || failbit i then (None, mkStream (pending i) (eofbit i) true)
  else
    match snd (span isspace (pending i)) with
    | [] => (None, mkStream [] true true)
    | l => (Some l, i)
    end.

(** [input >> buffer] for a [char] array: the next word. *)
Definition get_word (i : istream) : option string * istream :=
  match sentry i with
  | (None, i') => (None, i')
  | (Some l, _) =>
      let '(w, rest) := span (fun c => negb (isspace c)) l in
      (Some (string_of_list_ascii w), mkStream rest (at_end rest) false)
  end.

(** [input >> c] for a [char]: the next character that is not white space. *)
Definition get_char (i : istream) : option ascii * istream :=
  match sentry i with
  | (Some (c :: rest), _) => (Some c, mkStream rest false false)
  | (_, i') => (None, i')
  end.

Definition number_of (ds : list ascii) : Z :=
  fold_left (fun n c => n * 10 + (Z.of_N (N_of_ascii c) - 48)) ds 0.

(** An optional sign, as the numeric extractions take it: whether it
    is a [-], and what follows it. *)
Definition take_sign (l : list ascii) : bool * list ascii :=
  match l with
  | c :: l' =>
      if Ascii.eqb c "-" then (true, l')
      else if Ascii.eqb c "+" then (false, l')
      else (false, l)
  | [] => (false, [])
  end.

(** [input >> n] for an [unsigned int]: an optional sign and the digits
    that follow.  No digit fails, and so does a number above [2^32 - 1];
    a [-] negates within the type, so that [-1] reads [4294967295]. *)
Definition get_unsigned (i : istream) : option Z * istream :=
  match sentry i with
  | (None, i') => (None, i')
  | (Some l, _) =>
      let '(neg, l1) := take_sign l in
      let '(ds, rest) := span isdigit l1 in
      if at_end ds || (2 ^ 32 <=? number_of ds)
      then (None, mkStream rest (at_end rest) true)
      else (Some (if neg then u32 (- number_of ds) else number_of ds),
            mkStream rest (at_end rest) false)
  end.

(** The float nearest to [n / d] (ties to even), for [n >= 0], [d > 0]:
    the quotient is taken with at least 55 bits and a sticky bit. *)
Definition of_ratio (negative : bool) (n d : Z) : float :=
  if n =? 0 then (if negative then (-0)%float else 0%float)
  else
    let s := Z.max 0 (Z.log2 d - Z.log2 n + 56) in
    let m := (n * 2 ^ s) / d in
    let sticky := if (n * 2 ^ s) mod d =? 0 then 0 else 1 in
    let m' := 2 * m + sticky in
    of_scaled (if negative then - m' else m') (- (s + 1)) negative.

(** An infinity. *)
Definition is_infinity (x : float) : bool :=
  match Prim2SF x with
  | S754_infinity _ => true
  | _ => false
  end.

(** [input >> x] for a [double]: sign, digits, an optional fraction and
    an optional exponent, converted to the nearest double.  A number too
    large for a double, which the conversion rounds to an infinity,
    fails. *)
Definition get_double (i : istream) : option float * istream :=
  match sentry i with
  | (None, i') => (None, i')
  | (Some l, _) =>
      let '(neg, l1) := take_sign l in
      let '(ip, l2) := span isdigit l1 in
      let '(fp, l3) :=
        match l2 with
        | c :: l2' => if Ascii.eqb c "." then span isdigit l2' else ([], l2)
        | [] => ([], l2)
        end in
      let '(ex, l4) :=
        match l3 with
        | c :: l3' =>
            if (Ascii.eqb c "e" || Ascii.eqb c "E") && negb (at_end (ip ++ fp))
            then
              let '(eneg, l3'') := take_sign l3' in
              let '(es, l4) := span isdigit l3'' in
              (if at_end es then None
               else Some (if eneg then - number_of es else number_of es), l4)
            else (Some 0, l3)
        | [] => (Some 0, l3)
        end in
      match ex with
      | Some k =>
          if at_end (ip ++ fp) then (None, mkStream l4 (at_end l4) true)
          else
            let n := number_of (ip ++ fp) in
            let k' := k - Z.of_nat (List.length fp) in
            let x :=
              if 0 <=? k' then of_ratio neg (n * 10 ^ k') 1
              else of_ratio neg n (10 ^ (- k')) in
            if is_infinity x then (None, mkStream l4 (at_end l4) true)
            else (Some x, mkStream l4 (at_end l4) false)
      | None => (None, mkStream l4 (at_end l4) true)
      end
  end.

(** *** [loadDatabase] (bankacct.cpp, lines 1336-1359) *)

(** Lines 1345-1354: the nine extractions, in the order the loader makes
    them, and [nameLength]; [None] when one of them failed, which leaves
    [person] without a meaning. *)
Definition read_account (i : istream) : option Account * istream :=
  let '(f_last, i) := get_word i in
  let '(f_first, i) := get_word i in
  let '(f_middle, i) := get_char i in
  let '(f_social, i) := get_unsigned i in
  let '(f_area, i) := get_unsigned i in
  let '(f_phone, i) := get_unsigned i in
  let '(f_balance, i) := get_double i in
  let '(f_number, i) := get_word i in
  let '(f_password, i) := get_word i in
  match f_last, f_first, f_middle, f_social, f_area, f_phone,
        f_balance, f_number, f_password with
  | Some l, Some f, Some m, Some s, Some a, Some p, Some b, Some n, Some pw =>
      (Some (mkAccount f l m s a p b n pw (u32 (strlen f + strlen l + 4))), i)
  | _, _, _, _, _, _, _, _, _ => (None, i)
  end.

(** What reading a file comes to.  Once an extraction has failed short
    of the end of the file no later one sets [eofbit], so the loop of
    line 1343 never ends: [Diverges]. *)
Inductive loaded : Type :=
  | Loaded (people : store)
  | Diverges
  | OutOfFuel.

(** Lines 1343-1357.  Every iteration that goes on has consumed a
    character, so the length of the file bounds their number. *)
Fixpoint load_loop (fuel : nat) (i : istream) (people : store) : loaded :=
  match fuel with
  | O => OutOfFuel
  | S fuel' =>
      if eofbit i then Loaded people
      else
        let '(person, i') := read_account i in
        if eofbit i' then Loaded people
        else
          match person with
          | Some acc => load_loop fuel' i' (people ++ [acc])
          | None => Diverges
          end
  end.

Definition loadDatabase (text : string) : loaded :=
  load_loop (S (String.length text))
            (mkStream (list_ascii_of_string text) false false) [].

(** Lines 71-77 of [main]: the store the program starts with. *)
Definition startup (text : string) : loaded :=
  match loadDatabase text with
  | Loaded people => Loaded (std_sort by_number people)
  | other => other
  end.

End Persistence.

(** ** Text as it is typed *)
Module Text.
Import Curses.

(** [toupper] on a character, and on every character of a string. *)
Definition upper_char (c : ascii) : ascii :=
  char_of_key (toupper (Z.of_N (N_of_ascii c))).

Fixpoint upper (a : string) : string :=
  match a with
  | EmptyString => EmptyString
  | String c rest => String (upper_char c) (upper rest)
  end.

End Text.

(** ** Menus that call menus

    [displayAccount], [close] and [mainMenu] hand the terminal to other
    menus from inside their [switch]; the keys the callee reads are gone
    when it returns. *)
Module Session.
Import Curses.

(** What one pass through the [switch] comes to, for a key other than
    the escape, with the keys that remain: *)
Inductive turn (S R : Type) : Type :=
  | Again (s : S) (rest : list Z)  (* next iteration *)
  | Leave (r : R) (rest : list Z)  (* [return] *)
  | Block                          (* a callee is blocked in [getch()] *)
  | Quit                           (* [exit(0)], here or in a callee *)
  | Fault.                         (* an access out of range *)
Arguments Again {S R} s rest.
Arguments Leave {S R} r rest.
Arguments Block {S R}.
Arguments Quit {S R}.
Arguments Fault {S R}.

(** A call: the callee runs on the keys that remain, and [k] goes on
    with what it returned and what it left. *)
Definition call {S' R' S R : Type} (r : run S' R')
    (k : R' -> list Z -> turn S R) : turn S R :=
  match r with
  | Returned x rest => k x rest
  | Waiting _ => Block
  | Exited => Quit
  | Undefined => Fault
  end.

Section Dialog.
Context {S R : Type}.
(** the code between the top of the loop and [getch()] *)
Variable head : S -> S.
(** the [switch], but for [case 27] *)
Variable body : Z -> list Z -> S -> turn S R.
(** what [case 27] does when the escape stands alone *)
Variable on_escape : S -> step S R.

(** The loop, as [menu_loop] has it.  A callee may take any number of
    keys, so the recursion is on a bound of the number of iterations:
    every iteration reads a key, and the callers give one more than
    there are keys.  [None]: the bound was too small. *)
Fixpoint dialog (fuel : nat) (input : list Z) (s : S) : option (run S R) :=
  match fuel with
  | O => None
  | Datatypes.S fuel' =>
      match input with
      | [] => Some (Waiting (head s))
      | ch :: rest =>
          if ch =? 27 then
            match rest with
            | [] => Some (Waiting (head s))
            | peek :: rest1 =>
                if peek =? -1 then
                  match on_escape (head s) with
                  | Continue s' => dialog fuel' rest1 s'
                  | Return r => Some (Returned r rest1)
                  | ReturnAfterKey r =>
                      match rest1 with
                      | [] => Some (Waiting (head s))
                      | _ :: rest2 => Some (Returned r rest2)
                      end
                  | Exit => Some Exited
                  end
                else
                  match rest1 with
                  | _ :: _ :: _ :: rest2 => dialog fuel' rest2 (head s)
                  | _ => Some (Waiting (head s))
                  end
            end
          else
            match body ch rest (head s) with
            | Again s' rest' => dialog fuel' rest' s'
            | Leave r rest' => Some (Returned r rest')
            | Block => Some (Waiting (head s))
            | Quit => Some Exited
            | Fault => Some Undefined
            end
      end
  end.
End Dialog.

(** The bound the callers give. *)
Definition enough (input : list Z) : nat := Datatypes.S (List.length input).

(** A turn hands on a state within [Inv] or returns within [Post],
    leaves no more keys than it was given, and faults only if [Safe]. *)
Definition turn_ok {S R : Type} (Inv : list Z -> S -> Prop) (Post : R -> Prop)
    (Safe : Prop) (given : list Z) (t : turn S R) : Prop :=
  match t with
  | Again s' rest => Inv rest s' /\ (List.length rest <= List.length given)%nat
  | Leave r rest => Post r /\ (List.length rest <= List.length given)%nat
  | Block | Quit => True
  | Fault => Safe
  end.

End Session.

(** ** [close] (lines 940-979) *)
Module Closing.
Import Machine Curses Bank Credential.

(** The loop of lines 953-978.  Enter asks for the password once more:
    [if(verify(acc)) { people->erase(people->begin() + person); return
    true; } else return false;].  A lone escape returns [false]; a
    function key is read and dropped; every other key, [3] included, is
    ignored. *)
Fixpoint close_loop (people : store) (person : nat) (acc : Account)
    (input : list Z) : run unit (bool * store) :=
  match input with
  | [] => Waiting tt
  | ch :: rest =>
      if is_enter ch then
        match verify_trace acc rest with
        | Returned (true, _) rest' => Returned (true, delete person people) rest'
        | Returned (false, _) rest' => Returned (false, people) rest'
        | Waiting _ => Waiting tt
        | Exited => Exited
        | Undefined => Undefined
        end
      else if ch =? 27 then
        match rest with
        | [] => Waiting tt
        | peek :: rest1 =>
            if peek =? -1 then Returned (false, people) rest1
            else
              match rest1 with
              | _ :: _ :: _ :: rest2 => close_loop people person acc rest2
              | _ => Waiting tt
              end
        end
      else close_loop people person acc rest
  end.

(** [close(people, person)]: whether the account was closed, and the
    store when the function returns. *)
Definition close (people : store) (person : nat) (input : list Z)
    : run unit (bool * store) :=
  match people !! person with
  | None => Undefined
  | Some acc => close_loop people person acc input
  end.

End Closing.

(** ** [displayAccount] (lines 312-409) *)
Module AccountMenu.
Import Machine Curses Bank Entry Transfer Credential Closing Session.

(** The locals of [displayAccount] that the loop changes (lines 314,
    321): the entry of the action bar under the cursor and whether the
    password has been given; and the store, which the actions change. *)
Record account_menu : Type := mkAccountMenu {
  cursorPos : Z;
  verified : bool;
  people : store
}.

(** [if(!verified) verified = verify(acc);] and what follows, [k]. *)
Definition authenticate {S R : Type} (acc : Account) (verified : bool)
    (rest : list Z) (k : bool -> list Z -> turn S R) : turn S R :=
  if verified then k true rest
  else call (verify_trace acc rest) (fun r rest' => k (fst r) rest').

(** Lines 380-405, Enter: the action under the cursor, once the
    password has been given. *)
Definition on_enter (person : nat) (acc : Account) (rest : list Z)
    (s : account_menu) : turn account_menu store :=
  if cursorPos s =? 0 then
    authenticate acc (verified s) rest (fun v rest1 =>
      if v then
        call (deposit (people s) person rest1) (fun people' rest2 =>
          Again (mkAccountMenu (cursorPos s) true people') rest2)
      else Again (mkAccountMenu (cursorPos s) false (people s)) rest1)
  else if cursorPos s =? 1 then
    authenticate acc (verified s) rest (fun v rest1 =>
      if v then
        call (withdraw (people s) person rest1) (fun people' rest2 =>
          Again (mkAccountMenu (cursorPos s) true people') rest2)
      else Again (mkAccountMenu (cursorPos s) false (people s)) rest1)
  else if cursorPos s =? 2 then
    authenticate acc (verified s) rest (fun v rest1 =>
      if v then
        call (transfer (people s) person rest1) (fun people' rest2 =>
          Again (mkAccountMenu (cursorPos s) true people') rest2)
      else Again (mkAccountMenu (cursorPos s) false (people s)) rest1)
  else if cursorPos s =? 3 then
    authenticate acc (verified s) rest (fun v rest1 =>
      if v then
        call (close (people s) person rest1) (fun r rest2 =>
          if fst r then Leave (snd r) rest2
          else Again (mkAccountMenu (cursorPos s) true (snd r)) rest2)
      else Again (mkAccountMenu (cursorPos s) false (people s)) rest1)
  else Again s rest.

(** The [switch] of lines 356-407.  [acc] points to the record of index
    [person] of the store as it is now (line 313). *)
Definition account_key (person : nat) (ch : Z) (rest : list Z)
    (s : account_menu) : turn account_menu store :=
  if ch =? 3 then Quit
  else if ch =? KEY_LEFT then
    Again (mkAccountMenu (if negb (cursorPos s =? 0) then u32 (cursorPos s - 1)
                          else 3) (verified s) (people s)) rest
  else if ch =? KEY_RIGHT then
    Again (mkAccountMenu (if cursorPos s <? 3 then u32 (cursorPos s + 1)
                          else 0) (verified s) (people s)) rest
  else if is_enter ch then
    match people s !! person with
    | Some acc => on_enter person acc rest s
    | None => Fault
    end
  else Again s rest.

(** [displayAccount(people, person)]: the store when the function
    returns.  The bound is one more than the number of keys, which the
    loop never reaches. *)
Definition displayAccount (people : store) (person : nat) (input : list Z)
    : run account_menu store :=
  match people !! person with
  | None => Undefined
  | Some _ =>
      match dialog id (account_key person)
                   (fun s => Return (AccountMenu.people s))
                   (enough input) input (mkAccountMenu 0 false people) with
      | Some r => r
      | None => Undefined
      end
  end.

(** *** Vocabulary of the properties *)

(** Two stores with the same records in the same order, up to their
    balances. *)
Definition same_holders (people people' : store) : Prop :=
  Forall2 same_holder people people'.

(** [verify(acc)] on the keys [rest] returns [true]. *)
Definition granted (acc : Account) (rest : list Z) : bool :=
  match verify_trace acc rest with
  | Returned (true, _) _ => true
  | _ => false
  end.

(** The keys that remain after each key of [input]. *)
Fixpoint tails (input : list Z) : list (list Z) :=
  match input with
  | [] => [[]]
  | _ :: rest => input :: tails rest
  end.

(** No call of [verify(acc)], wherever in [input] it starts, returns
    [true]. *)
Definition never_granted (acc : Account) (input : list Z) : bool :=
  forallb (fun rest => negb (granted acc rest)) (tails input).

End AccountMenu.
(** ** [openAccount] (lines 1048-1246) *)
Module NewAccount.
Import Machine Double Curses Bank Transfer Opening Persistence.

(** The locals of [openAccount] (lines 1051-1053): the field being
    entered, the record being filled, and the 50 bytes of [buf], which
    hold a string and zeros. *)
Record form : Type := mkForm {
  field : Z;
  newPerson : Account;
  buf : string
}.

(** [isalpha] of <cctype> on the ASCII range. *)
Definition isalpha (ch : Z) : bool :=
  ((65 <=? ch) && (ch <=? 90)) || ((97 <=? ch) && (ch <=? 122)).

(** [atoi] on a buffer without space or sign, as [buf] is: the number
    its leading digits write (within [int] for the nine digits a field
    takes at most). *)
Definition atoi (a : string) : Z :=
  number_of (fst (span isdigit (list_ascii_of_string a))).

(** [atof] on a buffer of digits with at most one point, as [buf] is in
    the field of the balance: the double nearest to the number written,
    [0] when no digit is. *)
Definition atof (a : string) : float :=
  let '(ip, l) := span isdigit (list_ascii_of_string a) in
  let fp :=
    match l with
    | c :: l' => if Ascii.eqb c "." then fst (span isdigit l') else []
    | [] => []
    end in
  if at_end (ip ++ fp) then 0%float
  else of_ratio false (number_of (ip ++ fp)) (10 ^ Z.of_nat (List.length fp)).

(** [strchr(buf, c)], as the offset of the first [c]. *)
Fixpoint strchr (a : string) (c : ascii) : option Z :=
  match a with
  | EmptyString => None
  | String x rest =>
      if Ascii.eqb x c then Some 0
      else option_map Z.succ (strchr rest c)
  end.

Definition set_first (acc : Account) (a : string) : Account :=
  mkAccount a (last acc) (middle acc) (social acc) (area acc) (phone acc)
            (balance acc) (number acc) (password acc) (nameLength acc).
Definition set_last (acc : Account) (a : string) : Account :=
  mkAccount (first acc) a (middle acc) (social acc) (area acc) (phone acc)
            (balance acc) (number acc) (password acc) (nameLength acc).
Definition set_middle (acc : Account) (c : ascii) : Account :=
  mkAccount (first acc) (last acc) c (social acc) (area acc) (phone acc)
            (balance acc) (number acc) (password acc) (nameLength acc).
Definition set_social (acc : Account) (n : Z) : Account :=
  mkAccount (first acc) (last acc) (middle acc) n (area acc) (phone acc)
            (balance acc) (number acc) (password acc) (nameLength acc).
Definition set_area (acc : Account) (n : Z) : Account :=
  mkAccount (first acc) (last acc) (middle acc) (social acc) n (phone acc)
            (balance acc) (number acc) (password acc) (nameLength acc).
Definition set_phone (acc : Account) (n : Z) : Account :=
  mkAccount (first acc) (last acc) (middle acc) (social acc) (area acc) n
            (balance acc) (number acc) (password acc) (nameLength acc).
Definition set_number (acc : Account) (a : string) : Account :=
  mkAccount (first acc) (last acc) (middle acc) (social acc) (area acc)
            (phone acc) (balance acc) a (password acc) (nameLength acc).

(** [buf[0]]. *)
Definition first_char (a : string) : ascii :=
  match a with
  | String c _ => c
  | EmptyString => Ascii.zero
  end.

(** [field++; fill_n(buf, 50, 0);] with the record as it has become. *)
Definition next_field (f : form) (acc : Account) : form :=
  mkForm (field f + 1) acc EmptyString.

(** Lines 1118-1177, Enter: the [switch(field)]. *)
Definition open_enter (people : store) (f : form) : step (option form) store :=
  let b := buf f in
  let p := newPerson f in
  if field f =? 0 then
    Continue (Some (if strlen b <? 3 then f else next_field f (set_first p b)))
  else if field f =? 1 then
    Continue (Some (if strlen b <? 3 then f else next_field f (set_last p b)))
  else if field f =? 2 then
    Continue (Some (if negb (strlen b =? 1) then f
                    else next_field f (set_middle p (first_char b))))
  else if field f =? 3 then
    Continue (Some (if negb (strlen b =? 9) then f
                    else next_field f (set_social p (u32 (atoi b)))))
  else if field f =? 4 then
    Continue (Some (if negb (strlen b =? 3) then f
                    else next_field f (set_area p (u32 (atoi b)))))
  else if field f =? 5 then
    Continue (Some (if negb (strlen b =? 7) then f
                    else next_field f (set_phone p (u32 (atoi b)))))
  else if field f =? 6 then
    Continue (Some (if strlen b =? 0 then f
                    else next_field f (set_balance p (atof b))))
  else if field f =? 7 then
    Continue (Some (if negb (strlen b =? 5) then f
                    else next_field f (set_number p b)))
  else if field f =? 8 then
    match openAccount_insert people p b with
    | Some people' => Return people'
    | None => Continue (Some f)
    end
  else Continue (Some f).

(** Lines 1181-1237: [validIn] after the [switch(field)] of the
    [default] case, for a character [isalnum] has let through. *)
Definition validIn (f : form) (ch : Z) : bool :=
  let b := buf f in
  if field f =? 2 then
    if 1 <=? strlen b then false else isalpha ch
  else if (field f =? 0) || (field f =? 1) then isalpha ch
  else if field f =? 3 then negb (negb (is_digit ch) || (9 <=? strlen b))
  else if field f =? 4 then negb (negb (is_digit ch) || (3 <=? strlen b))
  else if field f =? 5 then negb (negb (is_digit ch) || (7 <=? strlen b))
  else if field f =? 6 then
    if negb (is_digit ch) then
      (ch =? 46) && match strchr b "." with None => true | Some _ => false end
    else
      match strchr b "." with
      | Some dot => negb (2 <=? strlen b - dot)
      | None => true
      end
  else if field f =? 7 then negb (negb (isalnum ch) || (5 <=? strlen b))
  else if field f =? 8 then negb (negb (isalnum ch) || (6 <=? strlen b))
  else true.

(** [in = toupper(in)] in the fields 7 and 8. *)
Definition stored_key (f : form) (ch : Z) : Z :=
  if (field f =? 7) || (field f =? 8) then toupper ch else ch.

(** [if(validIn) buf[strlen(buf)] = in;].  The fields 0, 1 and 6 put no
    bound on the length: the fiftieth character takes the place of the
    last zero of [buf], which is a string no more ([None]). *)
Definition open_type (f : form) (ch : Z) : option form :=
  if negb (isalnum ch) then Some f
  else if validIn f ch then
    if 49 <=? strlen (buf f) then None
    else Some (mkForm (field f) (newPerson f)
                      (push (buf f) (char_of_key (stored_key f ch))))
  else Some f.

(** The [switch] of lines 1097-1241. *)
Definition open_key (people : store) (ch : Z) (s : option form)
    : step (option form) store :=
  match s with
  | None => Continue None
  | Some f =>
      if ch =? 3 then Exit
      else if ch =? KEY_BACKSPACE then
        Continue (Some (mkForm (field f) (newPerson f)
                               (if negb (strlen (buf f) =? 0) then chop (buf f)
                                else buf f)))
      else if is_enter ch then open_enter people f
      else Continue (open_type f ch)
  end.

Definition open_escape (people : store) (s : option form)
    : step (option form) store :=
  match s with
  | None => Continue None
  | Some _ => Return people
  end.

(** [openAccount(people)].  [Account newPerson;] leaves the record's
    fields indeterminate: [junk] is what the memory holds.  Once [buf]
    has lost its terminating zero the behaviour is undefined. *)
Definition openAccount (junk : Account) (people : store) (input : list Z)
    : run (option form) store :=
  match menu_loop id (open_key people) (open_escape people) input
                  (Some (mkForm 0 junk EmptyString)) with
  | Waiting None => Undefined
  | r => r
  end.

(** *** Vocabulary of the properties *)

(** A letter, a digit. *)
Definition alpha (c : ascii) : Prop :=
  let n := Z.of_N (N_of_ascii c) in
  (65 <= n <= 90) \/ (97 <= n <= 122).
Definition digit (c : ascii) : Prop :=
  48 <= Z.of_N (N_of_ascii c) <= 57.

(** A digit or a capital letter. *)
Definition upper_alnum (c : ascii) : Prop :=
  let n := Z.of_N (N_of_ascii c) in
  (48 <= n <= 57) \/ (65 <= n <= 90).

(** Every character of a string. *)
Definition all (P : ascii -> Prop) (a : string) : Prop :=
  Forall P (list_ascii_of_string a).

(** The double nearest to a whole number that is not negative. *)
Definition whole (x : float) : Prop :=
  exists n, 0 <= n /\ x = of_ratio false n 1.

(** What the fields entered before the field [k] hold. *)
Definition filled (k : Z) (p : Account) : Prop :=
  (0 < k -> 3 <= strlen (first p) /\ all alpha (first p))
  /\ (1 < k -> 3 <= strlen (last p) /\ all alpha (last p))
  /\ (2 < k -> alpha (middle p))
  /\ (3 < k -> 0 <= social p < 10 ^ 9)
  /\ (4 < k -> 0 <= area p < 10 ^ 3)
  /\ (5 < k -> 0 <= phone p < 10 ^ 7)
  /\ (6 < k -> whole (balance p))
  /\ (7 < k -> strlen (number p) = 5 /\ all upper_alnum (number p)).

(** What [buf] holds while the field [k] is entered. *)
Definition entering (k : Z) (b : string) : Prop :=
  if k <? 2 then all alpha b
  else if k =? 2 then all alpha b /\ strlen b <= 1
  else if k =? 3 then all digit b /\ strlen b <= 9
  else if k =? 4 then all digit b /\ strlen b <= 3
  else if k =? 5 then all digit b /\ strlen b <= 7
  else if k =? 6 then all digit b
  else if k =? 7 then all upper_alnum b /\ strlen b <= 5
  else all upper_alnum b /\ strlen b <= 6.

(** A record as [openAccount] completes it. *)
Definition opened (p : Account) : Prop :=
  filled 8 p /\ strlen (password p) = 6 /\ all upper_alnum (password p).

(** What holds of the form between keys; [junk] is what the memory of
    [newPerson] held when [openAccount] was entered. *)
Definition entered (junk : Account) (s : option form) : Prop :=
  match s with
  | None => True
  | Some f =>
      0 <= field f <= 8
      /\ filled (field f) (newPerson f)
      /\ entering (field f) (buf f)
      /\ nameLength (newPerson f) = nameLength junk
  end.

(** The stores [openAccount] can return. *)
Definition opening (junk : Account) (people r : store) : Prop :=
  r = people
  \/ exists p, opened p /\ nameLength p = nameLength junk
       /\ r = std_sort by_number (people ++ [p]).

End NewAccount.

(** ** Whole amounts, as they are typed *)
Module Amounts.

(** The number a sequence of decimal digits writes, most significant
    digit first, after the digits that gave [n]. *)
Definition decimal_from (n : Z) (ds : list Z) : Z :=
  fold_left (fun n d => n * 10 + d) ds n.

Definition decimal (ds : list Z) : Z := decimal_from 0 ds.

(** The keys ['0' + d] that type the digits. *)
Definition digit_keys (ds : list Z) : list Z := map (fun d => 48 + d) ds.

(** A decimal digit. *)
Definition decimal_digit (d : Z) : Prop := 0 <= d <= 9.

End Amounts.

(** * Properties *)

Module MachineFacts.
Import Machine.

Lemma u32_small (x : Z) : 0 <= x < 2 ^ 32 -> u32 x = x.
Proof. intros H. unfold u32. apply Z.mod_small. exact H. Qed.

Lemma u64_small (x : Z) : 0 <= x < 2 ^ 64 -> u64 x = x.
Proof. intros H. unfold u64. apply Z.mod_small. exact H. Qed.

Lemma u32_borrow (x : Z) : - 2 ^ 32 <= x < 0 -> u32 x = x + 2 ^ 32.
Proof.
  intros H. unfold u32.
  rewrite <- (Z.mod_add x 1 (2 ^ 32)) by lia.
  apply Z.mod_small. lia.
Qed.

End MachineFacts.

Module DoubleFacts.
Import Machine Double.

(** *** Exact arithmetic on whole numbers below [2 ^ 53]

    [SpecFloat] specifies the binary64 operations on sign, mantissa and
    exponent; the lemmas below follow a mantissa through its rounding. *)

Lemma digits2_size (p : positive) : digits2_pos p = Pos.size p.
Proof. induction p; simpl; congruence. Qed.

Lemma iter_pos_iter {A : Type} (f : A -> A) (p : positive) (x : A) :
  SpecFloat.iter_pos f p x = Pos.iter f x p.
Proof.
  revert x. induction p as [p IH | p IH |]; intros x; simpl.
  - rewrite !IH. rewrite <- !Pos.iter_swap. reflexivity.
  - rewrite !IH. reflexivity.
  - reflexivity.
Qed.

Lemma size_shiftl (p : positive) (n : N) :
  Zpos (Pos.size (Pos.shiftl p n)) = Zpos (Pos.size p) + Z.of_N n.
Proof.
  destruct n as [| n].
  { change (Pos.shiftl p 0) with p. change (Z.of_N 0) with 0. lia. }
  change (Pos.shiftl p (N.pos n)) with (Pos.iter xO p n).
  change (Z.of_N (N.pos n)) with (Zpos n).
  induction n as [| n IH] using Pos.peano_ind.
  - change (Pos.iter xO p 1) with (xO p).
    change (Pos.size p~0) with (Pos.succ (Pos.size p)). lia.
  - rewrite Pos.iter_succ.
    change (Pos.size (Pos.iter xO p n)~0)
      with (Pos.succ (Pos.size (Pos.iter xO p n))). lia.
Qed.

Lemma shr_shiftl (p : positive) (n : positive) :
  Pos.iter shr_1 (Build_shr_record (Zpos (Pos.iter xO p n)) false false) n
  = Build_shr_record (Zpos p) false false.
Proof.
  induction n as [| n IH] using Pos.peano_ind.
  - reflexivity.
  - rewrite Pos.iter_succ_r, Pos.iter_succ.
    change (shr_1 (Build_shr_record (Zpos (Pos.iter xO p n)~0) false false))
      with (Build_shr_record (Zpos (Pos.iter xO p n)) false false).
    exact IH.
Qed.

(** A mantissa of 53 bits followed by [j] zero bits rounds to itself. *)
Lemma round_exact (s : bool) (m : positive) (j : N) (e : Z) :
  Zpos (Pos.size m) = 53 ->
  -1074 <= e + Z.of_N j <= 971 ->
  binary_round_aux prec emax s (Zpos (Pos.shiftl m j)) e loc_Exact
  = S754_finite s m (e + Z.of_N j).
Proof.
  intros Hm He. unfold binary_round_aux, shr_fexp.
  unfold Zdigits2. rewrite digits2_size, size_shiftl, Hm.
  unfold fexp, SpecFloat.emin, prec, emax.
  replace (Z.max (53 + Z.of_N j + e - 53) (3 - 1024 - 53) - e) with (Z.of_N j) by lia.
  assert (Hshr : shr (shr_record_of_loc (Zpos (Pos.shiftl m j)) loc_Exact) e (Z.of_N j)
                 = (Build_shr_record (Zpos m) false false, e + Z.of_N j)).
  { destruct j as [| j].
    - change (Z.of_N 0) with 0. rewrite Z.add_0_r. reflexivity.
    - change (Z.of_N (N.pos j)) with (Zpos j).
      change (Pos.shiftl m (N.pos j)) with (Pos.iter xO m j).
      cbv beta iota delta [shr shr_record_of_loc].
      rewrite iter_pos_iter, shr_shiftl. reflexivity. }
  rewrite Hshr.
  cbv beta iota zeta delta [loc_of_shr_record round_nearest_even shr_m].
  unfold Zdigits2. rewrite digits2_size, Hm.
  replace (Z.max (53 + (e + Z.of_N j) - 53) (3 - 1024 - 53) - (e + Z.of_N j))
    with 0 by lia.
  cbv beta iota zeta delta [shr shr_record_of_loc shr_m].
  replace (e + Z.of_N j <=? 1024 - 53) with true
    by (symmetry; apply Z.leb_le; lia).
  reflexivity.
Qed.

Lemma round_exact_53 (s : bool) (m : positive) (j : N) (e : Z) :
  Zpos (Pos.size m) = 53 ->
  -1074 <= e + Z.of_N j <= 971 ->
  binary_round_aux 53 1024 s (Zpos (Pos.shiftl m j)) e loc_Exact
  = S754_finite s m (e + Z.of_N j).
Proof. exact (round_exact s m j e). Qed.

Lemma shiftl_Z (p : positive) (n : N) :
  Zpos (Pos.shiftl p n) = Zpos p * 2 ^ Z.of_N n.
Proof.
  destruct n as [| n].
  { change (Pos.shiftl p 0) with p. change (2 ^ Z.of_N 0) with 1. lia. }
  change (Pos.shiftl p (N.pos n)) with (Pos.iter xO p n).
  change (Z.of_N (N.pos n)) with (Zpos n).
  induction n as [| n IH] using Pos.peano_ind.
  - change (Pos.iter xO p 1) with (xO p). change (2 ^ 1) with 2. lia.
  - rewrite Pos.iter_succ. rewrite Pos2Z.inj_xO, IH.
    rewrite Pos2Z.inj_succ, Z.pow_succ_r by lia. ring.
Qed.

Lemma shiftl_0 (p : positive) : Pos.shiftl p 0 = p.
Proof. reflexivity. Qed.

Lemma shiftl_shiftl (p : positive) (a b : N) :
  Pos.shiftl (Pos.shiftl p a) b = Pos.shiftl p (a + b).
Proof.
  apply Pos2Z.inj. rewrite !shiftl_Z, N2Z.inj_add, Z.pow_add_r by lia. ring.
Qed.

Lemma size_gt_Z (n : positive) : Zpos n < 2 ^ Zpos (Pos.size n).
Proof.
  pose proof (Pos.size_gt n) as H.
  apply Pos2Z.pos_lt_pos in H. rewrite Pos2Z.inj_pow in H. exact H.
Qed.

Lemma size_le_Z (n : positive) : 2 ^ Zpos (Pos.size n) <= 2 * Zpos n.
Proof.
  pose proof (Pos.size_le n) as H.
  apply Pos2Z.pos_le_pos in H. rewrite Pos2Z.inj_pow in H. exact H.
Qed.

Lemma size_bound (n : positive) : Zpos n < 2 ^ 53 <-> Zpos (Pos.size n) <= 53.
Proof.
  split; intros H.
  - destruct (Z_le_gt_dec (Zpos (Pos.size n)) 53) as [Hle | Hgt]; [exact Hle |].
    exfalso. pose proof (size_le_Z n) as H2.
    assert (H3 : 2 ^ 54 <= 2 ^ Zpos (Pos.size n))
      by (apply Z.pow_le_mono_r; lia).
    change (2 ^ 54) with (2 * 2 ^ 53) in H3. lia.
  - pose proof (size_gt_Z n) as H2.
    assert (H3 : 2 ^ Zpos (Pos.size n) <= 2 ^ 53)
      by (apply Z.pow_le_mono_r; lia).
    lia.
Qed.

(** Rounding [v * 2 ^ i * 2 ^ e] when [v] has at most 53 bits. *)
Lemma binary_round_exact (s : bool) (v : positive) (i : N) (e : Z) :
  Zpos (Pos.size v) <= 53 ->
  -1074 <= e + Z.of_N i - (53 - Zpos (Pos.size v)) <= 971 ->
  binary_round prec emax s (Pos.shiftl v i) e
  = S754_finite s (Pos.shiftl v (Z.to_N (53 - Zpos (Pos.size v))))
                (e + Z.of_N i - (53 - Zpos (Pos.size v))).
Proof.
  intros Hk He. unfold binary_round, shl_align.
  rewrite digits2_size, size_shiftl.
  unfold fexp, SpecFloat.emin, prec, emax.
  set (k := Zpos (Pos.size v)) in *.
  replace (Z.max (k + Z.of_N i + e - 53) (3 - 1024 - 53) - e)
    with (k + Z.of_N i - 53) by lia.
  set (N := Pos.shiftl v (Z.to_N (53 - k))).
  assert (HN : Zpos (Pos.size N) = 53).
  { unfold N. rewrite size_shiftl. fold k. lia. }
  destruct (k + Z.of_N i - 53) as [| d | d] eqn:Ed; cbv beta iota zeta.
  - (* the mantissa is canonical already *)
    replace (Pos.shiftl v i) with (Pos.shiftl N 0).
    2: { unfold N. rewrite shiftl_0. f_equal. lia. }
    rewrite (round_exact_53 s N 0 e HN) by (change (Z.of_N 0) with 0; lia).
    f_equal. change (Z.of_N 0) with 0. lia.
  - (* more than 53 bits: the low ones are zeros *)
    replace (Pos.shiftl v i) with (Pos.shiftl N (N.pos d)).
    2: { unfold N. rewrite shiftl_shiftl. f_equal. lia. }
    rewrite (round_exact_53 s N (N.pos d) e HN)
      by (change (Z.of_N (N.pos d)) with (Zpos d); lia).
    f_equal. change (Z.of_N (N.pos d)) with (Zpos d). lia.
  - (* fewer than 53 bits: shifted up *)
    replace (Pos.iter xO (Pos.shiftl v i) d) with (Pos.shiftl N 0).
    2: { change (Pos.iter xO (Pos.shiftl v i) d)
           with (Pos.shiftl (Pos.shiftl v i) (N.pos d)).
         unfold N. rewrite !shiftl_shiftl. f_equal. lia. }
    replace (Z.max (k + Z.of_N i + e - 53) (3 - 1024 - 53))
      with (e + Z.of_N i - (53 - k)) by lia.
    rewrite (round_exact_53 s N 0 _ HN) by (change (Z.of_N 0) with 0; lia).
    f_equal. change (Z.of_N 0) with 0. lia.
Qed.

Lemma normalize_canon (n : positive) :
  Zpos n < 2 ^ 53 ->
  binary_normalize prec emax (Zpos n) 0 false = canon n.
Proof.
  intros H. apply size_bound in H. unfold binary_normalize.
  rewrite <- (shiftl_0 n) at 1.
  rewrite (binary_round_exact false n 0 0 H) by (change (Z.of_N 0) with 0; lia).
  unfold canon. f_equal. change (Z.of_N 0) with 0. lia.
Qed.

Lemma canon_valid (n : positive) :
  Zpos n < 2 ^ 53 -> valid_binary (canon n) = true.
Proof.
  intros H. apply size_bound in H. unfold canon, SpecFloat.valid_binary, bounded,
    canonical_mantissa.
  rewrite digits2_size, size_shiftl.
  unfold fexp, SpecFloat.emin, prec, emax.
  apply andb_true_iff. split; [apply Z.eqb_eq | apply Z.leb_le]; lia.
Qed.

Lemma size_mul (a b : positive) :
  Zpos (Pos.size a) + Zpos (Pos.size b) - 1 <= Zpos (Pos.size (a * b)).
Proof.
  pose proof (size_le_Z a) as Ha'. pose proof (size_le_Z b) as Hb'.
  pose proof (size_gt_Z (a * b)) as Hab'. rewrite Pos2Z.inj_mul in Hab'.
  set (ka := Zpos (Pos.size a)) in *. set (kb := Zpos (Pos.size b)) in *.
  set (K := Zpos (Pos.size (a * b))) in *.
  destruct (Z_le_gt_dec (ka + kb - 1) K) as [Hle | Hgt]; [exact Hle |].
  exfalso.
  assert (H1 : 2 ^ ka = 2 * 2 ^ (ka - 1))
    by (rewrite <- Z.pow_succ_r by lia; f_equal; lia).
  assert (H2 : 2 ^ kb = 2 * 2 ^ (kb - 1))
    by (rewrite <- Z.pow_succ_r by lia; f_equal; lia).
  assert (H3 : 2 ^ (ka - 1) <= Zpos a) by lia.
  assert (H4 : 2 ^ (kb - 1) <= Zpos b) by lia.
  assert (H5 : 2 ^ (ka - 1) * 2 ^ (kb - 1) <= Zpos a * Zpos b)
    by (apply Z.mul_le_mono_nonneg; lia).
  rewrite <- Z.pow_add_r in H5 by lia.
  assert (H6 : 2 ^ K <= 2 ^ (ka - 1 + (kb - 1)))
    by (apply Z.pow_le_mono_r; lia).
  lia.
Qed.

Lemma mul_canon (a b : positive) :
  Zpos (a * b) < 2 ^ 53 ->
  SF64mul (canon a) (canon b) = canon (a * b).
Proof.
  intros H. pose proof (size_mul a b) as Hs.
  apply size_bound in H.
  assert (Ha : Zpos (Pos.size a) <= 53) by lia.
  assert (Hb : Zpos (Pos.size b) <= 53) by lia.
  unfold SF64mul, SFmul, canon. cbn [xorb].
  set (ka := Zpos (Pos.size a)) in *. set (kb := Zpos (Pos.size b)) in *.
  set (K := Zpos (Pos.size (a * b))) in *.
  set (N := Pos.shiftl (a * b) (Z.to_N (53 - K))).
  assert (HN : Zpos (Pos.size N) = 53).
  { unfold N. rewrite size_shiftl. fold K. lia. }
  replace (Pos.shiftl a (Z.to_N (53 - ka)) * Pos.shiftl b (Z.to_N (53 - kb)))%positive
    with (Pos.shiftl N (Z.to_N (53 + K - ka - kb))).
  2: { apply Pos2Z.inj. unfold N. rewrite Pos2Z.inj_mul, !shiftl_Z, Pos2Z.inj_mul.
       rewrite !Z2N.id by lia.
       transitivity (Zpos a * Zpos b * 2 ^ (106 - ka - kb)).
       - rewrite <- Z.mul_assoc, <- Z.pow_add_r by lia. f_equal. f_equal. lia.
       - replace (106 - ka - kb) with ((53 - ka) + (53 - kb)) by lia.
         rewrite Z.pow_add_r by lia. ring. }
  rewrite (round_exact false N _ _ HN) by (rewrite Z2N.id by lia; lia).
  f_equal. rewrite Z2N.id by lia. lia.
Qed.

Lemma add_canon (a b : positive) :
  Zpos (a + b) < 2 ^ 53 ->
  SF64add (canon a) (canon b) = canon (a + b).
Proof.
  intros H.
  assert (Ha : Zpos a < 2 ^ 53) by lia. assert (Hb : Zpos b < 2 ^ 53) by lia.
  apply size_bound in H, Ha, Hb.
  unfold SF64add, SFadd, canon.
  set (ka := Zpos (Pos.size a)) in *. set (kb := Zpos (Pos.size b)) in *.
  set (K := Zpos (Pos.size (a + b))) in *.
  set (ez := Z.min (ka - 53) (kb - 53)).
  assert (Hal : forall (v : positive) (k : Z), k = Zpos (Pos.size v) -> k <= 53 ->
            ez <= k - 53 ->
            fst (shl_align (Pos.shiftl v (Z.to_N (53 - k))) (k - 53) ez)
            = Pos.shiftl v (Z.to_N (- ez))).
  { intros v k Hk Hk53 Hez. unfold shl_align.
    destruct (ez - (k - 53)) as [| d | d] eqn:Ed; cbn [fst].
    - f_equal. lia.
    - lia.
    - change (Pos.iter xO (Pos.shiftl v (Z.to_N (53 - k))) d)
        with (Pos.shiftl (Pos.shiftl v (Z.to_N (53 - k))) (N.pos d)).
      rewrite shiftl_shiftl. f_equal. lia. }
  cbv zeta. fold ez.
  rewrite (Hal a ka eq_refl Ha) by (unfold ez; lia).
  rewrite (Hal b kb eq_refl Hb) by (unfold ez; lia).
  cbn [cond_Zopp].
  replace (Zpos (Pos.shiftl a (Z.to_N (- ez))) + Zpos (Pos.shiftl b (Z.to_N (- ez))))
    with (Zpos (Pos.shiftl (a + b) (Z.to_N (- ez)))).
  2: { rewrite !shiftl_Z, Pos2Z.inj_add. ring. }
  unfold binary_normalize.
  assert (HK : ka <= K /\ kb <= K).
  { pose proof (size_le_Z a) as Ha'. pose proof (size_le_Z b) as Hb'.
    pose proof (size_gt_Z (a + b)) as Hab'. rewrite Pos2Z.inj_add in Hab'.
    fold ka in Ha'. fold kb in Hb'. fold K in Hab'.
    split.
    - destruct (Z_le_gt_dec ka K) as [Hle | Hgt]; [exact Hle |]. exfalso.
      assert (2 * 2 ^ K <= 2 ^ ka).
      { rewrite <- Z.pow_succ_r by (unfold K; lia). apply Z.pow_le_mono_r; lia. }
      lia.
    - destruct (Z_le_gt_dec kb K) as [Hle | Hgt]; [exact Hle |]. exfalso.
      assert (2 * 2 ^ K <= 2 ^ kb).
      { rewrite <- Z.pow_succ_r by (unfold K; lia). apply Z.pow_le_mono_r; lia. }
      lia. }
  rewrite (binary_round_exact false (a + b) (Z.to_N (- ez)) ez H)
    by (rewrite Z2N.id by (unfold ez; lia); fold K; unfold ez; lia).
  f_equal. rewrite Z2N.id by (unfold ez; lia). fold K. lia.
Qed.

Lemma Prim2SF_of_int (n : positive) :
  Zpos n < 2 ^ 53 -> Prim2SF (of_int (Zpos n)) = canon n.
Proof.
  intros H. unfold of_int, of_scaled. rewrite (normalize_canon n H).
  apply Prim2SF_SF2Prim. apply canon_valid. exact H.
Qed.

Lemma of_int_mul (a b : positive) :
  Zpos (a * b) < 2 ^ 53 ->
  (of_int (Zpos a) * of_int (Zpos b))%float = of_int (Zpos (a * b)).
Proof.
  intros H. apply Prim2SF_inj. rewrite FloatAxioms.mul_spec.
  rewrite !Prim2SF_of_int by nia. apply mul_canon. exact H.
Qed.

Lemma of_int_add (a b : positive) :
  Zpos (a + b) < 2 ^ 53 ->
  (of_int (Zpos a) + of_int (Zpos b))%float = of_int (Zpos (a + b)).
Proof.
  intros H. apply Prim2SF_inj. rewrite FloatAxioms.add_spec.
  rewrite !Prim2SF_of_int by lia. apply add_canon. exact H.
Qed.

Lemma is_zero_of_int (n : Z) :
  0 <= n < 2 ^ 53 -> is_zero (of_int n) = (n =? 0).
Proof.
  intros H. destruct n as [| p | p]; [reflexivity | | lia].
  unfold is_zero. rewrite FloatAxioms.eqb_spec, Prim2SF_of_int by lia. reflexivity.
Qed.

(** Appending a decimal digit to a whole amount is exact below 2^53. *)
Lemma of_int_append (n d : Z) :
  0 <= n -> 0 <= d <= 9 -> n * 10 + d < 2 ^ 53 ->
  (of_int n * 10 + of_int d)%float = of_int (n * 10 + d).
Proof.
  intros Hn Hd Hb.
  assert (C : d = 0 \/ d = 1 \/ d = 2 \/ d = 3 \/ d = 4 \/ d = 5 \/ d = 6
              \/ d = 7 \/ d = 8 \/ d = 9) by lia.
  destruct n as [| p | p]; [| | lia].
  - repeat (destruct C as [-> | C]; [reflexivity |]). subst d. reflexivity.
  - change 10%float with (of_int 10).
    rewrite (of_int_mul p 10) by lia.
    destruct d as [| q | q]; [| | lia].
    + rewrite Z.add_0_r. change (Z.pos p * 10) with (Zpos (p * 10)).
      apply Prim2SF_inj. rewrite FloatAxioms.add_spec, Prim2SF_of_int by lia. reflexivity.
    + rewrite (of_int_add (p * 10) q) by lia. reflexivity.
Qed.

(** The rational value of the double of an integer below [2^53] is the integer. *)
Lemma value_of_int (n : Z) :
  0 <= n < 2 ^ 53 -> (value (of_int n) == inject_Z n)%Q.
Proof.
  intros H. destruct n as [| p | p]; [reflexivity | | lia].
  unfold value. rewrite Prim2SF_of_int by lia. unfold canon.
  destruct H as [_ H]. apply size_bound in H.
  set (k := Zpos (Pos.size p)) in *.
  rewrite shiftl_Z, Z2N.id by lia.
  rewrite inject_Z_mult, (Zpower_Qpower 2 (53 - k)) by lia.
  rewrite <- Qmult_assoc, <- Qpower_plus by discriminate.
  replace (53 - k + (k - 53)) with 0 by lia. simpl. ring.
Qed.

Lemma align_canon (v : positive) (ez : Z) :
  Zpos (Pos.size v) <= 53 -> ez <= Zpos (Pos.size v) - 53 ->
  fst (shl_align (Pos.shiftl v (Z.to_N (53 - Zpos (Pos.size v))))
                 (Zpos (Pos.size v) - 53) ez)
  = Pos.shiftl v (Z.to_N (- ez)).
Proof.
  intros Hk Hez. unfold shl_align. set (k := Zpos (Pos.size v)) in *.
  destruct (ez - (k - 53)) as [| d | d] eqn:Ed; cbn [fst].
  - f_equal. lia.
  - lia.
  - change (Pos.iter xO (Pos.shiftl v (Z.to_N (53 - k))) d)
      with (Pos.shiftl (Pos.shiftl v (Z.to_N (53 - k))) (N.pos d)).
    rewrite shiftl_shiftl. f_equal. lia.
Qed.

Lemma size_mono (a b : positive) :
  Zpos a <= Zpos b -> Zpos (Pos.size a) <= Zpos (Pos.size b).
Proof.
  intros H. pose proof (size_le_Z a) as Ha. pose proof (size_gt_Z b) as Hb.
  destruct (Z_le_gt_dec (Zpos (Pos.size a)) (Zpos (Pos.size b))) as [Hle | Hgt];
    [exact Hle |].
  exfalso.
  assert (2 * 2 ^ Zpos (Pos.size b) <= 2 ^ Zpos (Pos.size a)).
  { rewrite <- Z.pow_succ_r by lia. apply Z.pow_le_mono_r; lia. }
  lia.
Qed.

Lemma sub_canon (a b : positive) :
  Zpos b < Zpos a -> Zpos a < 2 ^ 53 ->
  SF64sub (canon a) (canon b) = canon (a - b).
Proof.
  intros Hlt Ha.
  assert (Hb : Zpos b < 2 ^ 53) by lia.
  assert (Hd : Zpos (a - b) < 2 ^ 53) by lia.
  pose proof (size_mono (a - b) a ltac:(lia)) as Hm1.
  pose proof (size_mono b a ltac:(lia)) as Hm2.
  apply size_bound in Ha, Hb, Hd.
  unfold SF64sub, SFsub, canon. cbv zeta.
  set (ka := Zpos (Pos.size a)) in *. set (kb := Zpos (Pos.size b)) in *.
  set (K := Zpos (Pos.size (a - b))) in *.
  set (ez := Z.min (ka - 53) (kb - 53)).
  unfold ka at 1 2. rewrite (align_canon a ez) by (fold ka; unfold ez; lia).
  unfold kb at 1 2. rewrite (align_canon b ez) by (fold kb; unfold ez; lia).
  cbn [cond_Zopp].
  replace (Zpos (Pos.shiftl a (Z.to_N (- ez))) - Zpos (Pos.shiftl b (Z.to_N (- ez))))
    with (Zpos (Pos.shiftl (a - b) (Z.to_N (- ez)))).
  2: { rewrite !shiftl_Z, Pos2Z.inj_sub by lia. ring. }
  unfold binary_normalize.
  rewrite (binary_round_exact false (a - b) (Z.to_N (- ez)) ez Hd)
    by (rewrite Z2N.id by (unfold ez; lia); fold K; unfold ez; lia).
  f_equal. rewrite Z2N.id by (unfold ez; lia). fold K. lia.
Qed.

Lemma of_int_sub (a b : Z) :
  0 <= b <= a -> a < 2 ^ 53 -> (of_int a - of_int b)%float = of_int (a - b).
Proof.
  intros Hab Ha. apply Prim2SF_inj. rewrite FloatAxioms.sub_spec.
  destruct b as [| q | q]; [| | lia].
  - rewrite Z.sub_0_r. destruct a as [| p | p]; [reflexivity | | lia].
    rewrite Prim2SF_of_int by lia. reflexivity.
  - destruct a as [| p | p]; [lia | | lia].
    rewrite !Prim2SF_of_int by lia.
    destruct (Z.eq_dec (Zpos p) (Zpos q)) as [E | Hne].
    + injection E as ->. rewrite Z.sub_diag.
      unfold SF64sub, SFsub, canon. cbv zeta. cbn [cond_Zopp].
      rewrite Z.sub_diag. reflexivity.
    + rewrite sub_canon by lia.
      replace (Zpos p - Zpos q) with (Zpos (p - q)) by (rewrite Pos2Z.inj_sub; lia).
      rewrite Prim2SF_of_int by lia. reflexivity.
Qed.

Lemma of_int_plus (a b : Z) :
  0 <= a -> 0 <= b -> a + b < 2 ^ 53 ->
  (of_int a + of_int b)%float = of_int (a + b).
Proof.
  intros Ha Hb Hs.
  destruct a as [| p | p]; [| | lia]; destruct b as [| q | q]; try lia.
  - reflexivity.
  - change (0 + Zpos q) with (Zpos q).
    apply Prim2SF_inj. rewrite FloatAxioms.add_spec, Prim2SF_of_int by lia.
    reflexivity.
  - rewrite Z.add_0_r.
    apply Prim2SF_inj. rewrite FloatAxioms.add_spec, Prim2SF_of_int by lia.
    reflexivity.
  - apply (of_int_add p q). exact Hs.
Qed.

(** *** [numPlaces] *)

Lemma numPlaces_loop_grows (fuel : nat) (i places : Z) :
  places <= numPlaces_loop fuel i places.
Proof.
  revert i places. induction fuel as [| fuel IH]; intros i places; simpl; [lia |].
  destruct (10 <=? i); [| lia].
  specialize (IH (Z.quot i 10) (places + 1)). lia.
Qed.

(** The loop counts the decimal digits beyond the first. *)
Lemma numPlaces_loop_digits (fuel : nat) :
  forall (i places : Z) (k : nat),
  0 <= i -> (1 <= k <= fuel)%nat ->
  (places + Z.of_nat k <= numPlaces_loop fuel i places <-> 10 ^ Z.of_nat k <= i).
Proof.
  induction fuel as [| fuel IH]; intros i places k Hi Hk; [lia |].
  simpl. destruct (10 <=? i) eqn:E.
  - apply Z.leb_le in E. rewrite Z.quot_div_nonneg by lia.
    destruct (Nat.eq_dec k 1%nat) as [-> | Hk1].
    + pose proof (numPlaces_loop_grows fuel (i / 10) (places + 1)).
      change (10 ^ Z.of_nat 1) with 10. lia.
    + replace (places + Z.of_nat k) with (places + 1 + Z.of_nat (k - 1)) by lia.
      rewrite (IH (i / 10) (places + 1) (k - 1)%nat)
        by (try apply Z.div_pos; lia).
      replace (Z.of_nat k) with (Z.succ (Z.of_nat (k - 1))) by lia.
      rewrite Z.pow_succ_r by lia.
      split; intros H.
      * pose proof (Z.mul_div_le i 10). nia.
      * apply Z.div_le_lower_bound; lia.
  - apply Z.leb_gt in E.
    assert (10 <= 10 ^ Z.of_nat k).
    { change 10 with (10 ^ 1) at 1. apply Z.pow_le_mono_r; lia. }
    lia.
Qed.

(** Twenty iterations are enough for every value of a [long long]. *)
Lemma numPlaces_loop_fuel (fuel extra : nat) :
  forall i places : Z,
  0 <= i < 10 ^ Z.of_nat fuel ->
  numPlaces_loop (fuel + extra) i places = numPlaces_loop fuel i places.
Proof.
  induction fuel as [| fuel IH]; intros i places Hi.
  - change (10 ^ Z.of_nat 0) with 1 in Hi. assert (i = 0) by lia. subst i.
    destruct extra; reflexivity.
  - simpl. destruct (10 <=? i) eqn:E; [| reflexivity].
    apply Z.leb_le in E. apply IH. rewrite Z.quot_div_nonneg by lia.
    split; [apply Z.div_pos; lia |].
    apply Z.div_lt_upper_bound; [lia |].
    rewrite Nat2Z.inj_succ, Z.pow_succ_r in Hi by lia. lia.
Qed.

(** [numPlaces(i) >= 12]: eleven digits and a sign, or twelve digits. *)
Lemma numPlaces_twelve (i : Z) :
  LLONG_MIN < i < 2 ^ 63 ->
  (12 <=? numPlaces i) = (10 ^ 11 <=? i) || (i <=? - 10 ^ 10).
Proof.
  intros Hi. unfold LLONG_MIN in Hi. unfold numPlaces.
  destruct (i <? 0) eqn:E.
  - apply Z.ltb_lt in E.
    replace (s64 (i * -1)) with (- i).
    2: { unfold s64. rewrite Z.mod_small by lia. lia. }
    pose proof (numPlaces_loop_digits 20 (- i) 2 10) as H.
    change (Z.of_nat 10) with 10 in H.
    replace (10 ^ 11 <=? i) with false by (symmetry; apply Z.leb_gt; lia).
    simpl orb.
    destruct (12 <=? numPlaces_loop 20 (- i) 2) eqn:E1;
      destruct (i <=? - 10 ^ 10) eqn:E2; try reflexivity; exfalso.
    + apply Z.leb_le in E1. apply Z.leb_gt in E2. lia.
    + apply Z.leb_gt in E1. apply Z.leb_le in E2. lia.
  - apply Z.ltb_ge in E.
    pose proof (numPlaces_loop_digits 20 i 1 11) as H.
    change (Z.of_nat 11) with 11 in H.
    replace (i <=? - 10 ^ 10) with false by (symmetry; apply Z.leb_gt; lia).
    rewrite orb_false_r.
    destruct (12 <=? numPlaces_loop 20 i 1) eqn:E1;
      destruct (10 ^ 11 <=? i) eqn:E2; try reflexivity; exfalso.
    + apply Z.leb_le in E1. apply Z.leb_gt in E2. lia.
    + apply Z.leb_gt in E1. apply Z.leb_le in E2. lia.
Qed.

(** One hundred thousand million takes twelve places. *)
Lemma numPlaces_twelve_witness :
  (12 <=? numPlaces 100000000000)
  = (10 ^ 11 <=? 100000000000) || (100000000000 <=? - 10 ^ 10).
Proof. apply (numPlaces_twelve 100000000000). unfold LLONG_MIN. lia. Defined.

End DoubleFacts.

Module ViewportFacts.
Import Machine MachineFacts Curses Viewport.

(** The window has at least one row and at most [MAX_ROW], unless the
    terminal has exactly [UI_ROWS] rows. *)
Lemma numRows_bounds (h : Z) :
  0 <= h < 2 ^ 32 -> h <> 6 -> 1 <= numRows h <= 40.
Proof.
  intros Hh H6. unfold numRows, MAX_ROW, UI_ROWS.
  destruct (Z_lt_le_dec h 6) as [Hs | Hb].
  - rewrite u32_borrow by lia. destruct (40 <? h - 6 + 2 ^ 32) eqn:E; lia.
  - rewrite u32_small by lia. destruct (40 <? h - 6) eqn:E; lia.
Qed.

(** Line 145 tests for the last row of the window. *)
Lemma last_row_test (h c : Z) :
  0 <= h < 2 ^ 32 -> h <> 6 -> 0 <= c < numRows h ->
  ((c =? MAX_ROW - 1) || (c =? u32 (h - 7))) = (c =? numRows h - 1).
Proof.
  intros Hh H6. unfold numRows, MAX_ROW, UI_ROWS.
  destruct (Z_lt_le_dec h 6) as [Hs | Hb].
  - rewrite !u32_borrow by lia.
    destruct (40 <? h - 6 + 2 ^ 32) eqn:E; [| lia].
    intros Hc. destruct (c =? 40 - 1) eqn:E1; simpl; [reflexivity |].
    apply Z.eqb_neq. lia.
  - rewrite u32_small by lia.
    destruct (Z.eq_dec h 6) as [-> | Hn]; [lia |].
    rewrite (u32_small (h - 7)) by lia.
    destruct (40 <? h - 6) eqn:E; intros Hc.
    + destruct (c =? 40 - 1) eqn:E1; simpl; [reflexivity |].
      apply Z.eqb_neq. lia.
    + destruct (c =? 40 - 1) eqn:E1; simpl.
      * symmetry. apply Z.eqb_eq. lia.
      * destruct (c =? h - 7) eqn:E2; symmetry;
          [apply Z.eqb_eq | apply Z.eqb_neq]; lia.
Qed.

Section FixedTerminal.
Variables size h : Z.
Hypothesis Hsize : 1 <= size < 2 ^ 32.
Hypothesis Hh : 0 <= h < 2 ^ 32.
Hypothesis H6 : h <> 6.

Lemma layout_in_window (v : view) :
  in_window size (numRows h) v -> layout size h v = v.
Proof.
  pose proof (numRows_bounds h Hh H6) as HR.
  intros (Hc & Hw & Hi & Hf). unfold layout, fit_window, follow_cursor.
  destruct v as [c w]; simpl in *.
  destruct (size <? numRows h) eqn:E1.
  - apply Z.ltb_lt in E1. assert (w = 0) by lia. subst w.
    rewrite Z.add_0_r, u32_small by lia. simpl.
    destruct (numRows h <=? c) eqn:E2; [apply Z.leb_le in E2; lia | reflexivity].
  - apply Z.ltb_ge in E1. rewrite u64_small by lia.
    destruct (size - numRows h <? w) eqn:E2; [apply Z.ltb_lt in E2; lia |].
    simpl. destruct (numRows h <=? c) eqn:E3; [apply Z.leb_le in E3; lia | reflexivity].
Qed.

Lemma key_up_in_window (v : view) :
  in_window size (numRows h) v -> in_window size (numRows h) (key_up size h v).
Proof.
  pose proof (numRows_bounds h Hh H6) as HR.
  intros (Hc & Hw & Hi & Hf). unfold key_up, in_window.
  destruct v as [c w]; simpl in *.
  destruct (c =? 0) eqn:E0; simpl.
  - apply Z.eqb_eq in E0. subst c.
    destruct (size <=? numRows h) eqn:E1.
    + apply Z.leb_le in E1. simpl.
      rewrite (u64_small (size - 1)), u32_small by lia. lia.
    + apply Z.leb_gt in E1.
      destruct (w =? 0) eqn:E2; simpl.
      * rewrite (u32_small (numRows h - 1)) by lia.
        rewrite (u64_small (size - (numRows h - 1))) by lia.
        rewrite (u64_small (size - (numRows h - 1) - 1)) by lia.
        rewrite u32_small by lia. lia.
      * apply Z.eqb_neq in E2. rewrite u32_small by lia. lia.
  - apply Z.eqb_neq in E0. rewrite u32_small by lia. lia.
Qed.

Lemma key_down_cases (v : view) :
  in_window size (numRows h) v ->
  in_window size (numRows h) (key_down size h v)
  /\ selected (key_down size h v)
     = if cursorPos v + windowPos v =? size - 1 then 0
       else cursorPos v + windowPos v + 1.
Proof.
  pose proof (numRows_bounds h Hh H6) as HR.
  intros (Hc & Hw & Hi & Hf). unfold key_down, in_window, selected.
  rewrite (last_row_test h (cursorPos v)) by assumption.
  destruct v as [c w]; simpl in *.
  rewrite (u64_small (size - 1)), (u32_small (c + w)) by lia.
  destruct (size - 1 <=? c + w) eqn:E1.
  - apply Z.leb_le in E1. simpl.
    replace (c + w =? size - 1) with true by (symmetry; apply Z.eqb_eq; lia).
    rewrite u32_small by lia. lia.
  - apply Z.leb_gt in E1.
    replace (c + w =? size - 1) with false by (symmetry; apply Z.eqb_neq; lia).
    destruct (c =? numRows h - 1) eqn:E2; simpl.
    + apply Z.eqb_eq in E2. rewrite (u32_small (w + 1)) by lia.
      rewrite u32_small by lia. lia.
    + apply Z.eqb_neq in E2. rewrite (u32_small (c + 1)) by lia.
      rewrite u32_small by lia. lia.
Qed.

Lemma selected_in_window (v : view) :
  in_window size (numRows h) v ->
  selected v = cursorPos v + windowPos v /\ 0 <= selected v <= size - 1.
Proof.
  intros (Hc & Hw & Hi & Hf). unfold selected.
  rewrite u32_small by lia. lia.
Qed.

Lemma menu_iter_in_window (s : screen) (ev : event) :
  arrow ev -> rows s = h -> in_window size (numRows h) (pos s) ->
  rows (menu_iter size s ev) = h
  /\ in_window size (numRows h) (pos (menu_iter size s ev)).
Proof.
  intros Hev Hr Hin. unfold menu_iter. rewrite Hr.
  rewrite layout_in_window by assumption.
  destruct Hev as [-> | ->]; simpl; split; try reflexivity.
  - apply key_up_in_window; assumption.
  - apply key_down_cases; assumption.
Qed.

Lemma arrows_in_window (evs : list event) (s : screen) :
  Forall arrow evs -> rows s = h -> in_window size (numRows h) (pos s) ->
  rows (fold_left (menu_iter size) evs s) = h
  /\ in_window size (numRows h) (pos (fold_left (menu_iter size) evs s)).
Proof.
  intros Hevs. revert s.
  induction Hevs as [| ev evs Hev _ IH]; intros s Hr Hin; simpl.
  - split; assumption.
  - destruct (menu_iter_in_window s ev Hev Hr Hin) as [Hr' Hin'].
    apply IH; assumption.
Qed.

Lemma start_in_window : in_window size (numRows h) (View 0 0).
Proof.
  pose proof (numRows_bounds h Hh H6). unfold in_window; simpl. lia.
Qed.

(** [k] presses of the down arrow from the first record select record
    [k], as long as there is one. *)
Lemma downs_select (k : nat) :
  Z.of_nat k <= size - 1 ->
  let s := menu_run size h (repeat MoveDown k) in
  rows s = h /\ in_window size (numRows h) (pos s)
  /\ selected (pos s) = Z.of_nat k.
Proof.
  unfold menu_run. induction k as [| k IH]; intros Hk.
  - simpl. split; [reflexivity |]. split; [apply start_in_window |].
    reflexivity.
  - replace (repeat MoveDown (S k)) with (repeat MoveDown k ++ [MoveDown])
      by (symmetry; apply (repeat_cons k MoveDown)).
    rewrite fold_left_app. simpl.
    destruct IH as (Hr & Hin & Hsel); [lia |].
    set (s := fold_left (menu_iter size) (repeat MoveDown k)
                        (Screen h (View 0 0))) in *.
    unfold menu_iter. rewrite Hr, layout_in_window by assumption. simpl.
    destruct (key_down_cases (pos s) Hin) as [Hin' Hsel'].
    split; [reflexivity |]. split; [assumption |].
    rewrite Hsel'. destruct (selected_in_window (pos s) Hin) as [Heq _].
    rewrite <- Heq, Hsel.
    replace (Z.of_nat k =? size - 1) with false
      by (symmetry; apply Z.eqb_neq; lia).
    lia.
Qed.

End FixedTerminal.

(** The arrows on a terminal whose height is not six rows, where the
    window has at least one row.  On a store of [size] records,
    [1 <= size < 2^32]: after every sequence of up and down arrows the
    selected index [windowPos + cursorPos] is in [0 .. size - 1],
    between events as well as when Enter reads it; [k < size] down
    arrows from the start select record [k], and [size] of them select
    record [0] again. *)
Theorem arrows_stay_in_range (size h : Z) :
  1 <= size < 2 ^ 32 -> 0 <= h < 2 ^ 32 -> h <> 6 ->
  (forall evs, Forall arrow evs ->
     0 <= selected (pos (menu_run size h evs)) <= size - 1
     /\ 0 <= selected_on_enter size (menu_run size h evs) <= size - 1)
  /\ (forall k, 0 <= k < size ->
        selected (pos (menu_run size h (repeat MoveDown (Z.to_nat k)))) = k)
  /\ selected (pos (menu_run size h (repeat MoveDown (Z.to_nat size)))) = 0.
Proof.
  intros Hsize Hh H6. split; [| split].
  - intros evs Hevs.
    destruct (arrows_in_window size h Hsize Hh H6 evs (Screen h (View 0 0)) Hevs)
      as [Hr Hin]; [reflexivity | apply start_in_window; assumption |].
    fold (menu_run size h evs) in Hr, Hin.
    unfold selected_on_enter. rewrite Hr, layout_in_window by assumption.
    split; apply (selected_in_window size h); assumption.
  - intros k Hk.
    destruct (downs_select size h Hsize Hh H6 (Z.to_nat k)) as (_ & _ & Hsel);
      [lia |].
    rewrite Hsel. lia.
  - replace (Z.to_nat size) with (S (Z.to_nat (size - 1))) by lia.
    replace (repeat MoveDown (S (Z.to_nat (size - 1))))
      with (repeat MoveDown (Z.to_nat (size - 1)) ++ [MoveDown])
      by (symmetry; apply (repeat_cons (Z.to_nat (size - 1)) MoveDown)).
    destruct (downs_select size h Hsize Hh H6 (Z.to_nat (size - 1)))
      as (Hr & Hin & Hsel); [lia |].
    unfold menu_run in *. rewrite fold_left_app. simpl.
    set (s := fold_left (menu_iter size) (repeat MoveDown (Z.to_nat (size - 1)))
                        (Screen h (View 0 0))) in *.
    unfold menu_iter. rewrite Hr, layout_in_window by assumption. simpl.
    destruct (key_down_cases size h Hsize Hh H6 (pos s) Hin) as [_ Hsel'].
    rewrite Hsel'.
    destruct (selected_in_window size h Hsize (pos s) Hin) as [Heq _].
    rewrite <- Heq, Hsel.
    replace (Z.of_nat (Z.to_nat (size - 1)) =? size - 1) with true
      by (symmetry; apply Z.eqb_eq; lia).
    reflexivity.
Qed.

(** Three records on a terminal of twenty rows. *)
Lemma arrows_stay_in_range_witness :
  (forall evs, Forall arrow evs ->
     0 <= selected (pos (menu_run 3 20 evs)) <= 3 - 1
     /\ 0 <= selected_on_enter 3 (menu_run 3 20 evs) <= 3 - 1)
  /\ (forall k, 0 <= k < 3 ->
        selected (pos (menu_run 3 20 (repeat MoveDown (Z.to_nat k)))) = k)
  /\ selected (pos (menu_run 3 20 (repeat MoveDown (Z.to_nat 3)))) = 0.
Proof. apply (arrows_stay_in_range 3 20); lia. Defined.

(** C8, the failing runs.  On a terminal of exactly six rows line 104
    computes a window of no row, [numRows = 0], and line 115 moves the
    window down at every iteration without moving the cursor back, the
    slip of C4.  With three records the down arrow then the up arrow
    leave [windowPos + cursorPos = 3], past the last index [2], and
    Enter hands index [4] to [displayAccount]; with five records five
    down arrows end on record [2], not on record [0]. *)
Theorem arrows_leave_the_store_on_six_rows :
  numRows 6 = 0
  /\ pos (menu_run 3 6 [MoveDown; MoveUp]) = View 0 3
  /\ selected (pos (menu_run 3 6 [MoveDown; MoveUp])) = 3
  /\ selected_on_enter 3 (menu_run 3 6 [MoveDown; MoveUp]) = 4
  /\ selected (pos (menu_run 5 6 (repeat MoveDown 5))) = 2.
Proof. repeat split. Qed.

(** C4, the failing run.  Ten records on a terminal of sixteen rows: the
    up arrow wraps the cursor to the last record ([cursorPos = 9]); the
    terminal is then resized to eleven rows, a window of five.  Line 115
    moves the window down by five and leaves the cursor at [9]: Enter
    hands index [14] to [displayAccount], and so does every later
    iteration of the loop, in a store whose last index is [9]. *)
Theorem resize_selects_past_the_end :
  selected (pos (menu_run 10 16 [MoveUp])) = 9
  /\ selected_on_enter 10 (menu_run 10 16 [MoveUp; Resized 11]) = 14
  /\ pos (menu_run 10 16 [MoveUp; Resized 11; KeyPress KEY_RESIZE]) = View 9 5.
Proof. repeat split. Qed.

End ViewportFacts.

Module CursesFacts.
Import Curses.

Section Invariant.
Context {S R : Type}.
Variables (head : S -> S) (on_key : Z -> S -> step S R)
          (on_escape : S -> step S R).
Variables (Inv : S -> Prop) (Post : R -> Prop).

Hypothesis head_ok : forall s, Inv s -> Inv (head s).
Hypothesis key_ok : forall ch s, Inv s -> step_ok Inv Post (on_key ch s).
Hypothesis escape_ok : forall s, Inv s -> step_ok Inv Post (on_escape s).

Lemma menu_loop_bounded (n : nat) :
  forall input s, (List.length input <= n)%nat -> Inv s ->
  run_ok Inv Post (menu_loop head on_key on_escape input s).
Proof.
  induction n as [| n IH]; intros input s Hlen Hs.
  - destruct input; [| simpl in Hlen; lia]. simpl. auto.
  - destruct input as [| ch rest]; simpl; [auto |].
    simpl in Hlen.
    destruct (ch =? 27).
    + destruct rest as [| peek rest1]; simpl; [auto |].
      simpl in Hlen.
      destruct (peek =? -1).
      * specialize (escape_ok (head s) (head_ok s Hs)).
        destruct (on_escape (head s)); simpl in *; auto.
        -- apply IH; [lia | assumption].
        -- destruct rest1; simpl; auto.
      * destruct rest1 as [| a [| b [| c rest2]]]; simpl; auto.
        apply IH; [simpl in Hlen; lia | auto].
    + specialize (key_ok ch (head s) (head_ok s Hs)).
      destruct (on_key ch (head s)); simpl in *; auto.
      * apply IH; [lia | assumption].
      * destruct rest; simpl; auto.
Qed.

Lemma menu_loop_invariant (input : list Z) (s : S) :
  Inv s -> run_ok Inv Post (menu_loop head on_key on_escape input s).
Proof. apply (menu_loop_bounded (List.length input)). lia. Qed.
End Invariant.

(** A run over keys that the [switch] answers by going on, none of them
    an escape, is the fold of the body over the keys. *)
Lemma menu_loop_plain {S R : Type} (on_key : Z -> S -> step S R)
    (on_escape : S -> step S R) (next : S -> Z -> S) (input : list Z) :
  Forall (fun ch => ch <> 27 /\ forall s, on_key ch s = Continue (next s ch))
         input ->
  forall s, menu_loop id on_key on_escape input s
            = Waiting (fold_left next input s).
Proof.
  induction 1 as [| ch rest [Hne Hk] _ IH]; intros s; simpl.
  - reflexivity.
  - destruct (ch =? 27) eqn:E; [apply Z.eqb_eq in E; contradiction |].
    unfold id at 1. rewrite Hk. apply IH.
Qed.

End CursesFacts.

Module BankFacts.
Import Bank.

Lemma compare_refl (a : string) : String.compare a a = Eq.
Proof.
  induction a as [| c a IH]; simpl; [reflexivity |].
  unfold Ascii.compare. rewrite N.compare_refl. exact IH.
Qed.

(** [strcmp] answers zero on equal strings and on them only. *)
Lemma strcmp_zero (a b : string) : strcmp a b = 0 <-> a = b.
Proof.
  unfold strcmp. split.
  - destruct (String.compare a b) eqn:E; try discriminate.
    intros _. apply String.compare_eq_iff. exact E.
  - intros ->. rewrite compare_refl. reflexivity.
Qed.

Lemma strcmp_eqb (a b : string) : (strcmp a b =? 0) = true <-> a = b.
Proof. rewrite Z.eqb_eq. apply strcmp_zero. Qed.

(** [strcmp(a, b) < 0] excludes [strcmp(b, a) < 0]. *)
Lemma strcmp_flip (a b : string) : strcmp b a = - strcmp a b.
Proof.
  unfold strcmp. rewrite (String.compare_antisym a b).
  destruct (String.compare b a); reflexivity.
Qed.

Lemma strlen_append (a b : string) :
  strlen (a ++ b) = strlen a + strlen b.
Proof.
  unfold strlen. induction a as [| c a IH]; simpl String.length.
  - simpl. lia.
  - rewrite !Nat2Z.inj_succ. simpl in IH. lia.
Qed.

End BankFacts.

Module EntryFacts.
Import Machine Double DoubleFacts Curses CursesFacts Bank Entry.

Lemma unconfirm_false (e : entry) : confirm (unconfirm e) = false.
Proof. unfold unconfirm. destruct (confirm e) eqn:E; simpl; auto. Qed.

Lemma unconfirm_amount (e : entry) :
  newBalance (unconfirm e) = newBalance e /\ place (unconfirm e) = place e.
Proof. unfold unconfirm. destruct (confirm e); simpl; auto. Qed.

Lemma key_point_false (e : entry) : confirm (key_point e) = false.
Proof.
  unfold key_point. destruct (place (unconfirm e) =? 0); simpl;
    apply unconfirm_false.
Qed.

Lemma key_backspace_false (e : entry) : confirm (key_backspace e) = false.
Proof.
  unfold key_backspace. destruct (negb (place (unconfirm e) =? 0)); simpl;
    apply unconfirm_false.
Qed.

Lemma push_digit_confirm (ch : Z) (nb : float) (e : entry) :
  confirm (push_digit ch nb e) = confirm e.
Proof. reflexivity. Qed.

(** A digit leaves the state as it is or withdraws the confirmation. *)
Lemma deposit_digit_confirm (acc : Account) (ch : Z) (e : entry) :
  deposit_digit acc ch e = e \/ confirm (deposit_digit acc ch e) = false.
Proof.
  unfold deposit_digit.
  destruct ((ch =? 48) && is_zero (newBalance e)); [left; reflexivity |].
  right. repeat match goal with |- context [if ?b then _ else _] => destruct b end;
    rewrite ?push_digit_confirm; apply unconfirm_false.
Qed.

Lemma withdraw_digit_confirm (acc : Account) (ch : Z) (e : entry) :
  withdraw_digit acc ch e = e \/ confirm (withdraw_digit acc ch e) = false.
Proof.
  unfold withdraw_digit.
  destruct ((ch =? 48) && is_zero (newBalance e)); [left; reflexivity |].
  right. repeat match goal with |- context [if ?b then _ else _] => destruct b end;
    rewrite ?push_digit_confirm; apply unconfirm_false.
Qed.

Lemma transfer_digit_confirm (from to : Account) (ch : Z) (e : entry) :
  transfer_digit from to ch e = e \/ confirm (transfer_digit from to ch e) = false.
Proof.
  unfold transfer_digit.
  destruct ((ch =? 48) && is_zero (newBalance e)); [left; reflexivity |].
  right. repeat match goal with |- context [if ?b then _ else _] => destruct b end;
    rewrite ?push_digit_confirm; apply unconfirm_false.
Qed.

(** *** What a call returns *)

Section Returns.
Variables (people : store) (person : nat) (acc : Account).

Lemma withdraw_key_ok (ch : Z) (e : entry) :
  vetted acc e ->
  step_ok (vetted acc) (withdrawn people person acc)
          (withdraw_key people person acc ch e).
Proof.
  intros He. unfold withdraw_key.
  destruct (ch =? 3); [exact I |].
  destruct (is_digit ch).
  { simpl. destruct (withdraw_digit_confirm acc ch e) as [-> | Hc]; [exact He |].
    intros Ht. congruence. }
  destruct (ch =? 46).
  { simpl. intros Ht. rewrite key_point_false in Ht. discriminate. }
  destruct (ch =? KEY_BACKSPACE).
  { simpl. intros Ht. rewrite key_backspace_false in Ht. discriminate. }
  destruct (is_enter ch); [| exact He].
  unfold withdraw_enter. destruct (confirm e) eqn:Ec.
  - simpl. right. exists (newBalance e). split; [apply He; exact Ec | reflexivity].
  - destruct (covered (balance acc) (newBalance e)) eqn:Ecov; simpl.
    + intros _. exact Ecov.
    + exact He.
Qed.

Lemma key_escape_ok (Inv : entry -> Prop) (Post : store -> Prop) (e : entry) :
  (forall e', confirm e' = false -> Inv e') -> Post people ->
  step_ok Inv Post (key_escape people e).
Proof.
  intros Hinv Hpost. unfold key_escape. destruct (confirm e); simpl; auto.
Qed.

Lemma withdraw_returns (input : list Z) :
  run_ok (vetted acc) (withdrawn people person acc)
    (menu_loop id (withdraw_key people person acc) (key_escape people)
               input start).
Proof.
  apply menu_loop_invariant.
  - intros s Hs. exact Hs.
  - apply withdraw_key_ok.
  - intros s _. apply key_escape_ok.
    + intros e' He' Ht. congruence.
    + left. reflexivity.
  - intros Ht. discriminate.
Qed.

Lemma deposit_returns (input : list Z) :
  run_ok (fun _ => True) (deposited people person acc)
    (menu_loop id (deposit_key people person acc) (key_escape people)
               input start).
Proof.
  apply menu_loop_invariant; auto.
  - intros ch s _. unfold deposit_key.
    repeat match goal with |- context [if ?b then _ else _] => destruct b end;
      simpl; auto.
    unfold deposit_enter. destruct (confirm s); simpl; auto.
    right. eexists. reflexivity.
  - intros s _. apply key_escape_ok; auto. left. reflexivity.
Qed.
End Returns.

Section TransferReturns.
Variables (people : store) (from to : nat) (accf acct : Account).

Lemma transfer_returns (input : list Z) :
  run_ok (fun _ => True) (transferred people from to)
    (menu_loop id (transfer_key people from to accf acct) (key_escape people)
               input start).
Proof.
  apply menu_loop_invariant; auto.
  - intros ch s _. unfold transfer_key.
    repeat match goal with |- context [if ?b then _ else _] => destruct b end;
      simpl; auto.
    unfold transfer_enter. destruct (confirm s); simpl; auto.
    right. eexists. reflexivity.
  - intros s _. apply key_escape_ok; auto. left. reflexivity.
Qed.
End TransferReturns.


(** *** Typing digits into [deposit] *)

Lemma digit_key_cases (ch : Z) :
  is_digit ch = true -> exists d, 0 <= d <= 9 /\ ch = 48 + d.
Proof.
  unfold is_digit. intros H. apply andb_true_iff in H as [H1 H2].
  apply Z.leb_le in H1, H2. exists (ch - 48). lia.
Qed.

Lemma of_int_digit (d : Z) :
  0 <= d <= 9 -> (of_int d * pow10 0)%float = of_int d.
Proof.
  intros H.
  assert (C : d = 0 \/ d = 1 \/ d = 2 \/ d = 3 \/ d = 4 \/ d = 5 \/ d = 6
              \/ d = 7 \/ d = 8 \/ d = 9) by lia.
  repeat (destruct C as [-> | C]; [reflexivity |]). subst d. reflexivity.
Qed.

(** Keys that are digits or the point keep [deposit] in its loop. *)
Lemma deposit_typing (people : store) (person : nat) (acc : Account)
    (input : list Z) :
  people !! person = Some acc ->
  Forall (fun ch => is_digit ch = true \/ ch = 46) input ->
  deposit people person input
  = Waiting (fold_left (fun e ch => if is_digit ch then deposit_digit acc ch e
                                    else key_point e) input start).
Proof.
  intros Hacc Hin. unfold deposit. rewrite Hacc.
  apply menu_loop_plain.
  eapply Forall_impl; [exact Hin |]. intros ch Hch. simpl in Hch.
  assert (Hne : ch <> 27 /\ ch <> 3).
  { destruct Hch as [Hd | ->]; [| lia].
    destruct (digit_key_cases ch Hd) as (d & Hd' & ->). lia. }
  destruct Hne as [H27 H3]. split; [exact H27 |]. intros e.
  unfold deposit_key.
  destruct (ch =? 3) eqn:E3; [apply Z.eqb_eq in E3; contradiction |].
  destruct (is_digit ch) eqn:Ed; [reflexivity |].
  destruct Hch as [Hd | ->]; [discriminate | reflexivity].
Qed.

Lemma deposit_digit_typed (acc : Account) (d : Z) (amount : float) :
  0 <= d <= 9 ->
  deposit_digit acc (48 + d) (mkEntry amount 0 false)
  = mkEntry (typed_digit (balance acc) amount d) 0 false.
Proof.
  intros Hd. unfold deposit_digit, typed_digit, unconfirm, push_digit.
  cbn [newBalance place confirm].
  replace (48 + d =? 48) with (d =? 0)
    by (destruct (d =? 0) eqn:E; symmetry;
        [apply Z.eqb_eq; apply Z.eqb_eq in E | apply Z.eqb_neq; apply Z.eqb_neq in E];
        lia).
  destruct ((d =? 0) && is_zero amount); [reflexivity |].
  change (0 <? -2) with false. change (0 =? 0) with true. cbv iota.
  destruct (12 <=? numPlaces (to_ll (balance acc + amount))); [reflexivity |].
  replace (48 + d - 48) with d by lia.
  rewrite (of_int_digit d Hd). reflexivity.
Qed.

Lemma typed_int_digit_grows (bal : float) (n d : Z) :
  0 <= n -> 0 <= d <= 9 -> n <= typed_int_digit bal n d.
Proof.
  intros Hn Hd. unfold typed_int_digit.
  repeat match goal with |- context [if ?b then _ else _] => destruct b end; lia.
Qed.

Lemma typed_int_grows (bal : float) (ds : list Z) :
  Forall (fun d => 0 <= d <= 9) ds ->
  forall n, 0 <= n -> n <= fold_left (typed_int_digit bal) ds n.
Proof.
  induction 1 as [| d ds Hd _ IH]; intros n Hn; simpl; [lia |].
  pose proof (typed_int_digit_grows bal n d Hn Hd).
  specialize (IH (typed_int_digit bal n d)). lia.
Qed.

Lemma typed_digit_exact (bal : float) (n d : Z) :
  0 <= n -> 0 <= d <= 9 -> typed_int_digit bal n d < 2 ^ 53 ->
  typed_digit bal (of_int n) d = of_int (typed_int_digit bal n d).
Proof.
  intros Hn Hd Hb.
  assert (Hn' : n < 2 ^ 53)
    by (pose proof (typed_int_digit_grows bal n d Hn Hd); lia).
  unfold typed_digit, typed_int_digit in *.
  rewrite is_zero_of_int by lia.
  destruct ((d =? 0) && (n =? 0)); [reflexivity |].
  destruct (12 <=? numPlaces (to_ll (bal + of_int n))); [reflexivity |].
  apply of_int_append; assumption.
Qed.

Lemma typed_exact_from (bal : float) (ds : list Z) :
  Forall (fun d => 0 <= d <= 9) ds ->
  forall n, 0 <= n -> fold_left (typed_int_digit bal) ds n < 2 ^ 53 ->
  fold_left (typed_digit bal) ds (of_int n)
  = of_int (fold_left (typed_int_digit bal) ds n).
Proof.
  induction 1 as [| d ds Hd Hds IH]; intros n Hn Hb; simpl in *; [reflexivity |].
  pose proof (typed_int_digit_grows bal n d Hn Hd) as Hg.
  pose proof (typed_int_grows bal ds Hds (typed_int_digit bal n d)) as Hg'.
  rewrite typed_digit_exact by lia.
  apply IH; [lia | exact Hb].
Qed.

Lemma typed_exact (bal : float) (ds : list Z) :
  Forall (fun d => 0 <= d <= 9) ds ->
  typed_int bal ds < 2 ^ 53 ->
  typed bal ds = of_int (typed_int bal ds).
Proof.
  intros Hds Hb. unfold typed, typed_int.
  change 0%float with (of_int 0).
  apply typed_exact_from; [exact Hds | lia | exact Hb].
Qed.

Lemma deposit_digits_run (people : store) (person : nat) (acc : Account)
    (ds : list Z) :
  people !! person = Some acc ->
  Forall (fun d => 0 <= d <= 9) ds ->
  deposit people person (map (fun d => 48 + d) ds)
  = Waiting (mkEntry (typed (balance acc) ds) 0 false).
Proof.
  intros Hacc Hds.
  rewrite (deposit_typing people person acc); [| exact Hacc |].
  2: { apply List.Forall_map. eapply List.Forall_impl; [| exact Hds].
       intros d Hd. left. cbv beta in Hd.
       unfold is_digit. apply andb_true_iff. split; apply Z.leb_le; lia. }
  f_equal. unfold typed, start.
  generalize 0%float as amount.
  induction Hds as [| d ds Hd _ IH]; intros amount; simpl; [reflexivity |].
  replace (is_digit (48 + d)) with true
    by (symmetry; unfold is_digit; apply andb_true_iff; split; apply Z.leb_le; lia).
  rewrite (deposit_digit_typed acc d amount Hd). apply IH.
Qed.

(** C7 (as amended).  For every account and every sequence of digit
    keys, with no decimal point, typed into a fresh [deposit]: the menu
    is still waiting, unconfirmed, before the point, and the amount is
    the one the accepted digits form, where a [0] on a zero amount is a
    no-op, a digit is refused exactly when [numPlaces(balance + amount)]
    is twelve or more, and an accepted digit [d] makes the amount
    [amount * 10 + d].  As long as the integer so formed is below
    [2 ^ 53] no operation rounds and the amount is that integer. *)
Theorem deposit_digits_typed (people : store) (person : nat) (acc : Account)
    (ds : list Z) :
  people !! person = Some acc ->
  Forall (fun d => 0 <= d <= 9) ds ->
  deposit people person (map (fun d => 48 + d) ds)
  = Waiting (mkEntry (typed (balance acc) ds) 0 false)
  /\ (typed_int (balance acc) ds < 2 ^ 53 ->
      typed (balance acc) ds = of_int (typed_int (balance acc) ds)
      /\ (value (typed (balance acc) ds)
          == inject_Z (typed_int (balance acc) ds))%Q).
Proof.
  intros Hacc Hds. split; [apply deposit_digits_run; assumption |].
  intros Hb. rewrite (typed_exact (balance acc) ds Hds Hb).
  split; [reflexivity |]. apply value_of_int. split; [| exact Hb].
  apply (typed_int_grows (balance acc) ds Hds 0). lia.
Qed.

(** The amended C7 on the keys [0 0 4 2] typed into an empty account:
    the amount is 42. *)
Lemma deposit_digits_typed_witness :
  deposit [holder "A0001" 0] 0 (map (fun d => 48 + d) [0; 0; 4; 2])
  = Waiting (mkEntry (typed (balance (holder "A0001" 0)) [0; 0; 4; 2]) 0 false)
  /\ (typed_int (balance (holder "A0001" 0)) [0; 0; 4; 2] < 2 ^ 53 ->
      typed (balance (holder "A0001" 0)) [0; 0; 4; 2]
      = of_int (typed_int (balance (holder "A0001" 0)) [0; 0; 4; 2])
      /\ Qeq (value (typed (balance (holder "A0001" 0)) [0; 0; 4; 2]))
             (inject_Z (typed_int (balance (holder "A0001" 0)) [0; 0; 4; 2]))).
Proof.
  apply (deposit_digits_typed [holder "A0001" 0] 0 (holder "A0001" 0)).
  - reflexivity.
  - repeat constructor; lia.
Defined.

(** C7 as stated fails: on a balance of 100000000000.00 the digit [1] is
    refused although the whole part it would form, [1], has one digit;
    the amount stays zero. *)
Lemma deposit_digit_counterexample :
  deposit [holder "A0001" 100000000000] 0 (keys "1") = Waiting start
  /\ numPlaces (to_ll (0 * 10 + of_int 1)) = 1.
Proof. split; reflexivity. Qed.

(** C9 (as amended).  In a fresh [deposit] into an account whose balance
    takes fewer than twelve places, the keys [1 . 5 0] leave the amount
    exactly 1.5 with both decimals entered, and one more digit key
    changes nothing. *)
Theorem deposit_one_fifty (people : store) (person : nat) (acc : Account) :
  people !! person = Some acc ->
  numPlaces (to_ll (balance acc + 0)) < 12 ->
  deposit people person (keys "1.50") = Waiting (mkEntry 1.5 (-3) false)
  /\ forall ch, is_digit ch = true ->
       deposit people person (keys "1.50" ++ [ch])
       = Waiting (mkEntry 1.5 (-3) false).
Proof.
  intros Hacc Hplaces.
  assert (H1 : deposit_digit acc 49 start = mkEntry 1 0 false).
  { unfold deposit_digit, start, unconfirm. cbn [newBalance place confirm].
    change ((49 =? 48) && is_zero 0) with false. cbv iota.
    change (0 <? -2) with false. change (0 =? 0) with true. cbv iota.
    replace (12 <=? numPlaces (to_ll (balance acc + 0))) with false
      by (symmetry; apply Z.leb_gt; exact Hplaces).
    reflexivity. }
  assert (H4 : fold_left (fun e ch => if is_digit ch then deposit_digit acc ch e
                                      else key_point e) (keys "1.50") start
               = mkEntry 1.5 (-3) false).
  { change (keys "1.50") with [49; 46; 53; 48].
    cbn [fold_left]. change (is_digit 49) with true. cbv iota. rewrite H1.
    reflexivity. }
  split.
  - rewrite (deposit_typing people person acc); [| exact Hacc |].
    + rewrite H4. reflexivity.
    + change (keys "1.50") with [49; 46; 53; 48].
      repeat constructor; (left; reflexivity) || (right; reflexivity).
  - intros ch Hch.
    rewrite (deposit_typing people person acc).
    + rewrite fold_left_app, H4. cbn [fold_left]. rewrite Hch.
      unfold deposit_digit. cbn [newBalance place confirm].
      change (is_zero 1.5) with false. rewrite andb_false_r. reflexivity.
    + exact Hacc.
    + apply Forall_app. split.
      * change (keys "1.50") with [49; 46; 53; 48].
        repeat constructor; (left; reflexivity) || (right; reflexivity).
      * constructor; [left; exact Hch | constructor].
Qed.

(** The amended C9 on an account holding 100.00. *)
Lemma deposit_one_fifty_witness :
  deposit [holder "A0001" 100] 0 (keys "1.50") = Waiting (mkEntry 1.5 (-3) false)
  /\ forall ch, is_digit ch = true ->
       deposit [holder "A0001" 100] 0 (keys "1.50" ++ [ch])
       = Waiting (mkEntry 1.5 (-3) false).
Proof.
  apply (deposit_one_fifty [holder "A0001" 100] 0 (holder "A0001" 100)).
  - reflexivity.
  - vm_compute. reflexivity.
Defined.

(** C9 as stated fails: on a balance of 100000000000.00 the key [1] is
    refused, and [1 . 5 0] leaves the amount 0.5. *)
Lemma deposit_one_fifty_counterexample :
  deposit [holder "A0001" 100000000000] 0 (keys "1.50")
  = Waiting (mkEntry 0.5 (-3) false).
Proof. reflexivity. Qed.


(** *** Commits *)

Lemma same_holder_refl (acc : Account) : same_holder acc acc.
Proof. destruct acc; reflexivity. Qed.

Lemma same_holder_set_balance (acc : Account) (b : float) :
  same_holder acc (set_balance acc b).
Proof. destruct acc; reflexivity. Qed.

Lemma same_holder_trans (a b c : Account) :
  same_holder a b -> same_holder b c -> same_holder a c.
Proof.
  unfold same_holder. intros <- <-. destruct a; reflexivity.
Qed.

Lemma same_but_balances_refl (touched : list nat) (people : store) :
  same_but_balances touched people people.
Proof.
  split; [reflexivity |]. intros i acc Hi. exists acc.
  split; [exact Hi |]. split; [apply same_holder_refl | reflexivity].
Qed.

Lemma insert_same_but_balances (people : store) (person : nat)
    (acc : Account) (b : float) :
  people !! person = Some acc ->
  same_but_balances [person] people (<[person := set_balance acc b]> people).
Proof.
  intros Hacc. split; [apply length_insert |].
  intros i acc0 Hi. destruct (decide (person = i)) as [<- | Hne].
  - exists (set_balance acc b).
    rewrite list_lookup_insert_eq by (eapply lookup_lt_Some; exact Hacc).
    split; [reflexivity |].
    assert (acc0 = acc) by congruence. subst acc0.
    split; [apply same_holder_set_balance |].
    intros Hn. exfalso. apply Hn. left. reflexivity.
  - exists acc0. rewrite list_lookup_insert_ne by exact Hne.
    split; [exact Hi |]. split; [apply same_holder_refl | reflexivity].
Qed.

Lemma transfer_commit_lookup (people : store) (from to : nat)
    (amount : float) (i : nat) :
  transfer_commit people from to amount !! i
  = (if decide (to = i) then credit amount else id)
      <$> ((if decide (from = i) then debit amount else id) <$> people !! i).
Proof.
  unfold transfer_commit. rewrite list_lookup_alter.
  destruct (decide (to = i)) as [-> | Hto].
  - rewrite list_lookup_alter. destruct (decide (from = i)) as [-> | Hfrom];
      [reflexivity |].
    destruct (people !! i); reflexivity.
  - rewrite list_lookup_alter. destruct (decide (from = i)) as [-> | Hfrom].
    + destruct (people !! i); reflexivity.
    + destruct (people !! i); reflexivity.
Qed.

Lemma transfer_commit_same_but_balances (people : store) (from to : nat)
    (amount : float) :
  same_but_balances [from; to] people (transfer_commit people from to amount).
Proof.
  split; [unfold transfer_commit; rewrite !length_alter; reflexivity |].
  intros i acc Hi. rewrite transfer_commit_lookup, Hi. simpl.
  eexists. split; [reflexivity |]. split.
  - destruct (decide (to = i)), (decide (from = i)); unfold credit, debit, id;
      destruct acc; reflexivity.
  - intros Hn. destruct (decide (to = i)) as [-> | _].
    { exfalso. apply Hn. right. left. reflexivity. }
    destruct (decide (from = i)) as [-> | _].
    { exfalso. apply Hn. left. reflexivity. }
    reflexivity.
Qed.

(** C10.  Whatever keys are typed, the store that [deposit],
    [withdraw] or [transferAmmount] returns has the length and the order
    of the store it was given, each record differs from the one it was
    at most in its balance, and the records other than the one (or the
    two) the call was made for are the same. *)
Theorem commits_touch_balances_only (people people' : store)
    (input rest : list Z) :
  (forall person, deposit people person input = Returned people' rest ->
     same_but_balances [person] people people')
  /\ (forall person, withdraw people person input = Returned people' rest ->
        same_but_balances [person] people people')
  /\ (forall from to,
        transferAmmount people from to input = Returned people' rest ->
        same_but_balances [from; to] people people').
Proof.
  split; [| split].
  - intros person. unfold deposit.
    destruct (people !! person) as [acc |] eqn:Hacc; [| discriminate].
    intros Hrun. pose proof (deposit_returns people person acc input) as Hok.
    rewrite Hrun in Hok. destruct Hok as [-> | [amount ->]].
    + apply same_but_balances_refl.
    + apply insert_same_but_balances. exact Hacc.
  - intros person. unfold withdraw.
    destruct (people !! person) as [acc |] eqn:Hacc; [| discriminate].
    intros Hrun. pose proof (withdraw_returns people person acc input) as Hok.
    rewrite Hrun in Hok. destruct Hok as [-> | (amount & _ & ->)].
    + apply same_but_balances_refl.
    + apply insert_same_but_balances. exact Hacc.
  - intros from to. unfold transferAmmount.
    destruct (people !! from) as [accf |] eqn:Hf; [| discriminate].
    destruct (people !! to) as [acct |] eqn:Ht; [| discriminate].
    intros Hrun.
    pose proof (transfer_returns people from to accf acct input) as Hok.
    rewrite Hrun in Hok. destruct Hok as [-> | [amount ->]].
    + apply same_but_balances_refl.
    + apply transfer_commit_same_but_balances.
Qed.

(** C10 on a deposit of 50.00 into the first of two accounts. *)
Lemma commits_touch_balances_only_witness :
  same_but_balances [0%nat]
    [holder "A0001" 100; holder "B0002" 5]
    [holder "A0001" 150; holder "B0002" 5].
Proof.
  apply (proj1 (commits_touch_balances_only
                  [holder "A0001" 100; holder "B0002" 5]
                  [holder "A0001" 150; holder "B0002" 5]
                  (keys "50" ++ [10; 10]) []) 0%nat).
  reflexivity.
Defined.

(** C1, the failing run.  From an account holding 5.00, [transferAmmount]
    takes the digit [9] (the test of line 902 looks at the amount before
    the digit), lets Enter ask for confirmation although 5 - 9 < 0
    (line 928 has no test), and on the second Enter leaves the account
    at -4.00.  [withdraw] on the same keys does not ask (line 625). *)
Theorem transfer_commits_overdraft :
  transferAmmount [holder "A0001" 5; holder "B0002" 0] 0 1 (keys "9" ++ [10])
  = Waiting (mkEntry 9 0 true)
  /\ transferAmmount [holder "A0001" 5; holder "B0002" 0] 0 1
                     (keys "9" ++ [10; 10])
     = Returned [holder "A0001" (-4); holder "B0002" 9] []
  /\ withdraw [holder "A0001" 5; holder "B0002" 0] 0 (keys "9" ++ [10; 10])
     = Waiting (mkEntry 9 0 false).
Proof. repeat split. Qed.

(** The part of C1 that [withdraw] keeps: a call returns the store it was
    given or commits an amount [a] the balance covers, [0 <= balance - a]
    in double arithmetic, which is the new balance; and Enter on an
    amount that is not covered leaves the entry as it is, unconfirmed. *)
Theorem withdraw_never_overdraws (people people' : store) (person : nat)
    (acc : Account) (input rest : list Z) :
  people !! person = Some acc ->
  withdraw people person input = Returned people' rest ->
  (people' = people
   \/ exists a, PrimFloat.leb 0 (balance acc - a) = true
        /\ people' = <[person := set_balance acc (balance acc - a)]> people)
  /\ forall e, confirm e = false -> covered (balance acc) (newBalance e) = false ->
       withdraw_key people person acc 10 e = Continue e.
Proof.
  intros Hacc. unfold withdraw. rewrite Hacc. intros Hrun. split.
  - pose proof (withdraw_returns people person acc input) as Hok.
    rewrite Hrun in Hok. destruct Hok as [-> | (a & Hcov & ->)].
    + left. reflexivity.
    + right. exists a. split; [exact Hcov | reflexivity].
  - intros e Hc Hcov. unfold withdraw_key, withdraw_enter.
    change (10 =? 3) with false. change (is_digit 10) with false.
    change (10 =? 46) with false. change (10 =? KEY_BACKSPACE) with false.
    change (is_enter 10) with true. cbv iota. rewrite Hc, Hcov. reflexivity.
Qed.

(** A withdrawal of 3.00 from an account holding 5.00. *)
Lemma withdraw_never_overdraws_witness :
  ([holder "A0001" 2] = [holder "A0001" 5]
   \/ exists a, PrimFloat.leb 0 (balance (holder "A0001" 5) - a) = true
        /\ [holder "A0001" 2]
           = <[0%nat := set_balance (holder "A0001" 5)
                          (balance (holder "A0001" 5) - a)]> [holder "A0001" 5])
  /\ forall e, confirm e = false ->
       covered (balance (holder "A0001" 5)) (newBalance e) = false ->
       withdraw_key [holder "A0001" 5] 0 (holder "A0001" 5) 10 e = Continue e.
Proof.
  apply (withdraw_never_overdraws [holder "A0001" 5] [holder "A0001" 2] 0
           (holder "A0001" 5) (keys "3" ++ [10; 10]) []); reflexivity.
Defined.

(** *** The sum of the balances *)

Lemma total_alter (f : Account -> Account) (people : store) (i : nat)
    (acc : Account) :
  people !! i = Some acc ->
  (total (alter f i people)
   == total people - value (balance acc) + value (balance (f acc)))%Q.
Proof.
  revert i. induction people as [| a people IH]; intros i Hi.
  - discriminate.
  - destruct i as [| i]; simpl in *.
    + injection Hi as ->. ring.
    + rewrite (IH i Hi). ring.
Qed.

(** Whole amounts below [2 ^ 53] move without rounding. *)
Lemma whole_amounts_exact (x y a : Z) :
  0 <= a <= x -> x < 2 ^ 53 -> 0 <= y -> y + a < 2 ^ 53 ->
  (rounding (of_int x - of_int a) (value (of_int x) - value (of_int a)) == 0)%Q
  /\ (rounding (of_int y + of_int a) (value (of_int y) + value (of_int a)) == 0)%Q.
Proof.
  intros Hax Hx Hy Hya. unfold rounding.
  rewrite of_int_sub, of_int_plus by lia.
  rewrite !value_of_int by lia.
  unfold Z.sub. rewrite !inject_Z_plus, inject_Z_opp. split; ring.
Qed.

(** Three out of five, onto nothing. *)
Lemma whole_amounts_exact_witness :
  (rounding (of_int 5 - of_int 3) (value (of_int 5) - value (of_int 3)) == 0)%Q
  /\ (rounding (of_int 0 + of_int 3) (value (of_int 0) + value (of_int 3)) == 0)%Q.
Proof. apply (whole_amounts_exact 5 0 3); lia. Defined.

(** C2 (as amended).  Between two different records of the store, every
    return of [transferAmmount] either leaves the store as it was or
    commits an amount [a]: the source then holds the double [bx - a],
    the destination the double [by + a], every other record is the one
    it was, and the sum of the balances changes by the rounding errors
    of that subtraction and that addition, so that it is conserved
    whenever both are exact. *)
Theorem transfer_moves_amount (people people' : store) (from to : nat)
    (accf acct : Account) (input rest : list Z) :
  from <> to ->
  people !! from = Some accf ->
  people !! to = Some acct ->
  transferAmmount people from to input = Returned people' rest ->
  people' = people
  \/ exists a : float,
       people' = transfer_commit people from to a
       /\ people' !! from = Some (set_balance accf (balance accf - a))
       /\ people' !! to = Some (set_balance acct (balance acct + a))
       /\ (forall i, i <> from -> i <> to -> people' !! i = people !! i)
       /\ (total people'
           == total people
              + rounding (balance accf - a) (value (balance accf) - value a)
              + rounding (balance acct + a) (value (balance acct) + value a))%Q
       /\ ((rounding (balance accf - a) (value (balance accf) - value a) == 0)%Q ->
           (rounding (balance acct + a) (value (balance acct) + value a) == 0)%Q ->
           (total people' == total people)%Q).
Proof.
  intros Hne Hf Ht. unfold transferAmmount. rewrite Hf, Ht. intros Hrun.
  pose proof (transfer_returns people from to accf acct input) as Hok.
  rewrite Hrun in Hok. destruct Hok as [-> | [a ->]]; [left; reflexivity |].
  right. exists a. split; [reflexivity |].
  assert (Hfrom : transfer_commit people from to a !! from
                  = Some (set_balance accf (balance accf - a))).
  { rewrite transfer_commit_lookup, Hf.
    destruct (decide (to = from)) as [E | _]; [congruence |].
    destruct (decide (from = from)) as [_ | E]; [reflexivity | congruence]. }
  assert (Hto : transfer_commit people from to a !! to
                = Some (set_balance acct (balance acct + a))).
  { rewrite transfer_commit_lookup, Ht.
    destruct (decide (to = to)) as [_ | E]; [| congruence].
    destruct (decide (from = to)) as [E | _]; [congruence | reflexivity]. }
  assert (Hsum : (total (transfer_commit people from to a)
           == total people
              + rounding (balance accf - a) (value (balance accf) - value a)
              + rounding (balance acct + a) (value (balance acct) + value a))%Q).
  { unfold transfer_commit.
    rewrite (total_alter (credit a) _ to acct)
      by (rewrite list_lookup_alter_ne by exact Hne; exact Ht).
    rewrite (total_alter (debit a) people from accf Hf).
    unfold rounding, credit, debit. destruct accf, acct; simpl. ring. }
  split; [exact Hfrom |]. split; [exact Hto |]. split; [| split].
  - intros i Hif Hit. rewrite transfer_commit_lookup.
    destruct (decide (to = i)) as [E | _]; [congruence |].
    destruct (decide (from = i)) as [E | _]; [congruence |].
    destruct (people !! i); reflexivity.
  - exact Hsum.
  - intros E1 E2. rewrite Hsum, E1, E2. ring.
Qed.

(** The amended C2 on a transfer of 5.00 from an account holding 100.00
    to one holding 5.00, both operations exact. *)
Lemma transfer_moves_amount_witness :
  [holder "A0001" 95; holder "B0002" 10] = [holder "A0001" 100; holder "B0002" 5]
  \/ exists a : float,
       [holder "A0001" 95; holder "B0002" 10]
       = transfer_commit [holder "A0001" 100; holder "B0002" 5] 0 1 a
       /\ [holder "A0001" 95; holder "B0002" 10] !! 0%nat
          = Some (set_balance (holder "A0001" 100)
                              (balance (holder "A0001" 100) - a))
       /\ [holder "A0001" 95; holder "B0002" 10] !! 1%nat
          = Some (set_balance (holder "B0002" 5)
                              (balance (holder "B0002" 5) + a))
       /\ (forall i, i <> 0%nat -> i <> 1%nat ->
             [holder "A0001" 95; holder "B0002" 10] !! i
             = [holder "A0001" 100; holder "B0002" 5] !! i)
       /\ (total [holder "A0001" 95; holder "B0002" 10]
           == total [holder "A0001" 100; holder "B0002" 5]
              + rounding (balance (holder "A0001" 100) - a)
                         (value (balance (holder "A0001" 100)) - value a)
              + rounding (balance (holder "B0002" 5) + a)
                         (value (balance (holder "B0002" 5)) + value a))%Q
       /\ ((rounding (balance (holder "A0001" 100) - a)
                     (value (balance (holder "A0001" 100)) - value a) == 0)%Q ->
           (rounding (balance (holder "B0002" 5) + a)
                     (value (balance (holder "B0002" 5)) + value a) == 0)%Q ->
           (total [holder "A0001" 95; holder "B0002" 10]
            == total [holder "A0001" 100; holder "B0002" 5])%Q).
Proof.
  apply (transfer_moves_amount
           [holder "A0001" 100; holder "B0002" 5]
           [holder "A0001" 95; holder "B0002" 10] 0 1
           (holder "A0001" 100) (holder "B0002" 5)
           (keys "5" ++ [10; 10]) []).
  - discriminate.
  - reflexivity.
  - reflexivity.
  - reflexivity.
Defined.

(** C2 as stated fails twice.  A transfer of 0.10 from an account
    holding 0.30 to one holding 0.20 leaves 0.19999999999999998 and
    0.30000000000000004: the addition is rounded and the sum of the
    balances is not the one it was.  And a transfer of 3.00 from an
    account holding 5.00 to itself, which [transferAccount] lets the
    user choose, leaves the balance 5.00, neither 2.00 nor 8.00. *)
Lemma transfer_counterexample :
  (transferAmmount [holder "A0001" 0.3; holder "B0002" 0.2] 0 1
                   (keys ".1" ++ [10; 10])
   = Returned [holder "A0001" 0.19999999999999998;
               holder "B0002" 0.30000000000000004] []
   /\ ~ (total [holder "A0001" 0.19999999999999998;
                holder "B0002" 0.30000000000000004]
         == total [holder "A0001" 0.3; holder "B0002" 0.2])%Q)
  /\ transferAmmount [holder "A0001" 5] 0 0 (keys "3" ++ [10; 10])
     = Returned [holder "A0001" 5] [].
Proof.
  split; [split |].
  - reflexivity.
  - intros H. vm_compute in H. discriminate H.
  - reflexivity.
Qed.

End EntryFacts.

Module CredentialFacts.
Import Machine Curses CursesFacts Bank BankFacts Transfer Credential.

Lemma strlen_chop (a : string) : strlen (chop a) <= strlen a.
Proof.
  unfold strlen. induction a as [| c a IH]; simpl; [lia |].
  destruct a as [| c' a']; [simpl; lia |].
  change (String.length (String c (chop (String c' a'))))
    with (S (String.length (chop (String c' a')))).
  change (String.length (String c (String c' a')))
    with (S (String.length (String c' a'))).
  lia.
Qed.

Lemma strlen_push (a : string) (c : ascii) : strlen (push a c) = strlen a + 1.
Proof. unfold push. rewrite strlen_append. reflexivity. Qed.

Lemma verify_key_ok (acc : Account) (ch : Z) (pass : string) :
  typing pass -> step_ok typing (decided acc) (verify_key acc ch pass).
Proof.
  unfold typing. intros Hlen. unfold verify_key.
  destruct (ch =? 3); [exact I |].
  destruct (ch =? KEY_BACKSPACE).
  { unfold step_ok. destruct (negb (strlen pass =? 0)); [| exact Hlen].
    pose proof (strlen_chop pass). unfold typing. lia. }
  unfold verify_type.
  destruct (negb (isalnum ch) || (6 <=? strlen pass)); [exact Hlen |].
  pose proof (strlen_push pass (char_of_key ch)) as Hpush.
  destruct (strlen (push pass (char_of_key ch)) =? 6) eqn:E6.
  - apply Z.eqb_eq in E6.
    destruct (matches acc (push pass (char_of_key ch))) eqn:Ecmp;
      unfold matches in Ecmp.
    + unfold step_ok, decided; cbn [fst snd]. split; [lia |].
      split; [intros _ | reflexivity]. split; [exact E6 |].
      apply orb_true_iff in Ecmp as [E | E]; apply strcmp_eqb in E; auto.
    + unfold step_ok, decided; cbn [fst snd]. split; [lia |].
      split; [discriminate |]. intros [_ Heq]. exfalso.
      apply orb_false_iff in Ecmp as [E1 E2].
      destruct Heq as [Heq | Heq]; apply strcmp_eqb in Heq; congruence.
  - apply Z.eqb_neq in E6. unfold step_ok, typing. lia.
Qed.

Lemma char_of_key_code (c : ascii) : char_of_key (Z.of_N (N_of_ascii c)) = c.
Proof.
  unfold char_of_key.
  pose proof (N_ascii_bounded c) as Hb.
  rewrite Z.mod_small by lia.
  rewrite N2Z.id. apply ascii_N_embedding.
Qed.

Lemma isalnum_plain (ch : Z) :
  isalnum ch = true -> ch <> 27 /\ ch <> 3 /\ ch <> KEY_BACKSPACE.
Proof.
  unfold isalnum, is_digit, KEY_BACKSPACE. intros H.
  repeat (apply orb_true_iff in H as [H | H]);
    apply andb_true_iff in H as [H1 H2];
    apply Z.leb_le in H1, H2; lia.
Qed.

Lemma push_append (a : string) (c : ascii) (b : string) :
  (push a c ++ b)%string = (a ++ String c b)%string.
Proof.
  unfold push. induction a as [| x a IH]; simpl; [reflexivity |].
  rewrite IH. reflexivity.
Qed.

Lemma append_empty (a : string) : (a ++ "")%string = a.
Proof. induction a as [| x a IH]; simpl; [reflexivity | rewrite IH; reflexivity]. Qed.

Lemma verify_typed (acc : Account) (k : Z) (word pass : string) :
  Forall alnum (list_ascii_of_string word) ->
  word <> EmptyString ->
  strlen pass + strlen word = 6 ->
  menu_loop id (verify_key acc) (fun p => Return (false, p))
            (keys word ++ [k]) pass
  = Returned (matches acc (pass ++ word), (pass ++ word)%string)
             (if matches acc (pass ++ word) then [k] else []).
Proof.
  revert pass. induction word as [| c word IH]; intros pass Hal Hne Hlen.
  - contradiction.
  - unfold keys in *. simpl list_ascii_of_string in *. simpl map.
    inversion Hal as [| c' l' Hc Hal' E]; subst. unfold alnum in Hc.
    destruct (isalnum_plain _ Hc) as (H27 & H3 & Hbs).
    simpl app. simpl menu_loop.
    destruct (Z.of_N (N_of_ascii c) =? 27) eqn:E27;
      [apply Z.eqb_eq in E27; contradiction |].
    unfold id at 1. unfold verify_key at 1.
    destruct (Z.of_N (N_of_ascii c) =? 3) eqn:E3;
      [apply Z.eqb_eq in E3; contradiction |].
    destruct (Z.of_N (N_of_ascii c) =? KEY_BACKSPACE) eqn:Eb;
      [apply Z.eqb_eq in Eb; contradiction |].
    unfold verify_type. rewrite Hc. simpl negb.
    assert (Hs : strlen (String c word) = 1 + strlen word).
    { unfold strlen. simpl String.length. lia. }
    assert (Hnn : 0 <= strlen word) by (unfold strlen; lia).
    replace (6 <=? strlen pass) with false by (symmetry; apply Z.leb_gt; lia).
    simpl orb. cbv iota.
    rewrite char_of_key_code, strlen_push.
    destruct word as [| c2 word].
    + replace (strlen pass + 1 =? 6) with true
        by (symmetry; apply Z.eqb_eq; unfold strlen in *; simpl in *; lia).
      replace (pass ++ String c "")%string with (push pass c) by reflexivity.
      destruct (matches acc (push pass c)); reflexivity.
    + replace (strlen pass + 1 =? 6) with false
        by (symmetry; apply Z.eqb_neq; unfold strlen in *;
            simpl String.length in *; lia).
      rewrite <- push_append.
      apply IH.
      * exact Hal'.
      * discriminate.
      * rewrite strlen_push. lia.
Qed.

Lemma matches_iff (acc : Account) (pass : string) :
  matches acc pass = true <-> pass = password acc \/ pass = master.
Proof.
  unfold matches. rewrite orb_true_iff, !strcmp_eqb. reflexivity.
Qed.



End CredentialFacts.

Module OpeningFacts.
Import Machine Curses Bank BankFacts Opening.

Section SortFacts.
Context {A : Type} (lt : A -> A -> bool).
Hypothesis lt_asym : forall x y, lt x y = true -> lt y x = false.

Lemma insert_sorted_perm (x : A) (l : list A) :
  Permutation (insert_sorted lt x l) (x :: l).
Proof.
  induction l as [| y l IH]; simpl; [reflexivity |].
  destruct (lt x y); [reflexivity |].
  rewrite IH. apply perm_swap.
Qed.

Lemma std_sort_perm (l : list A) : Permutation (std_sort lt l) l.
Proof.
  induction l as [| x l IH]; simpl; [reflexivity |].
  rewrite insert_sorted_perm, IH. reflexivity.
Qed.

Lemma insert_sorted_hd (x y : A) (l : list A) :
  lt x y = false -> HdRel (may_follow lt) y l ->
  HdRel (may_follow lt) y (insert_sorted lt x l).
Proof.
  intros Hxy Hhd. destruct l as [| z l]; simpl.
  - constructor. exact Hxy.
  - destruct (lt x z); constructor; [exact Hxy |].
    inversion Hhd; assumption.
Qed.

Lemma insert_sorted_sorted (x : A) (l : list A) :
  Sorted (may_follow lt) l -> Sorted (may_follow lt) (insert_sorted lt x l).
Proof.
  induction 1 as [| y l Hs IH Hhd]; simpl.
  - repeat constructor.
  - destruct (lt x y) eqn:E.
    + constructor; [constructor; assumption |].
      constructor. apply lt_asym. exact E.
    + constructor; [exact IH |]. apply insert_sorted_hd; assumption.
Qed.

Lemma std_sort_sorted (l : list A) : Sorted (may_follow lt) (std_sort lt l).
Proof.
  induction l as [| x l IH]; simpl; [constructor |].
  apply insert_sorted_sorted. exact IH.
Qed.
End SortFacts.

Lemma by_number_asym (a b : Account) :
  by_number a b = true -> by_number b a = false.
Proof.
  unfold by_number. rewrite (strcmp_flip (number a) (number b)).
  intros H. apply Z.ltb_lt in H. apply Z.ltb_ge. lia.
Qed.

Lemma may_follow_number_le (a b : Account) :
  may_follow by_number a b -> number_le a b.
Proof.
  unfold may_follow, by_number, number_le.
  rewrite (strcmp_flip (number a) (number b)). intros H.
  apply Z.ltb_ge in H. lia.
Qed.

Lemma Sorted_impl {A : Type} (R1 R2 : A -> A -> Prop) (l : list A) :
  (forall x y, R1 x y -> R2 x y) -> Sorted R1 l -> Sorted R2 l.
Proof.
  intros HR. induction 1 as [| x l Hs IH Hhd]; constructor; [exact IH |].
  destruct Hhd; constructor. apply HR. assumption.
Qed.

(** C5 (as amended).  Enter on a password of six characters always
    inserts: the store [openAccount] leaves holds the records it held
    and the new one, no matter whether the new number is already in use,
    and is sorted by account number. *)
Theorem openAccount_always_inserts (people : store) (newPerson : Account)
    (buf : string) :
  strlen buf = 6 ->
  exists people',
    openAccount_insert people newPerson buf = Some people'
    /\ Permutation people' (people ++ [set_password newPerson buf])
    /\ Sorted number_le people'.
Proof.
  intros Hlen. unfold openAccount_insert. rewrite Hlen. simpl.
  eexists. split; [reflexivity |]. split.
  - apply std_sort_perm.
  - apply (Sorted_impl (may_follow by_number)); [apply may_follow_number_le |].
    apply std_sort_sorted. apply by_number_asym.
Qed.

(** The amended C5 on a new account B0001 opened between A0001 and B0002. *)
Lemma openAccount_always_inserts_witness :
  exists people',
    openAccount_insert [holder "A0001" 100; holder "B0002" 5]
                       (holder "B0001" 0) "ABCDEF" = Some people'
    /\ Permutation people'
         ([holder "A0001" 100; holder "B0002" 5]
            ++ [set_password (holder "B0001" 0) "ABCDEF"])
    /\ Sorted number_le people'.
Proof.
  apply (openAccount_always_inserts [holder "A0001" 100; holder "B0002" 5]
           (holder "B0001" 0) "ABCDEF").
  reflexivity.
Defined.

(** C5 as stated fails: opening an account under the number A0001, which
    is in use, does not fail; the store then holds both records. *)
Lemma openAccount_duplicate_counterexample :
  exists people',
    openAccount_insert [holder "A0001" 100] (holder "A0001" 0) "SECRET"
    = Some people'
    /\ In (holder "A0001" 100) people' /\ In (holder "A0001" 0) people'.
Proof.
  eexists. split; [reflexivity |]. simpl. split; auto.
Qed.

End OpeningFacts.

Module PersistenceFacts.
Import Machine Double Curses Bank Opening Persistence.

Lemma span_shorter (p : ascii -> bool) (l : list ascii) :
  (List.length (snd (span p l)) <= List.length l)%nat.
Proof.
  induction l as [| c l IH]; simpl; [lia |].
  destruct (p c); [| simpl; lia].
  destruct (span p l) as [a b]. simpl in *. lia.
Qed.

Lemma span_rest_head (p : ascii -> bool) (l : list ascii) (c : ascii)
    (rest : list ascii) :
  snd (span p l) = c :: rest -> p c = false.
Proof.
  induction l as [| x l IH]; simpl; [discriminate |].
  destruct (p x) eqn:E.
  - destruct (span p l) as [a b]. simpl in *. exact IH.
  - simpl. intros H. injection H as -> _. exact E.
Qed.

Lemma take_sign_shorter (l : list ascii) :
  (List.length (snd (take_sign l)) <= List.length l)%nat.
Proof.
  destruct l as [| c l]; simpl; [lia |].
  destruct (Ascii.eqb c "-"); [simpl; lia |].
  destruct (Ascii.eqb c "+"); simpl; lia.
Qed.

(** What a [>>] leaves to read is no longer than what it found. *)
Lemma sentry_shorter (i : istream) (l : list ascii) (i' : istream) :
  sentry i = (Some l, i') ->
  l <> [] /\ (List.length l <= List.length (pending i))%nat
  /\ exists c rest, l = c :: rest /\ isspace c = false.
Proof.
  unfold sentry. destruct (eofbit i || failbit i); [discriminate |].
  destruct (snd (span isspace (pending i))) as [| c rest] eqn:E; [discriminate |].
  intros H. injection H as <- <-.
  split; [discriminate |]. split.
  - rewrite <- E. apply span_shorter.
  - exists c, rest. split; [reflexivity |]. eapply span_rest_head. exact E.
Qed.

Lemma sentry_none (i : istream) (i' : istream) :
  sentry i = (None, i') ->
  (List.length (pending i') <= List.length (pending i))%nat.
Proof.
  unfold sentry. destruct (eofbit i || failbit i).
  - intros H. injection H as <-. simpl. lia.
  - destruct (snd (span isspace (pending i))); [| discriminate].
    intros H. injection H as <-. simpl. lia.
Qed.

Lemma get_word_shorter (i : istream) (r : option string) (i' : istream) :
  get_word i = (r, i') ->
  (List.length (pending i') <= List.length (pending i))%nat
  /\ (r <> None -> (List.length (pending i') < List.length (pending i))%nat).
Proof.
  unfold get_word. destruct (sentry i) as [[l |] i0] eqn:E.
  - destruct (sentry_shorter i l i0 E) as (_ & Hlen & c & rest & -> & Hc).
    simpl span. rewrite Hc. simpl negb. cbv iota.
    pose proof (span_shorter (fun c => negb (isspace c)) rest) as Hs.
    destruct (span (fun c => negb (isspace c)) rest) as [w rest'].
    intros H. injection H as <- <-. simpl in *. lia.
  - intros H. injection H as <- <-. split; [| congruence].
    eapply sentry_none. exact E.
Qed.

Lemma get_char_shorter (i : istream) (r : option ascii) (i' : istream) :
  get_char i = (r, i') ->
  (List.length (pending i') <= List.length (pending i))%nat.
Proof.
  unfold get_char. destruct (sentry i) as [[l |] i0] eqn:E.
  - destruct (sentry_shorter i l i0 E) as (_ & Hlen & c & rest & -> & Hc).
    intros H. injection H as <- <-. simpl in *. lia.
  - intros H. injection H as <- <-. eapply sentry_none. exact E.
Qed.

Lemma get_unsigned_shorter (i : istream) (r : option Z) (i' : istream) :
  get_unsigned i = (r, i') ->
  (List.length (pending i') <= List.length (pending i))%nat.
Proof.
  unfold get_unsigned. destruct (sentry i) as [[l |] i0] eqn:E.
  - destruct (sentry_shorter i l i0 E) as (_ & Hlen & _).
    pose proof (take_sign_shorter l) as Ht.
    destruct (take_sign l) as [neg l1].
    pose proof (span_shorter isdigit l1) as Hs.
    destruct (span isdigit l1) as [ds rest].
    destruct (at_end ds || (2 ^ 32 <=? number_of ds));
      intros H; injection H as <- <-; simpl in *; lia.
  - intros H. injection H as <- <-. eapply sentry_none. exact E.
Qed.

Lemma get_double_shorter (i : istream) (r : option float) (i' : istream) :
  get_double i = (r, i') ->
  (List.length (pending i') <= List.length (pending i))%nat.
Proof.
  unfold get_double. destruct (sentry i) as [[l |] i0] eqn:E.
  2: { intros H. injection H as <- <-. eapply sentry_none. exact E. }
  destruct (sentry_shorter i l i0 E) as (_ & Hlen & _).
  pose proof (take_sign_shorter l) as H1.
  destruct (take_sign l) as [neg l1].
  pose proof (span_shorter isdigit l1) as H2.
  destruct (span isdigit l1) as [ip l2].
  assert (H3 : forall fp l3,
    match l2 with
    | c :: l2' => if Ascii.eqb c "." then span isdigit l2' else ([], l2)
    | [] => ([], l2)
    end = (fp, l3) -> (List.length l3 <= List.length l2)%nat).
  { intros fp l3. destruct l2 as [| c l2'].
    - intros H. injection H as <- <-. lia.
    - destruct (Ascii.eqb c ".").
      + pose proof (span_shorter isdigit l2') as Hs.
        destruct (span isdigit l2') as [a b].
        intros H. injection H as <- <-. simpl in *. lia.
      + intros H. injection H as <- <-. lia. }
  destruct (match l2 with
            | c :: l2' => if Ascii.eqb c "." then span isdigit l2' else ([], l2)
            | [] => ([], l2)
            end) as [fp l3] eqn:E3.
  specialize (H3 fp l3 eq_refl).
  assert (H4 : forall ex l4,
    match l3 with
    | c :: l3' =>
        if (Ascii.eqb c "e" || Ascii.eqb c "E") && negb (at_end (ip ++ fp))
        then
          let '(eneg, l3'') := take_sign l3' in
          let '(es, l4) := span isdigit l3'' in
          (if at_end es then None
           else Some (if eneg then - number_of es else number_of es), l4)
        else (Some 0, l3)
    | [] => (Some 0, l3)
    end = (ex, l4) -> (List.length l4 <= List.length l3)%nat).
  { intros ex l4. destruct l3 as [| c l3'].
    - intros H. injection H as <- <-. lia.
    - destruct ((Ascii.eqb c "e" || Ascii.eqb c "E") && negb (at_end (ip ++ fp))).
      + pose proof (take_sign_shorter l3') as Hs1.
        destruct (take_sign l3') as [eneg l3''].
        pose proof (span_shorter isdigit l3'') as Hs2.
        destruct (span isdigit l3'') as [es l4'].
        intros H. injection H as <- <-. simpl in *. lia.
      + intros H. injection H as <- <-. lia. }
  destruct (match l3 with
            | c :: l3' => _
            | [] => (Some 0, l3)
            end) as [ex l4] eqn:E4.
  specialize (H4 ex l4 eq_refl).
  simpl in H1, H2.
  destruct ex as [k |].
  - destruct (at_end (ip ++ fp));
      [intros H; injection H as <- <-; simpl; lia |].
    destruct (is_infinity _); intros H; injection H as <- <-; simpl; lia.
  - intros H; injection H as <- <-; simpl; lia.
Qed.

(** An account read is a first word read. *)
Lemma read_account_shorter (i : istream) (acc : Account) (i' : istream) :
  read_account i = (Some acc, i') ->
  (List.length (pending i') < List.length (pending i))%nat.
Proof.
  unfold read_account.
  destruct (get_word i) as [r1 i1] eqn:E1.
  destruct (get_word i1) as [r2 i2] eqn:E2.
  destruct (get_char i2) as [r3 i3] eqn:E3.
  destruct (get_unsigned i3) as [r4 i4] eqn:E4.
  destruct (get_unsigned i4) as [r5 i5] eqn:E5.
  destruct (get_unsigned i5) as [r6 i6] eqn:E6.
  destruct (get_double i6) as [r7 i7] eqn:E7.
  destruct (get_word i7) as [r8 i8] eqn:E8.
  destruct (get_word i8) as [r9 i9] eqn:E9.
  apply get_word_shorter in E1, E2, E8, E9.
  apply get_char_shorter in E3.
  apply get_unsigned_shorter in E4, E5, E6.
  apply get_double_shorter in E7.
  destruct r1; [| discriminate].
  destruct E1 as [_ E1]. specialize (E1 ltac:(discriminate)).
  destruct r2, r3, r4, r5, r6, r7, r8, r9; try discriminate.
  intros H. injection H as _ <-. lia.
Qed.

Lemma load_loop_fuel (fuel : nat) :
  forall (i : istream) (people : store),
  (List.length (pending i) < fuel)%nat ->
  load_loop fuel i people <> OutOfFuel.
Proof.
  induction fuel as [| fuel IH]; intros i people Hlen; [lia |].
  simpl. destruct (eofbit i); [discriminate |].
  destruct (read_account i) as [person i'] eqn:E.
  destruct (eofbit i'); [discriminate |].
  destruct person as [acc |]; [| discriminate].
  apply IH. apply read_account_shorter in E. lia.
Qed.

Lemma length_list_ascii (a : string) :
  List.length (list_ascii_of_string a) = String.length a.
Proof. induction a as [| c a IH]; simpl; congruence. Qed.

(** The loop of [loadDatabase] ends, or never does: the bound on its
    iterations is not reached. *)
Theorem loadDatabase_fuel (text : string) : loadDatabase text <> OutOfFuel.
Proof.
  unfold loadDatabase. apply load_loop_fuel. simpl pending.
  rewrite length_list_ascii. lia.
Qed.

(** C3, the failing runs.  The file written for John Q. Smith holds the
    first name on its first line and the last name on its second; the
    loader reads the last name first, so the store reloaded from that
    file holds Smith Q. John.  And the balance is written with six
    significant digits: 1234567.89 comes back as 1234570. *)
Theorem reload_differs :
  write_account (holder "A0001" 100)
  = ("John" ++ endl ++ "Smith" ++ endl ++ "Q" ++ endl ++ "123456789" ++ endl
     ++ "775" ++ endl ++ "5551234" ++ endl ++ "100" ++ endl
     ++ "A0001" ++ endl ++ "SECRET" ++ endl ++ endl)%string
  /\ startup (write_database [holder "A0001" 100])
     = Loaded [mkAccount "Smith" "John" "Q" 123456789 775 5551234 100
                         "A0001" "SECRET" 13]
  /\ show_double 1234567.89 = "1.23457e+06"%string
  /\ startup (write_database [holder "A0001" 1234567.89])
     = Loaded [mkAccount "Smith" "John" "Q" 123456789 775 5551234 1234570
                         "A0001" "SECRET" 13].
Proof. repeat split. Qed.

End PersistenceFacts.

Module SessionFacts.
Import Curses CursesFacts Session.

(** *** What a menu leaves of the keys *)

Section MenuLoopKeys.
Context {S R : Type}.
Variables (head : S -> S) (on_key : Z -> S -> step S R)
          (on_escape : S -> step S R).

(** A menu that returns has read at least one key. *)
Lemma menu_loop_shorter (input : list Z) :
  forall (s : S) (r : R) (rest : list Z),
  menu_loop head on_key on_escape input s = Returned r rest ->
  (List.length rest < List.length input)%nat.
Proof.
  remember (List.length input) as n eqn:Hn.
  assert (Hlen : (List.length input <= n)%nat) by lia. clear Hn.
  revert input Hlen. induction n as [| n IH]; intros input Hlen s r rest.
  - destruct input; [discriminate | simpl in Hlen; lia].
  - destruct input as [| ch input]; [discriminate |].
    simpl in Hlen. simpl menu_loop.
    destruct (ch =? 27).
    + destruct input as [| peek rest1]; [discriminate |].
      simpl in Hlen.
      destruct (peek =? -1).
      * destruct (on_escape (head s)).
        -- intros H. apply IH in H; simpl in *; lia.
        -- intros H. injection H as _ <-. simpl in *; lia.
        -- destruct rest1; [discriminate |].
           intros H. injection H as _ <-. simpl in *; lia.
        -- discriminate.
      * destruct rest1 as [| a [| b [| c rest2]]]; try discriminate.
        simpl in Hlen. intros H. apply IH in H; simpl in *; lia.
    + destruct (on_key ch (head s)).
      * intros H. apply IH in H; simpl in *; lia.
      * intros H. injection H as _ <-. simpl in *; lia.
      * destruct input; [discriminate |].
        intros H. injection H as _ <-. simpl in *; lia.
      * discriminate.
Qed.

(** The keys it leaves are the last of those it was given. *)
Lemma menu_loop_suffix (input : list Z) :
  forall (s : S) (r : R) (rest : list Z),
  menu_loop head on_key on_escape input s = Returned r rest ->
  rest `suffix_of` input.
Proof.
  induction input as [input IH] using (induction_ltof1 _ (@List.length Z)).
  unfold ltof in IH. intros s r rest.
  destruct input as [| ch input]; [discriminate |].
  cbn [menu_loop]. destruct (ch =? 27).
  - destruct input as [| peek rest1]; [discriminate |].
    destruct (peek =? -1).
    + destruct (on_escape (head s)).
      * intros H. apply IH in H; [| simpl; lia].
        do 2 apply suffix_cons_r. exact H.
      * intros H. injection H as _ <-. do 2 apply suffix_cons_r. reflexivity.
      * destruct rest1; [discriminate |].
        intros H. injection H as _ <-. do 3 apply suffix_cons_r. reflexivity.
      * discriminate.
    + destruct rest1 as [| a [| b [| c rest2]]]; try discriminate.
      intros H. apply IH in H; [| simpl; lia].
      do 5 apply suffix_cons_r. exact H.
  - destruct (on_key ch (head s)).
    + intros H. apply IH in H; [| simpl; lia]. apply suffix_cons_r. exact H.
    + intros H. injection H as _ <-. apply suffix_cons_r. reflexivity.
    + destruct input; [discriminate |].
      intros H. injection H as _ <-. do 2 apply suffix_cons_r. reflexivity.
    + discriminate.
Qed.

(** A menu that calls no other reads nothing out of range. *)
Lemma menu_loop_defined (input : list Z) :
  forall s : S, menu_loop head on_key on_escape input s <> Undefined.
Proof.
  induction input as [input IH] using (induction_ltof1 _ (@List.length Z)).
  unfold ltof in IH. intros s.
  destruct input as [| ch input]; [discriminate |].
  cbn [menu_loop]. destruct (ch =? 27).
  - destruct input as [| peek rest1]; [discriminate |].
    destruct (peek =? -1).
    + destruct (on_escape (head s)); try discriminate.
      * apply IH. simpl. lia.
      * destruct rest1; discriminate.
    + destruct rest1 as [| a [| b [| c rest2]]]; try discriminate.
      apply IH. simpl. lia.
  - destruct (on_key ch (head s)); try discriminate.
    + apply IH. simpl. lia.
    + destruct input; discriminate.
Qed.
End MenuLoopKeys.

(** *** Menus that call menus *)

Section DialogInvariant.
Context {S R : Type}.
Variables (head : S -> S) (body : Z -> list Z -> S -> turn S R)
          (on_escape : S -> step S R).
(** [Inv rest s]: what holds of the state [s] with the keys [rest] still
    unread. *)
Variables (Inv : list Z -> S -> Prop) (Post : R -> Prop).
(** [Safe]: what an access out of range would make true. *)
Variable Safe : Prop.

Hypothesis drop_ok : forall ch rest s, Inv (ch :: rest) s -> Inv rest s.
Hypothesis head_ok : forall rest s, Inv rest s -> Inv rest (head s).
Hypothesis body_ok :
  forall ch rest s, Inv (ch :: rest) s ->
  turn_ok Inv Post Safe rest (body ch rest s).
Hypothesis escape_ok :
  forall rest s, Inv rest s ->
  match on_escape s with
  | Continue s' => Inv rest s'
  | Return r | ReturnAfterKey r => Post r
  | Exit => True
  end.

(** With a bound above the number of keys the loop comes to a result:
    a state that satisfies [Inv], or a return within [Post] that leaves
    fewer keys than there were. *)
Lemma dialog_bounded (fuel : nat) :
  forall input s, (List.length input < fuel)%nat -> Inv input s ->
  exists r, dialog head body on_escape fuel input s = Some r
            /\ match r with
               | Waiting s' => exists rest, Inv rest s'
               | Returned x rest =>
                   Post x /\ (List.length rest < List.length input)%nat
               | Exited => True
               | Undefined => Safe
               end.
Proof.
  induction fuel as [| fuel IH]; intros input s Hlen Hs; [lia |].
  assert (Hwait : forall rest, Inv rest s ->
            exists r, Some (@Waiting S R (head s)) = Some r
              /\ match r with
                 | Waiting s' => exists rest, Inv rest s'
                 | Returned x rest =>
                     Post x /\ (List.length rest < List.length input)%nat
                 | Exited => True
                 | Undefined => Safe
                 end).
  { intros rest Hr. eexists. split; [reflexivity |].
    exists rest. apply head_ok, Hr. }
  destruct input as [| ch rest]; cbn [dialog].
  - apply (Hwait []). exact Hs.
  - simpl in Hlen. destruct (ch =? 27).
    + destruct rest as [| peek rest1]; [apply (Hwait [ch]); exact Hs |].
      simpl in Hlen. destruct (peek =? -1).
      * pose proof (escape_ok rest1 (head s)
                      (head_ok _ _ (drop_ok _ _ _ (drop_ok _ _ _ Hs)))) as He.
        destruct (on_escape (head s)).
        -- destruct (IH rest1 s0) as (r & Hr & Hok); [lia | assumption |].
           exists r. split; [exact Hr |].
           destruct r; auto. simpl in *. split; [apply Hok | lia].
        -- eexists. split; [reflexivity |]. split; [assumption | simpl; lia].
        -- destruct rest1; [apply (Hwait [ch; peek]); exact Hs |].
           eexists. split; [reflexivity |]. split; [assumption | simpl; lia].
        -- eexists. split; [reflexivity |]. exact I.
      * destruct rest1 as [| a [| b [| c rest2]]];
          try (apply (Hwait _ Hs)).
        simpl in Hlen.
        destruct (IH rest2 (head s)) as (r & Hr & Hok); [lia | |].
        { apply head_ok.
          exact (drop_ok _ _ _ (drop_ok _ _ _ (drop_ok _ _ _
                   (drop_ok _ _ _ (drop_ok _ _ _ Hs))))). }
        exists r. split; [exact Hr |].
        destruct r; auto. simpl in *. split; [apply Hok | lia].
    + pose proof (body_ok ch rest (head s) (head_ok _ _ Hs)) as Hb.
      destruct (body ch rest (head s)) as [s' rest' | r rest' | | |];
        simpl in Hb.
      * destruct Hb as [Hs' Hrest].
        destruct (IH rest' s') as (r & Hr & Hok); [lia | assumption |].
        exists r. split; [exact Hr |].
        destruct r; auto. simpl in *. split; [apply Hok | lia].
      * destruct Hb as [Hp Hrest].
        eexists. split; [reflexivity |]. split; [assumption | simpl; lia].
      * apply (Hwait _ Hs).
      * eexists. split; [reflexivity |]. exact I.
      * eexists. split; [reflexivity |]. exact Hb.
Qed.
End DialogInvariant.

Lemma turn_ok_given {S R : Type} (Inv : list Z -> S -> Prop)
    (Post : R -> Prop) (Safe : Prop) (given given' : list Z) (t : turn S R) :
  (List.length given <= List.length given')%nat ->
  turn_ok Inv Post Safe given t -> turn_ok Inv Post Safe given' t.
Proof. intros Hlen. destruct t; simpl; auto; intros [H1 H2]; split; auto; lia. Qed.

End SessionFacts.

Module ClosingFacts.
Import Machine Curses CursesFacts Bank BankFacts Transfer Credential.
Import CredentialFacts Session SessionFacts Closing.

Lemma chop_push (a : string) (c : ascii) : chop (push a c) = a.
Proof.
  unfold push. induction a as [| x a IH]; [reflexivity |].
  change (String x a ++ String c "")%string with (String x (a ++ String c "")).
  destruct a as [| y a'].
  - reflexivity.
  - change (String y a' ++ String c "")%string
      with (String y (a' ++ String c "")) in *.
    change (chop (String x (String y (a' ++ String c ""))))
      with (String x (chop (String y (a' ++ String c "")))).
    rewrite IH. reflexivity.
Qed.

(** Six alphanumeric characters typed to [verify], whatever follows:
    the right ones return [true] at once, others return [false] after
    one more key. *)
Lemma verify_typed_rest (acc : Account) (word : string) (rest : list Z) :
  forall pass,
  Forall alnum (list_ascii_of_string word) ->
  word <> EmptyString ->
  strlen pass + strlen word = 6 ->
  menu_loop id (verify_key acc) (fun p => Return (false, p))
            (keys word ++ rest) pass
  = if matches acc (pass ++ word)
    then Returned (true, (pass ++ word)%string) rest
    else match rest with
         | [] => Waiting (chop (pass ++ word))
         | _ :: rest' => Returned (false, (pass ++ word)%string) rest'
         end.
Proof.
  induction word as [| c word IH]; intros pass Hal Hne Hlen.
  - contradiction.
  - unfold keys in *. simpl list_ascii_of_string in *. simpl map.
    inversion Hal as [| c' l' Hc Hal' E]; subst. unfold alnum in Hc.
    destruct (isalnum_plain _ Hc) as (H27 & H3 & Hbs).
    simpl app. simpl menu_loop.
    destruct (Z.of_N (N_of_ascii c) =? 27) eqn:E27;
      [apply Z.eqb_eq in E27; contradiction |].
    unfold id at 1. unfold verify_key at 1.
    destruct (Z.of_N (N_of_ascii c) =? 3) eqn:E3;
      [apply Z.eqb_eq in E3; contradiction |].
    destruct (Z.of_N (N_of_ascii c) =? KEY_BACKSPACE) eqn:Eb;
      [apply Z.eqb_eq in Eb; contradiction |].
    unfold verify_type. rewrite Hc. simpl negb.
    assert (Hs : strlen (String c word) = 1 + strlen word).
    { unfold strlen. simpl String.length. lia. }
    assert (Hnn : 0 <= strlen word) by (unfold strlen; lia).
    replace (6 <=? strlen pass) with false by (symmetry; apply Z.leb_gt; lia).
    simpl orb. cbv iota.
    rewrite char_of_key_code, strlen_push.
    destruct word as [| c2 word].
    + replace (strlen pass + 1 =? 6) with true
        by (symmetry; apply Z.eqb_eq; unfold strlen in *; simpl in *; lia).
      replace (pass ++ String c "")%string with (push pass c) by reflexivity.
      simpl app. rewrite chop_push.
      destruct (matches acc (push pass c)); [reflexivity |].
      destruct rest; reflexivity.
    + replace (strlen pass + 1 =? 6) with false
        by (symmetry; apply Z.eqb_neq; unfold strlen in *;
            simpl String.length in *; lia).
      rewrite <- push_append.
      apply IH.
      * exact Hal'.
      * discriminate.
      * rewrite strlen_push. lia.
Qed.

(** [close] returns with fewer keys than it was given. *)
Lemma close_loop_shorter (people : store) (person : nat) (acc : Account)
    (input : list Z) :
  forall r rest,
  close_loop people person acc input = Returned r rest ->
  (List.length rest < List.length input)%nat.
Proof.
  remember (List.length input) as n eqn:Hn.
  assert (Hlen : (List.length input <= n)%nat) by lia. clear Hn.
  revert input Hlen. induction n as [| n IH]; intros input Hlen r rest.
  - destruct input; [discriminate | simpl in Hlen; lia].
  - destruct input as [| ch input]; [discriminate |].
    simpl in Hlen. cbn [close_loop].
    destruct (is_enter ch).
    + unfold verify_trace.
      destruct (menu_loop id (verify_key acc) (fun pass => Return (false, pass))
                          input EmptyString) as [| [b pass] rest0 | |] eqn:E;
        try discriminate.
      apply menu_loop_shorter in E.
      destruct b; intros H; injection H as _ <-; lia.
    + destruct (ch =? 27).
      * destruct input as [| peek rest1]; [discriminate |].
        simpl in Hlen. destruct (peek =? -1).
        -- intros H. injection H as _ <-. lia.
        -- destruct rest1 as [| a [| b [| c rest2]]]; try discriminate.
           simpl in Hlen. intros H. apply IH in H; lia.
      * intros H. apply IH in H; lia.
Qed.

(** Every return of [close] is one of two: [false] and the store as it
    was, or [true] and the store without the record of index [person]. *)
Lemma close_loop_returns (people : store) (person : nat) (acc : Account)
    (input : list Z) :
  forall b people' rest,
  close_loop people person acc input = Returned (b, people') rest ->
  people' = if b then delete person people else people.
Proof.
  induction input as [input IH] using (induction_ltof1 _ (@List.length Z)).
  unfold ltof in IH. intros b people' rest.
  destruct input as [| ch input]; [discriminate |].
  cbn [close_loop]. destruct (is_enter ch).
  - destruct (verify_trace acc input) as [| [b0 pass] rest0 | |];
      try discriminate.
    destruct b0; intros H; injection H as <- <- _; reflexivity.
  - destruct (ch =? 27).
    + destruct input as [| peek rest1]; [discriminate |].
      destruct (peek =? -1).
      * intros H. injection H as <- <- _. reflexivity.
      * destruct rest1 as [| a [| b1 [| c rest2]]]; try discriminate.
        apply IH. simpl. lia.
    + apply IH. simpl. lia.
Qed.



End ClosingFacts.

Module TransferFacts.
Import Machine Curses CursesFacts Bank BankFacts Entry EntryFacts Transfer.
Import Session SessionFacts.

(** *** The account [transferAccount] returns *)

Lemma find_number_lookup (n : string) (people : store) :
  forall i j, find_number n people i = Some j ->
  (i <= j)%nat
  /\ exists acc, people !! (j - i)%nat = Some acc /\ number acc = n
     /\ forall k acc', (k < j - i)%nat -> people !! k = Some acc' ->
          number acc' <> n.
Proof.
  induction people as [| a people IH]; intros i j; simpl; [discriminate |].
  destruct (strcmp (number a) n =? 0) eqn:E.
  - intros H. injection H as <-. split; [lia |].
    rewrite Nat.sub_diag. exists a. split; [reflexivity |].
    split; [apply strcmp_eqb; exact E |]. intros k acc' Hk. lia.
  - intros H. apply IH in H as (Hle & acc & Hacc & Hn & Hfirst).
    split; [lia |]. exists acc.
    replace (j - i)%nat with (S (j - S i)) by lia.
    split; [exact Hacc |]. split; [exact Hn |].
    intros [| k] acc' Hk Hk'.
    + simpl in Hk'. injection Hk' as <-. intros Heq.
      apply strcmp_eqb in Heq. congruence.
    + simpl in Hk'. apply (Hfirst k); [lia | exact Hk'].
Qed.

Lemma next_after_lookup (key : string) (person : nat) (people : store) :
  forall i j, next_after key person people i = Some j ->
  (i <= j)%nat /\ (j - i < List.length people)%nat /\ j <> person.
Proof.
  induction people as [| a people IH]; intros i j; simpl; [discriminate |].
  destruct (negb (i =? person)%nat && (strcmp key (number a) <? 0)) eqn:E.
  - intros H. injection H as <-.
    apply andb_true_iff in E as [E _]. apply negb_true_iff, Nat.eqb_neq in E.
    repeat split; [lia | lia | exact E].
  - intros H. apply IH in H. lia.
Qed.

(** Between keys [to] is [nullptr] or points into the store, and so it
    is at the return. *)
Lemma picking_ok (people : store) (person : nat) (input : list Z) :
  (0 < List.length people)%nat ->
  run_ok (fun s => forall j, to s = Some j -> (j < List.length people)%nat)
         (fun r => forall j, r = Some j -> (j < List.length people)%nat)
         (menu_loop (lookup_typed people) (picking_key people person)
                    (fun _ => Return None) input
                    (mkPicking EmptyString false None)).
Proof.
  intros Hne. apply menu_loop_invariant.
  - intros s Hs. unfold lookup_typed.
    destruct (strlen (num s) =? ACC_NUM_LENGTH); [| assumption].
    cbn [to].
    destruct (find_number (num s) people 0) as [i |] eqn:E.
    + intros j Hj. injection Hj as <-.
      apply find_number_lookup in E as (_ & acc & Hacc & _).
      apply lookup_lt_Some in Hacc. lia.
    + exact Hs.
  - intros ch s Hs. unfold picking_key.
    destruct (ch =? 3); [exact I |].
    destruct (is_enter ch).
    { destruct (to s) as [j |] eqn:E; simpl.
      - intros j' Hj'. injection Hj' as <-. apply Hs. reflexivity.
      - discriminate. }
    destruct (ch =? KEY_BACKSPACE); [simpl; discriminate |].
    destruct (ch =? 9).
    { simpl. unfold key_tab.
      destruct (next_after _ person people 0) as [i |] eqn:E; cbn [to];
        intros j Hj; injection Hj as <-.
      - apply next_after_lookup in E. lia.
      - exact Hne. }
    simpl. unfold key_type.
    destruct (negb (isalnum ch) || (5 <=? strlen (num s))); exact Hs.
  - intros s _. simpl. discriminate.
  - simpl. discriminate.
Qed.

(** [transfer] returns with fewer keys than it was given. *)
Lemma transfer_shorter (people : store) (person : nat) (input : list Z)
    (r : store) (rest : list Z) :
  transfer people person input = Returned r rest ->
  (List.length rest < List.length input)%nat.
Proof.
  unfold transfer, transferAccount.
  destruct (people !! person); [| discriminate].
  destruct (menu_loop _ _ _ input _) as [| [j |] rest0 | |] eqn:E;
    try discriminate; apply menu_loop_shorter in E.
  - unfold transferAmmount.
    destruct (people !! person); [| discriminate].
    destruct (people !! j); [| discriminate].
    destruct (menu_loop _ _ _ rest0 _) as [| r1 rest1 | |] eqn:E1;
      try discriminate.
    apply menu_loop_shorter in E1. intros H. injection H as _ <-. lia.
  - intros H. injection H as _ <-. lia.
Qed.

(** [transfer] reads no record out of the store's range, and returns
    the store as it was or with an amount moved from the record of
    index [person] to a record of the store. *)
Lemma transfer_returns_ok (people : store) (person : nat) (acc : Account)
    (input : list Z) :
  people !! person = Some acc ->
  match transfer people person input with
  | Returned people' _ =>
      people' = people
      \/ exists j amount, (j < List.length people)%nat
           /\ people' = transfer_commit people person j amount
  | Undefined => False
  | _ => True
  end.
Proof.
  intros Hacc. unfold transfer, transferAccount. rewrite Hacc.
  pose proof (picking_ok people person input) as Hok.
  pose proof (menu_loop_defined (lookup_typed people)
                (picking_key people person) (fun _ => Return None) input
                (mkPicking EmptyString false None)) as Hdef.
  destruct (menu_loop _ _ _ input _) as [| [j |] rest0 | |] eqn:E; auto.
  simpl in Hok.
  specialize (Hok ltac:(apply lookup_lt_Some in Hacc; lia) j eq_refl).
  unfold transferAmmount. rewrite Hacc.
  destruct (lookup_lt_is_Some_2 people j Hok) as [acct Hj]. rewrite Hj.
  pose proof (transfer_returns people person j acc acct rest0) as Hr.
  pose proof (menu_loop_defined id (transfer_key people person j acc acct)
                (key_escape people) rest0 start) as Hdef2.
  destruct (menu_loop _ _ _ rest0 _) as [| r1 rest1 | |]; auto.
  simpl in Hr. destruct Hr as [-> | [amount ->]]; [left; reflexivity |].
  right. exists j, amount. split; [exact Hok | reflexivity].
Qed.

End TransferFacts.

Module PickingFacts.
Import Machine Curses CursesFacts Bank BankFacts Entry EntryFacts Transfer.
Import Credential CredentialFacts Session SessionFacts Text TransferFacts.

Lemma isalnum_range (ch : Z) :
  isalnum ch = true ->
  48 <= ch <= 57 \/ 65 <= ch <= 90 \/ 97 <= ch <= 122.
Proof.
  unfold isalnum, is_digit. intros H.
  repeat (apply orb_true_iff in H as [H | H]);
    apply andb_true_iff in H as [H1 H2];
    apply Z.leb_le in H1, H2; lia.
Qed.

Lemma strlen_nonneg (a : string) : 0 <= strlen a.
Proof. unfold strlen. lia. Qed.

Lemma strlen_String (c : ascii) (a : string) :
  strlen (String c a) = 1 + strlen a.
Proof. unfold strlen. simpl String.length. lia. Qed.

Lemma strlen_upper (a : string) : strlen (upper a) = strlen a.
Proof.
  induction a as [| c a IH]; [reflexivity |].
  simpl upper. rewrite !strlen_String, IH. reflexivity.
Qed.

(** Alphanumeric characters typed into the number: each one is stored
    in upper case, as long as the buffer holds fewer than five. *)
Lemma picking_typed (people : store) (person : nat) (word : string)
    (rest : list Z) :
  forall (pre : string) (e : bool),
  Forall alnum (list_ascii_of_string word) ->
  word <> EmptyString ->
  strlen pre + strlen word <= 5 ->
  menu_loop (lookup_typed people) (picking_key people person)
            (fun _ => Return None) (keys word ++ rest) (mkPicking pre e None)
  = menu_loop (lookup_typed people) (picking_key people person)
              (fun _ => Return None) rest
              (mkPicking (pre ++ upper word) false None).
Proof.
  induction word as [| c word IH]; intros pre e Hal Hne Hlen.
  - contradiction.
  - unfold keys in *. simpl list_ascii_of_string in *. simpl map.
    inversion Hal as [| c' l' Hc Hal' E]; subst. unfold alnum in Hc.
    pose proof (isalnum_range _ Hc) as Hr.
    rewrite strlen_String in Hlen.
    pose proof (strlen_nonneg word) as Hw.
    pose proof (strlen_nonneg pre) as Hp.
    simpl app. cbn [menu_loop].
    replace (Z.of_N (N_of_ascii c) =? 27) with false
      by (symmetry; apply Z.eqb_neq; lia).
    assert (Hhead : lookup_typed people (mkPicking pre e None)
                    = mkPicking pre e None).
    { unfold lookup_typed. cbn [num].
      replace (strlen pre =? ACC_NUM_LENGTH) with false
        by (symmetry; apply Z.eqb_neq; unfold ACC_NUM_LENGTH; lia).
      reflexivity. }
    rewrite Hhead. unfold picking_key at 1.
    replace (Z.of_N (N_of_ascii c) =? 3) with false
      by (symmetry; apply Z.eqb_neq; lia).
    replace (is_enter (Z.of_N (N_of_ascii c))) with false
      by (symmetry; unfold is_enter, KEY_ENTER; apply orb_false_iff;
          split; apply Z.eqb_neq; lia).
    replace (Z.of_N (N_of_ascii c) =? KEY_BACKSPACE) with false
      by (symmetry; apply Z.eqb_neq; unfold KEY_BACKSPACE; lia).
    replace (Z.of_N (N_of_ascii c) =? 9) with false
      by (symmetry; apply Z.eqb_neq; lia).
    unfold key_type. cbn [num to error]. rewrite Hc.
    replace (5 <=? strlen pre) with false by (symmetry; apply Z.leb_gt; lia).
    cbn [negb orb].
    fold (upper_char c).
    destruct word as [| c2 word].
    + simpl app. simpl upper. reflexivity.
    + change (map (fun c0 : ascii => Z.of_N (N_of_ascii c0))
                  (list_ascii_of_string (String c2 word)))
        with (keys (String c2 word)).
      unfold keys. rewrite (IH (push pre (upper_char c)) false Hal').
      * rewrite push_append. reflexivity.
      * discriminate.
      * rewrite strlen_push. lia.
Qed.

Lemma find_number_first (n : string) (people : store) (j : nat)
    (acct : Account) :
  people !! j = Some acct -> number acct = n ->
  (forall k acc', (k < j)%nat -> people !! k = Some acc' -> number acc' <> n) ->
  forall i, find_number n people i = Some (i + j)%nat.
Proof.
  revert j. induction people as [| a people IH]; intros j Hj Hn Hfirst i;
    [discriminate |].
  simpl. destruct j as [| j]; simpl in Hj.
  - injection Hj as ->.
    replace (strcmp (number acct) n =? 0) with true
      by (symmetry; apply strcmp_eqb; exact Hn).
    f_equal. lia.
  - replace (strcmp (number a) n =? 0) with false.
    + rewrite (IH j Hj Hn); [f_equal; lia |].
      intros k acc' Hk Hk'. apply (Hfirst (S k)); [lia | exact Hk'].
    + symmetry. apply not_true_iff_false. intros E. apply strcmp_eqb in E.
      apply (Hfirst 0%nat a); [lia | reflexivity | exact E].
Qed.



End PickingFacts.

Module AccountMenuFacts.
Import Machine Curses CursesFacts Bank BankFacts Entry EntryFacts Transfer.
Import Credential CredentialFacts Session SessionFacts Closing ClosingFacts.
Import TransferFacts AccountMenu.

(** *** Stores with the same holders *)

Lemma same_holders_refl (people : store) : same_holders people people.
Proof.
  unfold same_holders. induction people; constructor;
    [apply same_holder_refl | assumption].
Qed.

Lemma same_holders_trans (p1 p2 p3 : store) :
  same_holders p1 p2 -> same_holders p2 p3 -> same_holders p1 p3.
Proof.
  unfold same_holders. intros H12. revert p3.
  induction H12 as [| a b p1 p2 Hab _ IH]; intros p3 H23;
    inversion H23; subst; constructor.
  - eapply same_holder_trans; eassumption.
  - apply IH. assumption.
Qed.

Lemma same_but_balances_holders (touched : list nat) (p p' : store) :
  same_but_balances touched p p' -> same_holders p p'.
Proof.
  intros [Hlen Hsame]. apply Forall2_same_length_lookup_2; [congruence |].
  intros i x y Hx Hy. destruct (Hsame i x Hx) as (y' & Hy' & Hh & _).
  congruence.
Qed.

Lemma same_holders_lookup (p p' : store) (i : nat) (a : Account) :
  same_holders p p' -> p !! i = Some a ->
  exists a', p' !! i = Some a' /\ same_holder a a'.
Proof. intros H Ha. eapply Forall2_lookup_l; eassumption. Qed.

Lemma same_holders_delete (p p' : store) (i : nat) :
  same_holders p p' -> same_holders (delete i p) (delete i p').
Proof. apply Forall2_delete. Qed.

(** *** What the actions return *)

Lemma deposit_returns_ok (people : store) (person : nat) (acc : Account)
    (input : list Z) :
  people !! person = Some acc ->
  match deposit people person input with
  | Returned people' rest =>
      same_holders people people'
      /\ (List.length rest < List.length input)%nat
  | Undefined => False
  | _ => True
  end.
Proof.
  intros Hacc. unfold deposit. rewrite Hacc.
  pose proof (deposit_returns people person acc input) as Hok.
  pose proof (menu_loop_defined id (deposit_key people person acc)
                (key_escape people) input start) as Hdef.
  destruct (menu_loop _ _ _ input start) as [| r rest | |] eqn:E; auto.
  split; [| eapply menu_loop_shorter; exact E].
  simpl in Hok. destruct Hok as [-> | [amount ->]].
  - apply same_holders_refl.
  - eapply same_but_balances_holders, insert_same_but_balances. exact Hacc.
Qed.

Lemma withdraw_returns_ok (people : store) (person : nat) (acc : Account)
    (input : list Z) :
  people !! person = Some acc ->
  match withdraw people person input with
  | Returned people' rest =>
      same_holders people people'
      /\ (List.length rest < List.length input)%nat
  | Undefined => False
  | _ => True
  end.
Proof.
  intros Hacc. unfold withdraw. rewrite Hacc.
  pose proof (withdraw_returns people person acc input) as Hok.
  pose proof (menu_loop_defined id (withdraw_key people person acc)
                (key_escape people) input start) as Hdef.
  destruct (menu_loop _ _ _ input start) as [| r rest | |] eqn:E; auto.
  split; [| eapply menu_loop_shorter; exact E].
  simpl in Hok. destruct Hok as [-> | (amount & _ & ->)].
  - apply same_holders_refl.
  - eapply same_but_balances_holders, insert_same_but_balances. exact Hacc.
Qed.

Lemma transfer_holders (people : store) (person : nat) (acc : Account)
    (input : list Z) :
  people !! person = Some acc ->
  match transfer people person input with
  | Returned people' rest =>
      same_holders people people'
      /\ (List.length rest < List.length input)%nat
  | Undefined => False
  | _ => True
  end.
Proof.
  intros Hacc.
  pose proof (transfer_returns_ok people person acc input Hacc) as Hok.
  destruct (transfer people person input) as [| r rest | |] eqn:E; auto.
  split; [| eapply transfer_shorter; exact E].
  destruct Hok as [-> | (j & amount & _ & ->)].
  - apply same_holders_refl.
  - eapply same_but_balances_holders, transfer_commit_same_but_balances.
Qed.

Lemma close_returns_ok (people : store) (person : nat) (acc : Account)
    (input : list Z) :
  people !! person = Some acc ->
  match close people person input with
  | Returned r rest =>
      snd r = (if fst r then delete person people else people)
      /\ (List.length rest < List.length input)%nat
  | Undefined => False
  | _ => True
  end.
Proof.
  intros Hacc. unfold close. rewrite Hacc.
  destruct (close_loop people person acc input) as [| [b p] rest | |] eqn:E;
    auto.
  - split; [eapply close_loop_returns; exact E
           | eapply close_loop_shorter; exact E].
  - revert E. clear Hacc.
    induction input as [input IH] using (induction_ltof1 _ (@List.length Z)).
    unfold ltof in IH.
    destruct input as [| ch input]; [discriminate |].
    cbn [close_loop]. destruct (is_enter ch).
    + pose proof (menu_loop_defined id (verify_key acc)
                    (fun pass => Return (false, pass)) input EmptyString).
      unfold verify_trace.
      destruct (menu_loop _ _ _ input _) as [| [[|] ?] ? | |];
        try discriminate. congruence.
    + destruct (ch =? 27).
      * destruct input as [| peek rest1]; [discriminate |].
        destruct (peek =? -1); [discriminate |].
        destruct rest1 as [| a [| b [| c rest2]]]; try discriminate.
        apply IH. simpl. lia.
      * apply IH. simpl. lia.
Qed.

Lemma verify_returns_ok (acc : Account) (input : list Z) :
  match verify_trace acc input with
  | Returned _ rest =>
      (List.length rest < List.length input)%nat /\ rest `suffix_of` input
  | Undefined => False
  | _ => True
  end.
Proof.
  unfold verify_trace.
  pose proof (menu_loop_defined id (verify_key acc)
                (fun pass => Return (false, pass)) input EmptyString).
  destruct (menu_loop _ _ _ input _) eqn:E; auto.
  split; [eapply menu_loop_shorter | eapply menu_loop_suffix]; exact E.
Qed.

(** *** The frame of [displayAccount] *)

Section Frame.
Variables (people0 : store) (person : nat) (acc0 : Account).
Hypothesis Hacc0 : people0 !! person = Some acc0.

(** [call] with a callee that returns fewer keys and never faults. *)
Lemma account_key_frame (ch : Z) (rest : list Z) (s : account_menu) :
  same_holders people0 (people s) ->
  turn_ok (fun _ s' => same_holders people0 (people s'))
          (fun r => same_holders people0 r
                    \/ same_holders (delete person people0) r)
          False rest (account_key person ch rest s).
Proof.
  intros Hs. unfold account_key.
  destruct (ch =? 3); [exact I |].
  destruct (ch =? KEY_LEFT); [simpl; split; [exact Hs | lia] |].
  destruct (ch =? KEY_RIGHT); [simpl; split; [exact Hs | lia] |].
  destruct (is_enter ch); [| simpl; split; [exact Hs | lia]].
  destruct (same_holders_lookup _ _ _ _ Hs Hacc0) as (acc & Hacc & _).
  rewrite Hacc. unfold on_enter.
  assert (Hauth : forall k : bool -> list Z -> turn account_menu store,
            (forall v rest1, (List.length rest1 <= List.length rest)%nat ->
               turn_ok (fun _ s' => same_holders people0 (people s'))
                 (fun r => same_holders people0 r
                           \/ same_holders (delete person people0) r)
                 False rest1 (k v rest1)) ->
            turn_ok (fun _ s' => same_holders people0 (people s'))
              (fun r => same_holders people0 r
                        \/ same_holders (delete person people0) r)
              False rest (authenticate acc (verified s) rest k)).
  { intros k Hk. unfold authenticate. destruct (verified s).
    - apply Hk. lia.
    - pose proof (verify_returns_ok acc rest) as Hv.
      destruct (verify_trace acc rest) as [| r rest1 | |]; simpl; auto.
      destruct Hv as [Hlen _].
      eapply turn_ok_given; [| apply Hk; lia]. lia. }
  destruct (cursorPos s =? 0).
  { apply Hauth. intros [|] rest1 Hlen; [| simpl; split; [exact Hs | lia]].
    pose proof (deposit_returns_ok (people s) person acc rest1 Hacc) as Hd.
    destruct (deposit (people s) person rest1); simpl; auto.
    destruct Hd as [Hh Hl]. split; [| lia].
    eapply same_holders_trans; eassumption. }
  destruct (cursorPos s =? 1).
  { apply Hauth. intros [|] rest1 Hlen; [| simpl; split; [exact Hs | lia]].
    pose proof (withdraw_returns_ok (people s) person acc rest1 Hacc) as Hd.
    destruct (withdraw (people s) person rest1); simpl; auto.
    destruct Hd as [Hh Hl]. split; [| lia].
    eapply same_holders_trans; eassumption. }
  destruct (cursorPos s =? 2).
  { apply Hauth. intros [|] rest1 Hlen; [| simpl; split; [exact Hs | lia]].
    pose proof (transfer_holders (people s) person acc rest1 Hacc) as Hd.
    destruct (transfer (people s) person rest1); simpl; auto.
    destruct Hd as [Hh Hl]. split; [| lia].
    eapply same_holders_trans; eassumption. }
  destruct (cursorPos s =? 3); [| simpl; split; [exact Hs | lia]].
  apply Hauth. intros [|] rest1 Hlen; [| simpl; split; [exact Hs | lia]].
  pose proof (close_returns_ok (people s) person acc rest1 Hacc) as Hd.
  destruct (close (people s) person rest1) as [| [b p] rest2 | |]; simpl; auto.
  simpl in Hd. destruct Hd as [-> Hl]. destruct b; simpl.
  - split; [| lia]. right. apply same_holders_delete. exact Hs.
  - split; [exact Hs | lia].
Qed.
End Frame.



End AccountMenuFacts.

Module LockFacts.
Import Machine Curses CursesFacts Bank BankFacts Entry EntryFacts Transfer.
Import Credential CredentialFacts Session SessionFacts Closing ClosingFacts.
Import TransferFacts AccountMenu AccountMenuFacts.

Lemma tails_suffix (input rest : list Z) :
  rest `suffix_of` input -> In rest (tails input).
Proof.
  induction input as [| ch input IH]; intros Hs.
  - apply suffix_nil_inv in Hs as ->. left. reflexivity.
  - destruct Hs as [[| x k] Hk]; simpl in Hk.
    + left. congruence.
    + right. apply IH. injection Hk as _ ->. exists k. reflexivity.
Qed.

Lemma never_granted_suffix (acc : Account) (input rest : list Z) :
  never_granted acc input = true -> rest `suffix_of` input ->
  granted acc rest = false.
Proof.
  unfold never_granted. rewrite forallb_forall. intros H Hs.
  apply negb_true_iff. apply H. apply tails_suffix. exact Hs.
Qed.

Section Locked.
Variables (people0 : store) (person : nat) (acc0 : Account).
Hypothesis Hacc0 : people0 !! person = Some acc0.

Lemma account_key_locked (ch : Z) (rest : list Z) (s : account_menu) :
  (verified s = false /\ people s = people0
   /\ forall t, t `suffix_of` (ch :: rest) -> granted acc0 t = false) ->
  turn_ok (fun rest' s' =>
             verified s' = false /\ people s' = people0
             /\ forall t, t `suffix_of` rest' -> granted acc0 t = false)
          (fun r => r = people0) False rest (account_key person ch rest s).
Proof.
  intros (Hv & Hp & Hg).
  assert (Hg' : forall t, t `suffix_of` rest -> granted acc0 t = false).
  { intros t Ht. apply Hg. apply suffix_cons_r. exact Ht. }
  unfold account_key.
  destruct (ch =? 3); [exact I |].
  destruct (ch =? KEY_LEFT); [simpl; auto |].
  destruct (ch =? KEY_RIGHT); [simpl; auto |].
  destruct (is_enter ch); [| simpl; auto].
  rewrite Hp, Hacc0. unfold on_enter, authenticate. rewrite Hv, Hp.
  pose proof (verify_returns_ok acc0 rest) as Hr.
  pose proof (Hg' rest ltac:(reflexivity)) as Hno. unfold granted in Hno.
  assert (Hcall : forall K : bool * string -> list Z -> turn account_menu store,
            (forall pass rest1,
               K (false, pass) rest1
               = Again (mkAccountMenu (cursorPos s) false people0) rest1) ->
            turn_ok (fun rest' s' =>
                       verified s' = false /\ people s' = people0
                       /\ forall t, t `suffix_of` rest' ->
                                    granted acc0 t = false)
                    (fun r => r = people0) False rest
                    (call (verify_trace acc0 rest) K)).
  { intros K HK.
    destruct (verify_trace acc0 rest) as [| [[|] pass] rest1 | |];
      simpl; auto; [discriminate |].
    rewrite HK. simpl. destruct Hr as [Hlen Hsuf].
    split; [| lia]. split; [reflexivity |]. split; [reflexivity |].
    intros t Ht. apply Hg'. etransitivity; eassumption. }
  destruct (cursorPos s =? 0); [apply Hcall; intros; reflexivity |].
  destruct (cursorPos s =? 1); [apply Hcall; intros; reflexivity |].
  destruct (cursorPos s =? 2); [apply Hcall; intros; reflexivity |].
  destruct (cursorPos s =? 3); [apply Hcall; intros; reflexivity |].
  simpl. split; [| lia]. split; [exact Hv |]. split; [exact Hp | exact Hg'].
Qed.
End Locked.

(** Without the password nothing changes: when no call of [verify],
    wherever in the keys it starts, returns [true], [displayAccount]
    waits or returns with the store it was given, and has not set
    [verified]. *)
Theorem displayAccount_locked (people : store) (person : nat) (acc : Account)
    (input : list Z) :
  people !! person = Some acc ->
  never_granted acc input = true ->
  match displayAccount people person input with
  | Waiting s => verified s = false /\ AccountMenu.people s = people
  | Returned people' _ => people' = people
  | Exited => True
  | Undefined => False
  end.
Proof.
  intros Hacc Hnever. unfold displayAccount. rewrite Hacc.
  destruct (dialog_bounded id (account_key person)
              (fun s => Return (AccountMenu.people s))
              (fun rest s =>
                 verified s = false /\ AccountMenu.people s = people
                 /\ forall t, t `suffix_of` rest -> granted acc t = false)
              (fun r => r = people) False)
    with (fuel := enough input) (input := input)
         (s := mkAccountMenu 0 false people)
    as (r & -> & Hr).
  - intros ch rest s (Hv & Hp & Hg). split; [exact Hv |]. split; [exact Hp |].
    intros t Ht. apply Hg. apply suffix_cons_r. exact Ht.
  - auto.
  - intros ch rest s. apply account_key_locked. exact Hacc.
  - intros rest s (_ & Hp & _). exact Hp.
  - unfold enough. lia.
  - split; [reflexivity |]. split; [reflexivity |].
    intros t Ht. eapply never_granted_suffix; eassumption.
  - destruct r; auto.
    + destruct Hr as (rest & Hv & Hp & _). split; assumption.
    + apply Hr.
Qed.

(** A wrong password, then the arrows and Enter again: nothing moves. *)
Lemma displayAccount_locked_witness :
  match displayAccount [holder "A0001" 5; holder "B0002" 7] 0
          (10 :: keys "SECRES" ++ [32; 261; 10; 27; -1; 27; -1]) with
  | Waiting s =>
      verified s = false
      /\ AccountMenu.people s = [holder "A0001" 5; holder "B0002" 7]
  | Returned people' _ => people' = [holder "A0001" 5; holder "B0002" 7]
  | Exited => True
  | Undefined => False
  end.
Proof.
  apply (displayAccount_locked [holder "A0001" 5; holder "B0002" 7] 0
           (holder "A0001" 5)); reflexivity.
Defined.

End LockFacts.

Module NewAccountFacts.
Import Machine MachineFacts Double Curses CursesFacts Bank BankFacts Transfer.
Import Credential CredentialFacts Opening Persistence PersistenceFacts.
Import Text PickingFacts NewAccount.

(** *** Characters *)

Lemma code_char_of_key (ch : Z) :
  0 <= ch < 256 -> Z.of_N (N_of_ascii (char_of_key ch)) = ch.
Proof.
  intros Hch. unfold char_of_key. rewrite Z.mod_small by lia.
  rewrite N_ascii_embedding by lia. lia.
Qed.

Lemma isalpha_alpha (ch : Z) : isalpha ch = true -> alpha (char_of_key ch).
Proof.
  unfold isalpha, alpha. intros H.
  assert (Hr : 65 <= ch <= 90 \/ 97 <= ch <= 122).
  { apply orb_true_iff in H as [H | H]; apply andb_true_iff in H as [H1 H2];
      apply Z.leb_le in H1, H2; lia. }
  cbv zeta. rewrite code_char_of_key by lia. exact Hr.
Qed.

Lemma is_digit_digit (ch : Z) : is_digit ch = true -> digit (char_of_key ch).
Proof.
  unfold is_digit, digit. intros H. apply andb_true_iff in H as [H1 H2].
  apply Z.leb_le in H1, H2. rewrite code_char_of_key by lia. lia.
Qed.

Lemma isalnum_upper (ch : Z) :
  isalnum ch = true -> upper_alnum (char_of_key (toupper ch)).
Proof.
  intros H. apply isalnum_range in H. unfold upper_alnum, toupper. cbv zeta.
  destruct ((97 <=? ch) && (ch <=? 122)) eqn:E.
  - apply andb_true_iff in E as [E1 E2]. apply Z.leb_le in E1, E2.
    rewrite code_char_of_key by lia. lia.
  - rewrite code_char_of_key by lia.
    apply andb_false_iff in E as [E | E]; apply Z.leb_gt in E; lia.
Qed.

(** *** Strings *)

Lemma chars_append (a b : string) :
  list_ascii_of_string (a ++ b)
  = list_ascii_of_string a ++ list_ascii_of_string b.
Proof. induction a as [| c a IH]; simpl; [reflexivity | rewrite IH; reflexivity]. Qed.

Lemma all_push (P : ascii -> Prop) (b : string) (c : ascii) :
  all P b -> P c -> all P (push b c).
Proof.
  unfold all, push. intros Hb Hc. rewrite chars_append.
  apply Forall_app. split; [exact Hb |]. repeat constructor. exact Hc.
Qed.

Lemma all_chop (P : ascii -> Prop) (b : string) : all P b -> all P (chop b).
Proof.
  unfold all. induction b as [| c b IH]; intros H; [exact H |].
  destruct b as [| c' b']; [constructor |].
  change (chop (String c (String c' b'))) with (String c (chop (String c' b'))).
  simpl list_ascii_of_string in *.
  inversion H; subst. constructor; [assumption |]. apply IH. assumption.
Qed.

Lemma all_empty (P : ascii -> Prop) : all P EmptyString.
Proof. constructor. Qed.

Lemma strlen_chars (a : string) :
  strlen a = Z.of_nat (List.length (list_ascii_of_string a)).
Proof. unfold strlen. rewrite length_list_ascii. reflexivity. Qed.

(** *** Numbers *)

Lemma number_of_from (ds : list ascii) :
  forall n,
  fold_left (fun n c => n * 10 + (Z.of_N (N_of_ascii c) - 48)) ds n
  = n * 10 ^ Z.of_nat (List.length ds) + number_of ds.
Proof.
  unfold number_of. induction ds as [| c ds IH]; intros n.
  - simpl. lia.
  - cbn [fold_left]. rewrite IH, (IH (0 * 10 + _)).
    change (List.length (c :: ds)) with (S (List.length ds)).
    rewrite Nat2Z.inj_succ, Z.pow_succ_r by lia. ring.
Qed.

Lemma number_of_bound (ds : list ascii) :
  Forall digit ds -> 0 <= number_of ds < 10 ^ Z.of_nat (List.length ds).
Proof.
  induction 1 as [| c ds Hc _ IH].
  - unfold number_of. simpl. lia.
  - unfold number_of. cbn [fold_left]. rewrite number_of_from.
    change (List.length (c :: ds)) with (S (List.length ds)).
    rewrite Nat2Z.inj_succ, Z.pow_succ_r by lia. unfold digit in Hc.
    assert (0 < 10 ^ Z.of_nat (List.length ds)) by (apply Z.pow_pos_nonneg; lia).
    nia.
Qed.

Lemma digit_isdigit (c : ascii) : digit c -> isdigit c = true.
Proof.
  unfold digit, isdigit, is_digit. intros H.
  apply andb_true_iff. split; apply Z.leb_le; lia.
Qed.

Lemma span_digits (ds : list ascii) :
  Forall digit ds -> span isdigit ds = (ds, []).
Proof.
  induction 1 as [| c ds Hc _ IH]; [reflexivity |].
  simpl. rewrite (digit_isdigit c Hc), IH. reflexivity.
Qed.

Lemma atoi_digits (b : string) :
  all digit b -> atoi b = number_of (list_ascii_of_string b).
Proof. intros H. unfold atoi. rewrite span_digits by exact H. reflexivity. Qed.

(** [atof] on digits: the double nearest to the number they write. *)
Lemma atof_digits (b : string) :
  all digit b -> b <> EmptyString ->
  atof b = of_ratio false (number_of (list_ascii_of_string b)) 1.
Proof.
  unfold all, atof. intros Hd Hne.
  rewrite (span_digits _ Hd). rewrite app_nil_r.
  destruct b as [| c b]; [contradiction |]. reflexivity.
Qed.

End NewAccountFacts.

Module OpenedFacts.
Import Machine MachineFacts Double Curses CursesFacts Bank BankFacts Transfer.
Import Credential CredentialFacts Opening Persistence Text PickingFacts.
Import NewAccount NewAccountFacts.

Section Opened.
Variables (junk : Account) (people : store).

#[local] Abbreviation Inv := (entered junk).
#[local] Abbreviation Post := (opening junk people).

Lemma entering_chop (k : Z) (b : string) :
  entering k b -> entering k (chop b).
Proof.
  pose proof (strlen_chop b) as Hc. unfold entering.
  repeat match goal with
         | |- context [if ?c then _ else _] => destruct c
         end;
    try (intros [H1 H2]; split; [apply all_chop; exact H1 | lia]);
    apply all_chop.
Qed.

Lemma entering_empty (k : Z) : entering k EmptyString.
Proof.
  unfold entering.
  repeat match goal with
         | |- context [if ?c then _ else _] => destruct c
         end;
    try (split; [apply all_empty | unfold strlen; simpl; lia]);
    apply all_empty.
Qed.

Lemma open_type_ok (f : form) (ch : Z) :
  Inv (Some f) -> Inv (open_type f ch).
Proof.
  intros (Hk & Hf & Hb & Hn). unfold open_type.
  destruct (isalnum ch) eqn:Ealnum; cbn [negb]; [| simpl; auto].
  destruct (validIn f ch) eqn:Ev; [| simpl; auto].
  destruct (49 <=? strlen (buf f)); [exact I |].
  cbn [entered field newPerson buf]. split; [exact Hk |]. split; [exact Hf |].
  split; [| exact Hn].
  pose proof (strlen_push (buf f)) as Hp.
  pose proof (all_push alpha (buf f)) as Ha.
  pose proof (all_push digit (buf f)) as Hd.
  pose proof (all_push upper_alnum (buf f)) as Hu.
  pose proof (isalpha_alpha ch) as Hca.
  pose proof (is_digit_digit ch) as Hcd.
  pose proof (isalnum_upper ch Ealnum) as Hcu.
  unfold validIn in Ev. unfold stored_key, entering in *.
  destruct f as [k p b]. cbn [field newPerson buf] in *.
  assert (Hcase : k = 0 \/ k = 1 \/ k = 2 \/ k = 3 \/ k = 4 \/ k = 5
                  \/ k = 6 \/ k = 7 \/ k = 8) by lia.
  destruct Hcase as [-> | [-> | [-> | [-> | [-> | [-> | [-> | [-> | ->]]]]]]]];
    with_strategy opaque [strlen isalpha is_digit isalnum toupper char_of_key
                          push all]
      (cbn in Ev, Hb |- *).
  - apply Ha; [exact Hb | apply Hca; exact Ev].
  - apply Ha; [exact Hb | apply Hca; exact Ev].
  - destruct (1 <=? strlen b) eqn:E1; [discriminate |].
    apply Z.leb_gt in E1. destruct Hb as [Hb _].
    split; [apply Ha; [exact Hb | apply Hca; exact Ev] | rewrite Hp; lia].
  - apply negb_true_iff, orb_false_iff in Ev as [Ed El].
    apply negb_false_iff in Ed. apply Z.leb_gt in El. destruct Hb as [Hb _].
    split; [apply Hd; [exact Hb | apply Hcd; exact Ed] | rewrite Hp; lia].
  - apply negb_true_iff, orb_false_iff in Ev as [Ed El].
    apply negb_false_iff in Ed. apply Z.leb_gt in El. destruct Hb as [Hb _].
    split; [apply Hd; [exact Hb | apply Hcd; exact Ed] | rewrite Hp; lia].
  - apply negb_true_iff, orb_false_iff in Ev as [Ed El].
    apply negb_false_iff in Ed. apply Z.leb_gt in El. destruct Hb as [Hb _].
    split; [apply Hd; [exact Hb | apply Hcd; exact Ed] | rewrite Hp; lia].
  - destruct (is_digit ch) eqn:Ed; cbn [negb] in Ev.
    + apply Hd; [exact Hb | apply Hcd; reflexivity].
    + apply andb_true_iff in Ev as [Edot _]. apply Z.eqb_eq in Edot.
      subst ch. discriminate Ealnum.
  - apply negb_true_iff, orb_false_iff in Ev as [_ El].
    apply Z.leb_gt in El. destruct Hb as [Hb _].
    split; [apply Hu; [exact Hb | exact Hcu] | rewrite Hp; lia].
  - apply negb_true_iff, orb_false_iff in Ev as [_ El].
    apply Z.leb_gt in El. destruct Hb as [Hb _].
    split; [apply Hu; [exact Hb | exact Hcu] | rewrite Hp; lia].
Qed.

Lemma number_of_digits_bound (b : string) (n : Z) :
  all digit b -> strlen b = n -> 0 <= number_of (list_ascii_of_string b) < 10 ^ n.
Proof.
  intros Hd Hlen. rewrite <- Hlen, strlen_chars. apply number_of_bound. exact Hd.
Qed.

Lemma first_char_alpha (b : string) :
  all alpha b -> strlen b = 1 -> alpha (first_char b).
Proof.
  destruct b as [| c b]; [discriminate |]. intros Ha _.
  inversion Ha; assumption.
Qed.

Ltac fields :=
  unfold set_first, set_last, set_middle, set_social, set_area, set_phone,
         set_balance, set_number, set_password;
  cbn [first last middle social area phone balance number password nameLength].

Lemma open_enter_ok (f : form) :
  Inv (Some f) -> step_ok Inv Post (open_enter people f).
Proof.
  intros (Hk & Hf & Hb & Hn). unfold open_enter.
  destruct f as [k p b]. cbn [field newPerson buf] in *.
  unfold filled in Hf. destruct Hf as (F0 & F1 & F2 & F3 & F4 & F5 & F6 & F7).
  assert (Hcase : k = 0 \/ k = 1 \/ k = 2 \/ k = 3 \/ k = 4 \/ k = 5
                  \/ k = 6 \/ k = 7 \/ k = 8) by lia.
  unfold entering in Hb.
  destruct Hcase as [-> | [-> | [-> | [-> | [-> | [-> | [-> | [-> | ->]]]]]]]];
    with_strategy opaque [strlen all atoi atof u32 openAccount_insert]
      (cbn in Hb |- *).
  - destruct (strlen b <? 3) eqn:E.
    + cbn [step_ok entered field newPerson buf]. split; [lia |]. split; [| split; [exact Hb | exact Hn]].
      unfold filled. repeat split; intros; lia.
    + apply Z.ltb_ge in E. unfold next_field. cbn [step_ok entered field newPerson buf].
      split; [lia |]. split; [| split; [apply entering_empty | exact Hn]].
      unfold filled. fields. repeat split; intros; try lia; assumption.
  - destruct (strlen b <? 3) eqn:E.
    + cbn [step_ok entered field newPerson buf]. split; [lia |]. split; [| split; [exact Hb | exact Hn]].
      unfold filled. repeat split; intros; try lia; apply F0; lia.
    + apply Z.ltb_ge in E. unfold next_field. cbn [step_ok entered field newPerson buf].
      split; [lia |]. split; [| split; [apply entering_empty | exact Hn]].
      unfold filled. fields.
      repeat split; intros; try lia; try assumption; apply F0; lia.
  - destruct Hb as [Hb Hl]. destruct (strlen b =? 1) eqn:E; cbn [negb].
    + apply Z.eqb_eq in E. unfold next_field. cbn [step_ok entered field newPerson buf].
      split; [lia |]. split; [| split; [apply entering_empty | exact Hn]].
      unfold filled. fields.
      repeat split; intros; try lia;
        try (apply F0; lia); try (apply F1; lia).
      apply first_char_alpha; assumption.
    + cbn [step_ok entered field newPerson buf]. split; [lia |]. split; [| split; [split; assumption | exact Hn]].
      unfold filled.
      repeat split; intros; try lia; try (apply F0; lia); try (apply F1; lia).
  - destruct Hb as [Hb Hl]. destruct (strlen b =? 9) eqn:E; cbn [negb].
    + apply Z.eqb_eq in E. unfold next_field. cbn [step_ok entered field newPerson buf].
      split; [lia |]. split; [| split; [apply entering_empty | exact Hn]].
      pose proof (number_of_digits_bound b 9 Hb E) as Hnum.
      unfold filled. fields.
      repeat split; intros; try lia;
        try (apply F0; lia); try (apply F1; lia); try (apply F2; lia);
        rewrite atoi_digits by exact Hb; rewrite u32_small; lia.
    + cbn [step_ok entered field newPerson buf]. split; [lia |]. split; [| split; [split; assumption | exact Hn]].
      unfold filled.
      repeat split; intros; try lia;
        try (apply F0; lia); try (apply F1; lia); try (apply F2; lia).
  - destruct Hb as [Hb Hl]. destruct (strlen b =? 3) eqn:E; cbn [negb].
    + apply Z.eqb_eq in E. unfold next_field. cbn [step_ok entered field newPerson buf].
      split; [lia |]. split; [| split; [apply entering_empty | exact Hn]].
      pose proof (number_of_digits_bound b 3 Hb E) as Hnum.
      unfold filled. fields.
      repeat split; intros; try lia;
        try (apply F0; lia); try (apply F1; lia); try (apply F2; lia);
        try (apply F3; lia);
        rewrite atoi_digits by exact Hb; rewrite u32_small; lia.
    + cbn [step_ok entered field newPerson buf]. split; [lia |]. split; [| split; [split; assumption | exact Hn]].
      unfold filled.
      repeat split; intros; try lia;
        try (apply F0; lia); try (apply F1; lia); try (apply F2; lia);
        try (apply F3; lia).
  - destruct Hb as [Hb Hl]. destruct (strlen b =? 7) eqn:E; cbn [negb].
    + apply Z.eqb_eq in E. unfold next_field. cbn [step_ok entered field newPerson buf].
      split; [lia |]. split; [| split; [apply entering_empty | exact Hn]].
      pose proof (number_of_digits_bound b 7 Hb E) as Hnum.
      unfold filled. fields.
      repeat split; intros; try lia;
        try (apply F0; lia); try (apply F1; lia); try (apply F2; lia);
        try (apply F3; lia); try (apply F4; lia);
        rewrite atoi_digits by exact Hb; rewrite u32_small; lia.
    + cbn [step_ok entered field newPerson buf]. split; [lia |]. split; [| split; [split; assumption | exact Hn]].
      unfold filled.
      repeat split; intros; try lia;
        try (apply F0; lia); try (apply F1; lia); try (apply F2; lia);
        try (apply F3; lia); try (apply F4; lia).
  - destruct (strlen b =? 0) eqn:E.
    + cbn [step_ok entered field newPerson buf]. split; [lia |]. split; [| split; [exact Hb | exact Hn]].
      unfold filled.
      repeat split; intros; try lia;
        try (apply F0; lia); try (apply F1; lia); try (apply F2; lia);
        try (apply F3; lia); try (apply F4; lia); try (apply F5; lia).
    + apply Z.eqb_neq in E. unfold next_field. cbn [step_ok entered field newPerson buf].
      split; [lia |]. split; [| split; [apply entering_empty | exact Hn]].
      unfold filled. fields.
      repeat split; intros; try lia;
        try (apply F0; lia); try (apply F1; lia); try (apply F2; lia);
        try (apply F3; lia); try (apply F4; lia); try (apply F5; lia).
      exists (number_of (list_ascii_of_string b)). split.
      * rewrite strlen_chars in E. apply (number_of_bound _ Hb).
      * apply atof_digits; [exact Hb |]. intros ->. apply E. reflexivity.
  - destruct Hb as [Hb Hl]. destruct (strlen b =? 5) eqn:E; cbn [negb].
    + apply Z.eqb_eq in E. unfold next_field. cbn [step_ok entered field newPerson buf].
      split; [lia |]. split; [| split; [apply entering_empty | exact Hn]].
      unfold filled. fields.
      repeat split; intros; try lia; try assumption;
        try (apply F0; lia); try (apply F1; lia); try (apply F2; lia);
        try (apply F3; lia); try (apply F4; lia); try (apply F5; lia);
        try (apply F6; lia).
    + cbn [step_ok entered field newPerson buf]. split; [lia |]. split; [| split; [split; assumption | exact Hn]].
      unfold filled.
      repeat split; intros; try lia;
        try (apply F0; lia); try (apply F1; lia); try (apply F2; lia);
        try (apply F3; lia); try (apply F4; lia); try (apply F5; lia);
        try (apply F6; lia).
  - destruct Hb as [Hb Hl]. unfold openAccount_insert.
    destruct (strlen b =? 6) eqn:E; cbn [negb step_ok].
    + apply Z.eqb_eq in E. right. exists (Opening.set_password p b).
      split; [| split; [exact Hn | reflexivity]].
      unfold opened, filled. unfold Opening.set_password. fields.
      repeat split; intros; try lia; try assumption;
        try (apply F0; lia); try (apply F1; lia); try (apply F2; lia);
        try (apply F3; lia); try (apply F4; lia); try (apply F5; lia);
        try (apply F6; lia); try (apply F7; lia).
    + cbn [step_ok entered field newPerson buf]. split; [lia |]. split; [| split; [split; assumption | exact Hn]].
      unfold filled.
      repeat split; intros; try lia;
        try (apply F0; lia); try (apply F1; lia); try (apply F2; lia);
        try (apply F3; lia); try (apply F4; lia); try (apply F5; lia);
        try (apply F6; lia); try (apply F7; lia).
Qed.

Lemma open_key_ok (ch : Z) (s : option form) :
  Inv s -> step_ok Inv Post (open_key people ch s).
Proof.
  intros Hs. unfold open_key. destruct s as [f |]; [| exact I].
  destruct (ch =? 3); [exact I |].
  destruct (ch =? KEY_BACKSPACE).
  { destruct Hs as (Hk & Hf & Hb & Hn). cbn [step_ok entered field newPerson buf].
    split; [exact Hk |]. split; [exact Hf |]. split; [| exact Hn].
    destruct (negb (strlen (buf f) =? 0)); [apply entering_chop |]; exact Hb. }
  destruct (is_enter ch); [apply open_enter_ok; exact Hs |].
  cbn [step_ok]. apply open_type_ok. exact Hs.
Qed.

Lemma openAccount_ok (input : list Z) :
  run_ok Inv Post
    (menu_loop id (open_key people) (open_escape people) input
               (Some (mkForm 0 junk EmptyString))).
Proof.
  apply menu_loop_invariant.
  - intros s Hs. exact Hs.
  - apply open_key_ok.
  - intros [f |] Hs; simpl; [left; reflexivity | exact I].
  - cbn [entered field newPerson buf]. split; [lia |].
    split; [| split; [apply entering_empty | reflexivity]].
    unfold filled. repeat split; intros; lia.
Qed.

End Opened.


End OpenedFacts.

Module TypedFacts.
Import Machine MachineFacts Double Curses CursesFacts Bank BankFacts Transfer.
Import Credential CredentialFacts Opening Persistence PersistenceFacts.
Import Text PickingFacts NewAccount NewAccountFacts.

Lemma alpha_isalpha (c : ascii) :
  alpha c -> isalpha (Z.of_N (N_of_ascii c)) = true.
Proof.
  unfold alpha, isalpha. cbv zeta. intros [H | H]; apply orb_true_iff;
    [left | right]; apply andb_true_iff; split; apply Z.leb_le; lia.
Qed.

Lemma alpha_isalnum (c : ascii) :
  alpha c -> isalnum (Z.of_N (N_of_ascii c)) = true.
Proof.
  unfold alpha, isalnum. cbv zeta. intros [H | H]; apply orb_true_iff.
  - left. apply orb_true_iff. right. apply andb_true_iff;
      split; apply Z.leb_le; lia.
  - right. apply andb_true_iff; split; apply Z.leb_le; lia.
Qed.

Lemma digit_is_digit (c : ascii) :
  digit c -> is_digit (Z.of_N (N_of_ascii c)) = true.
Proof.
  unfold digit, is_digit. intros H. apply andb_true_iff; split; apply Z.leb_le; lia.
Qed.

Lemma digit_isalnum (c : ascii) :
  digit c -> isalnum (Z.of_N (N_of_ascii c)) = true.
Proof.
  intros H. unfold isalnum. rewrite (digit_is_digit c H). reflexivity.
Qed.

Lemma strchr_push_digit (b : string) (c : ascii) :
  digit c -> strchr b "." = None -> strchr (push b c) "." = None.
Proof.
  intros Hc. unfold push. induction b as [| x b IH]; simpl.
  - intros _. destruct (Ascii.eqb c ".") eqn:E; [| reflexivity].
    apply Ascii.eqb_eq in E. subst c. unfold digit in Hc. simpl in Hc. lia.
  - destruct (Ascii.eqb x "."); [discriminate |].
    destruct (strchr b ".") eqn:E; [discriminate |].
    intros _. rewrite IH; reflexivity.
Qed.

Ltac tests :=
  with_strategy opaque [strlen isalpha is_digit isalnum toupper char_of_key
                        push strchr u32 atoi atof openAccount_insert]
    cbn.

Section Typed.
Variable people : store.

(** Characters the field takes, typed one after the other. *)
Lemma open_typed (k : Z) (p : Account) (P : ascii -> Prop)
    (stored : ascii -> ascii) (st : string -> string) (cap : Z)
    (good : string -> Prop) :
  st EmptyString = EmptyString ->
  (forall c w, st (String c w) = String (stored c) (st w)) ->
  (forall c, P c -> isalnum (Z.of_N (N_of_ascii c)) = true) ->
  (forall c b, P c -> good b -> strlen b < cap -> strlen b < 49 ->
     open_type (mkForm k p b) (Z.of_N (N_of_ascii c))
     = Some (mkForm k p (push b (stored c)))
     /\ good (push b (stored c))) ->
  forall word pre rest,
  Forall P (list_ascii_of_string word) -> good pre ->
  strlen pre + strlen word <= cap -> strlen pre + strlen word <= 49 ->
  menu_loop id (open_key people) (open_escape people) (keys word ++ rest)
            (Some (mkForm k p pre))
  = menu_loop id (open_key people) (open_escape people) rest
              (Some (mkForm k p (pre ++ st word))).
Proof.
  intros Hst0 Hst Halnum Htype.
  induction word as [| c word IH]; intros pre rest HP Hgood Hcap H49.
  - rewrite Hst0, append_empty. reflexivity.
  - unfold keys in *. simpl list_ascii_of_string in *. simpl map.
    inversion HP as [| ? ? Hc HP']; subst.
    pose proof (isalnum_range _ (Halnum c Hc)) as Hr.
    rewrite strlen_String in Hcap, H49.
    pose proof (strlen_nonneg word) as Hw.
    simpl app. cbn [menu_loop].
    replace (Z.of_N (N_of_ascii c) =? 27) with false
      by (symmetry; apply Z.eqb_neq; lia).
    unfold id at 1. unfold open_key at 1.
    replace (Z.of_N (N_of_ascii c) =? 3) with false
      by (symmetry; apply Z.eqb_neq; lia).
    replace (Z.of_N (N_of_ascii c) =? KEY_BACKSPACE) with false
      by (symmetry; apply Z.eqb_neq; unfold KEY_BACKSPACE; lia).
    replace (is_enter (Z.of_N (N_of_ascii c))) with false
      by (symmetry; unfold is_enter, KEY_ENTER; apply orb_false_iff;
          split; apply Z.eqb_neq; lia).
    destruct (Htype c pre Hc Hgood ltac:(lia) ltac:(lia)) as [-> Hgood'].
    rewrite (IH (push pre (stored c)) rest HP' Hgood')
      by (rewrite strlen_push; lia).
    rewrite Hst, push_append. reflexivity.
Qed.

Lemma type_alpha (k : Z) (p : Account) (c : ascii) (b : string) :
  k = 0 \/ k = 1 -> alpha c -> strlen b < 49 ->
  open_type (mkForm k p b) (Z.of_N (N_of_ascii c))
  = Some (mkForm k p (push b c)).
Proof.
  intros Hk Hc Hlen. unfold open_type, validIn, stored_key.
  rewrite (alpha_isalnum c Hc).
  replace (49 <=? strlen (buf (mkForm k p b))) with false
    by (symmetry; apply Z.leb_gt; exact Hlen).
  destruct Hk as [-> | ->]; tests; rewrite (alpha_isalpha c Hc);
    rewrite char_of_key_code; reflexivity.
Qed.

Lemma type_middle (p : Account) (c : ascii) (b : string) :
  alpha c -> strlen b < 1 ->
  open_type (mkForm 2 p b) (Z.of_N (N_of_ascii c))
  = Some (mkForm 2 p (push b c)).
Proof.
  intros Hc Hlen. unfold open_type, validIn, stored_key.
  rewrite (alpha_isalnum c Hc).
  replace (49 <=? strlen (buf (mkForm 2 p b))) with false
    by (symmetry; apply Z.leb_gt; cbn [buf]; lia).
  tests. replace (1 <=? strlen b) with false by (symmetry; apply Z.leb_gt; lia).
  rewrite (alpha_isalpha c Hc), char_of_key_code. reflexivity.
Qed.

Lemma type_digit (k cap : Z) (p : Account) (c : ascii) (b : string) :
  (k = 3 /\ cap = 9) \/ (k = 4 /\ cap = 3) \/ (k = 5 /\ cap = 7) ->
  digit c -> strlen b < cap ->
  open_type (mkForm k p b) (Z.of_N (N_of_ascii c))
  = Some (mkForm k p (push b c)).
Proof.
  intros Hk Hc Hlen. unfold open_type, validIn, stored_key.
  rewrite (digit_isalnum c Hc).
  replace (49 <=? strlen (buf (mkForm k p b))) with false
    by (symmetry; apply Z.leb_gt; cbn [buf]; lia).
  destruct Hk as [[-> ->] | [[-> ->] | [-> ->]]]; tests;
    rewrite (digit_is_digit c Hc); cbn [negb orb];
    match goal with
    | |- context [?n <=? strlen b] =>
        replace (n <=? strlen b) with false by (symmetry; apply Z.leb_gt; lia)
    end;
    cbn [negb]; rewrite char_of_key_code; reflexivity.
Qed.

Lemma type_balance (p : Account) (c : ascii) (b : string) :
  digit c -> strchr b "." = None -> strlen b < 49 ->
  open_type (mkForm 6 p b) (Z.of_N (N_of_ascii c))
  = Some (mkForm 6 p (push b c)).
Proof.
  intros Hc Hdot Hlen. unfold open_type, validIn, stored_key.
  rewrite (digit_isalnum c Hc).
  replace (49 <=? strlen (buf (mkForm 6 p b))) with false
    by (symmetry; apply Z.leb_gt; cbn [buf]; lia).
  tests. rewrite (digit_is_digit c Hc). cbn [negb]. rewrite Hdot.
  rewrite char_of_key_code. reflexivity.
Qed.

Lemma type_upper (k cap : Z) (p : Account) (c : ascii) (b : string) :
  (k = 7 /\ cap = 5) \/ (k = 8 /\ cap = 6) ->
  alnum c -> strlen b < cap ->
  open_type (mkForm k p b) (Z.of_N (N_of_ascii c))
  = Some (mkForm k p (push b (upper_char c))).
Proof.
  unfold alnum. intros Hk Hc Hlen. unfold open_type, validIn, stored_key.
  rewrite Hc.
  replace (49 <=? strlen (buf (mkForm k p b))) with false
    by (symmetry; apply Z.leb_gt; cbn [buf]; lia).
  destruct Hk as [[-> ->] | [-> ->]]; tests; rewrite ?Hc; cbn [negb orb];
    match goal with
    | |- context [?n <=? strlen b] =>
        replace (n <=? strlen b) with false by (symmetry; apply Z.leb_gt; lia)
    end;
    reflexivity.
Qed.

(** Enter on a field that is complete. *)
Lemma open_entered (f : form) (rest : list Z) (s : option form) :
  open_enter people f = Continue s ->
  menu_loop id (open_key people) (open_escape people) (10 :: rest) (Some f)
  = menu_loop id (open_key people) (open_escape people) rest s.
Proof.
  intros H. cbn [menu_loop]. change (10 =? 27) with false. cbv iota.
  unfold id at 1. unfold open_key at 1.
  change (10 =? 3) with false. change (10 =? KEY_BACKSPACE) with false.
  change (is_enter 10) with true. cbv iota. rewrite H. reflexivity.
Qed.

End Typed.


(** Once [buf] has lost its terminating zero nothing is defined. *)
Lemma open_overrun_stays (people : store) (input : list Z) :
  menu_loop id (open_key people) (open_escape people) input None
  = Waiting None.
Proof.
  induction input as [input IH] using (induction_ltof1 _ (@List.length Z)).
  unfold ltof in IH.
  destruct input as [| ch input]; [reflexivity |].
  cbn [menu_loop]. destruct (ch =? 27).
  - destruct input as [| peek rest1]; [reflexivity |].
    destruct (peek =? -1).
    + cbn [open_escape id]. apply IH. simpl. lia.
    + destruct rest1 as [| a [| b [| c rest2]]]; try reflexivity.
      apply IH. simpl. lia.
  - cbn [open_key id]. apply IH. simpl. lia.
Qed.

(** [openAccount] puts no bound on the length of a name: the fiftieth
    letter typed into the first field takes the place of the last zero
    of [buf], and what follows is undefined, whatever it is. *)
Theorem openAccount_overruns_buf (junk : Account) (people : store)
    (word : string) (c : ascii) (more : list Z) :
  all alpha word -> strlen word = 49 -> alpha c ->
  openAccount junk people (keys word ++ Z.of_N (N_of_ascii c) :: more)
  = Undefined.
Proof.
  intros Hw Hlen Hc. unfold openAccount.
  rewrite (open_typed people 0 junk alpha (fun c => c) (fun w => w) 49
             (fun _ => True) eq_refl (fun _ _ => eq_refl) alpha_isalnum)
    with (word := word);
    [| intros c0 b Hc0 _ Hb _; split; [apply type_alpha; auto | exact I]
     | exact Hw | exact I | change (strlen "") with 0; lia
     | change (strlen "") with 0; lia].
  change ("" ++ word)%string with word.
  pose proof (isalnum_range _ (alpha_isalnum c Hc)) as Hr.
  cbn [menu_loop].
  replace (Z.of_N (N_of_ascii c) =? 27) with false
    by (symmetry; apply Z.eqb_neq; lia).
  unfold id at 1. unfold open_key at 1.
  replace (Z.of_N (N_of_ascii c) =? 3) with false
    by (symmetry; apply Z.eqb_neq; lia).
  replace (Z.of_N (N_of_ascii c) =? KEY_BACKSPACE) with false
    by (symmetry; apply Z.eqb_neq; unfold KEY_BACKSPACE; lia).
  replace (is_enter (Z.of_N (N_of_ascii c))) with false
    by (symmetry; unfold is_enter, KEY_ENTER; apply orb_false_iff;
        split; apply Z.eqb_neq; lia).
  unfold open_type, validIn. rewrite (alpha_isalnum c Hc).
  cbn [negb field buf]. change (0 =? 2) with false.
  change ((0 =? 0) || (0 =? 1)) with true. cbv iota.
  rewrite (alpha_isalpha c Hc).
  replace (49 <=? strlen word) with true by (symmetry; apply Z.leb_le; lia).
  rewrite open_overrun_stays. reflexivity.
Qed.

(** Fifty letters. *)
Lemma openAccount_overruns_buf_witness :
  openAccount (holder "ZZZZZ" 7) []
    (keys "abcdefghijklmnopqrstuvwxyzabcdefghijklmnopqrstuvw"
     ++ Z.of_N (N_of_ascii "x") :: [])
  = Undefined.
Proof.
  apply (openAccount_overruns_buf (holder "ZZZZZ" 7) []
           "abcdefghijklmnopqrstuvwxyzabcdefghijklmnopqrstuvw" "x" []).
  - unfold all; simpl.
    repeat (constructor; [unfold alpha; simpl; lia |]). constructor.
  - reflexivity.
  - unfold alpha; simpl; lia.
Defined.

End TypedFacts.

Module NavigationFacts.
Import Machine MachineFacts Curses Viewport ViewportFacts.

Section FixedTerminal.
Variables size h : Z.
Hypothesis Hsize : 1 <= size < 2 ^ 32.
Hypothesis Hh : 0 <= h < 2 ^ 32.
Hypothesis H6 : h <> 6.

(** The up arrow selects the record before, and the last from the first. *)
Lemma key_up_cases (v : view) :
  in_window size (numRows h) v ->
  selected (key_up size h v)
  = if cursorPos v + windowPos v =? 0 then size - 1
    else cursorPos v + windowPos v - 1.
Proof.
  pose proof (numRows_bounds h Hh H6) as HR.
  intros (Hc & Hw & Hi & Hf). unfold key_up, selected.
  destruct v as [c w]; simpl in *.
  destruct (c =? 0) eqn:E0; simpl.
  - apply Z.eqb_eq in E0. subst c. rewrite Z.add_0_l.
    destruct (size <=? numRows h) eqn:E1.
    + apply Z.leb_le in E1. simpl. assert (w = 0) by lia. subst w.
      rewrite (u64_small (size - 1)), (u32_small (size - 1)) by lia.
      simpl. rewrite u32_small by lia. lia.
    + apply Z.leb_gt in E1.
      destruct (w =? 0) eqn:E2; simpl.
      * apply Z.eqb_eq in E2. subst w.
        rewrite (u32_small (numRows h - 1)) by lia.
        rewrite (u64_small (size - (numRows h - 1))) by lia.
        rewrite (u64_small (size - (numRows h - 1) - 1)) by lia.
        rewrite (u32_small (size - (numRows h - 1) - 1)) by lia.
        rewrite u32_small by lia. lia.
      * apply Z.eqb_neq in E2. rewrite (u32_small (w - 1)) by lia.
        rewrite u32_small by lia. lia.
  - apply Z.eqb_neq in E0. rewrite (u32_small (c - 1)) by lia.
    replace (c + w =? 0) with false by (symmetry; apply Z.eqb_neq; lia).
    rewrite u32_small by lia. lia.
Qed.

(** One more arrow after a sequence of arrows. *)
Lemma arrow_after (evs : list event) :
  Forall arrow evs ->
  let s := menu_run size h evs in
  in_window size (numRows h) (pos s)
  /\ menu_run size h (evs ++ [MoveUp]) = Screen h (key_up size h (pos s))
  /\ menu_run size h (evs ++ [MoveDown]) = Screen h (key_down size h (pos s)).
Proof.
  intros Hevs. cbv zeta.
  destruct (arrows_in_window size h Hsize Hh H6 evs (Screen h (View 0 0)) Hevs)
    as [Hr Hin]; [reflexivity | apply start_in_window; assumption |].
  fold (menu_run size h evs) in Hr, Hin.
  split; [exact Hin |].
  unfold menu_run. rewrite !fold_left_app. fold (menu_run size h evs).
  cbn [fold_left]. unfold menu_iter, MoveUp, MoveDown. rewrite Hr.
  rewrite (layout_in_window size h Hsize Hh H6 _ Hin).
  split; reflexivity.
Qed.
End FixedTerminal.

(** The arrows on the selection.  On a store of [size] records,
    [1 <= size < 2^32], and a terminal whose height is not six rows,
    after any sequence of arrows: the up arrow selects the record before
    the selected one, and the last record from the first; the down
    arrow selects the record after, and the first from the last; so
    that each undoes the other. *)
Theorem arrows_step_and_undo (size h : Z) (evs : list event) :
  1 <= size < 2 ^ 32 -> 0 <= h < 2 ^ 32 -> h <> 6 ->
  Forall arrow evs ->
  let s := selected (pos (menu_run size h evs)) in
  selected (pos (menu_run size h (evs ++ [MoveUp])))
  = (if s =? 0 then size - 1 else s - 1)
  /\ selected (pos (menu_run size h (evs ++ [MoveDown])))
     = (if s =? size - 1 then 0 else s + 1)
  /\ selected (pos (menu_run size h (evs ++ [MoveDown; MoveUp]))) = s
  /\ selected (pos (menu_run size h (evs ++ [MoveUp; MoveDown]))) = s.
Proof.
  intros Hsize Hh H6 Hevs. cbv zeta.
  assert (Hstep : forall evs, Forall arrow evs ->
    let s := selected (pos (menu_run size h evs)) in
    0 <= s <= size - 1
    /\ selected (pos (menu_run size h (evs ++ [MoveUp])))
       = (if s =? 0 then size - 1 else s - 1)
    /\ selected (pos (menu_run size h (evs ++ [MoveDown])))
       = (if s =? size - 1 then 0 else s + 1)).
  { clear evs Hevs. intros evs Hevs. cbv zeta.
    destruct (arrow_after size h Hsize Hh H6 evs Hevs) as (Hin & Hup & Hdown).
    rewrite Hup, Hdown. cbn [pos].
    destruct (selected_in_window size h Hsize _ Hin) as [Heq Hrange].
    rewrite (key_up_cases size h Hsize Hh H6 _ Hin).
    destruct (key_down_cases size h Hsize Hh H6 _ Hin) as [_ ->].
    rewrite Heq in Hrange |- *.
    split; [exact Hrange | split; reflexivity]. }
  destruct (Hstep evs Hevs) as (Hs & Hup & Hdown).
  split; [exact Hup |]. split; [exact Hdown |].
  assert (Hevs_up : Forall arrow (evs ++ [MoveUp])).
  { apply Forall_app. split; [exact Hevs |].
    constructor; [left; reflexivity | constructor]. }
  assert (Hevs_down : Forall arrow (evs ++ [MoveDown])).
  { apply Forall_app. split; [exact Hevs |].
    constructor; [right; reflexivity | constructor]. }
  destruct (Hstep _ Hevs_up) as (Hs1 & _ & Hdown1).
  destruct (Hstep _ Hevs_down) as (Hs2 & Hup2 & _).
  rewrite <- !app_assoc in Hdown1, Hup2. cbn [app] in Hdown1, Hup2.
  rewrite Hup2, Hdown1, Hup, Hdown.
  set (s := selected (pos (menu_run size h evs))) in *.
  split.
  - destruct (s =? size - 1) eqn:E.
    + apply Z.eqb_eq in E. change (0 =? 0) with true. cbv iota. lia.
    + apply Z.eqb_neq in E.
      replace (s + 1 =? 0) with false by (symmetry; apply Z.eqb_neq; lia). lia.
  - destruct (s =? 0) eqn:E.
    + apply Z.eqb_eq in E. rewrite Z.eqb_refl. lia.
    + apply Z.eqb_neq in E.
      replace (s - 1 =? size - 1) with false
        by (symmetry; apply Z.eqb_neq; lia). lia.
Qed.

(** Five records on twenty rows, after two down arrows. *)
Lemma arrows_step_and_undo_witness :
  let s := selected (pos (menu_run 5 20 [MoveDown; MoveDown])) in
  selected (pos (menu_run 5 20 ([MoveDown; MoveDown] ++ [MoveUp])))
  = (if s =? 0 then 5 - 1 else s - 1)
  /\ selected (pos (menu_run 5 20 ([MoveDown; MoveDown] ++ [MoveDown])))
     = (if s =? 5 - 1 then 0 else s + 1)
  /\ selected (pos (menu_run 5 20 ([MoveDown; MoveDown] ++ [MoveDown; MoveUp])))
     = s
  /\ selected (pos (menu_run 5 20 ([MoveDown; MoveDown] ++ [MoveUp; MoveDown])))
     = s.
Proof.
  apply (arrows_step_and_undo 5 20 [MoveDown; MoveDown]); try lia.
  repeat constructor; right; reflexivity.
Defined.

(** A resize and the selection.  After any sequence of arrows on a
    terminal of [h] rows, the terminal is resized to [h'] rows (neither
    is six).  If the cursor's row fits the new window, or the window
    has to be refitted (the store has fewer records than the window has
    rows, or the window reaches past the last record), Enter selects
    the record that was selected, and the cursor is in the window.
    Otherwise, the cursor being at or below the end of a window that
    needs no refitting, line 115 moves the window and not the cursor:
    Enter selects the record [cursorPos - numRows + 1] places further
    down. *)
Theorem resize_and_selection (size h h' : Z) (evs : list event) :
  1 <= size < 2 ^ 32 -> 0 <= h < 2 ^ 32 -> h <> 6 ->
  0 <= h' < 2 ^ 32 -> h' <> 6 ->
  Forall arrow evs ->
  let v := pos (menu_run size h evs) in
  let s' := menu_run size h (evs ++ [Resized h']) in
  (cursorPos v < numRows h' \/ size < numRows h'
   \/ size - numRows h' < windowPos v ->
   selected_on_enter size s' = selected v
   /\ in_window size (numRows h') (layout size h' (pos s')))
  /\ (numRows h' <= cursorPos v -> numRows h' <= size ->
      windowPos v <= size - numRows h' ->
      selected_on_enter size s'
      = u32 (selected v + (cursorPos v - numRows h' + 1))).
Proof.
  intros Hsize Hh H6 Hh' H6' Hevs. cbv zeta.
  destruct (arrows_in_window size h Hsize Hh H6 evs (Screen h (View 0 0)) Hevs)
    as [Hr Hin]; [reflexivity | apply start_in_window; assumption |].
  fold (menu_run size h evs) in Hr, Hin.
  assert (Hs' : menu_run size h (evs ++ [Resized h'])
                = Screen h' (pos (menu_run size h evs))).
  { unfold menu_run. rewrite fold_left_app. fold (menu_run size h evs).
    cbn [fold_left]. unfold menu_iter. rewrite Hr.
    rewrite (layout_in_window size h Hsize Hh H6 _ Hin). reflexivity. }
  rewrite Hs'. unfold selected_on_enter. cbn [rows pos].
  destruct (selected_in_window size h Hsize _ Hin) as [Heq _].
  rewrite Heq. clear Heq Hs' Hr.
  pose proof (numRows_bounds h Hh H6) as HR.
  pose proof (numRows_bounds h' Hh' H6') as HR'.
  destruct Hin as (Hc & Hw & Hi & Hf).
  destruct (pos (menu_run size h evs)) as [c w]. cbn [cursorPos windowPos] in *.
  unfold layout, fit_window, follow_cursor, selected, in_window.
  cbn [cursorPos windowPos].
  split.
  - intros Hfit.
    destruct (size <? numRows h') eqn:E1.
    + apply Z.ltb_lt in E1. cbn [cursorPos windowPos].
      rewrite (u32_small (c + w)) by lia.
      replace (numRows h' <=? c + w) with false
        by (symmetry; apply Z.leb_gt; lia).
      cbn [cursorPos windowPos]. rewrite u32_small by lia. lia.
    + apply Z.ltb_ge in E1. rewrite (u64_small (size - numRows h')) by lia.
      destruct (size - numRows h' <? w) eqn:E2.
      * apply Z.ltb_lt in E2. cbn [cursorPos windowPos].
        rewrite (u64_small (w - (size - numRows h'))) by lia.
        rewrite (u64_small (c + (w - (size - numRows h')))) by lia.
        rewrite (u32_small (c + (w - (size - numRows h')))) by lia.
        rewrite (u32_small (size - numRows h')) by lia.
        replace (numRows h' <=? c + (w - (size - numRows h'))) with false
          by (symmetry; apply Z.leb_gt; lia).
        cbn [cursorPos windowPos]. rewrite u32_small by lia. lia.
      * apply Z.ltb_ge in E2. cbn [cursorPos windowPos].
        replace (numRows h' <=? c) with false
          by (symmetry; apply Z.leb_gt; lia).
        cbn [cursorPos windowPos]. rewrite u32_small by lia. lia.
  - intros Hbelow Hfits Hkeeps.
    replace (size <? numRows h') with false by (symmetry; apply Z.ltb_ge; lia).
    rewrite (u64_small (size - numRows h')) by lia.
    replace (size - numRows h' <? w) with false
      by (symmetry; apply Z.ltb_ge; lia).
    cbn [cursorPos windowPos].
    replace (numRows h' <=? c) with true by (symmetry; apply Z.leb_le; lia).
    cbn [cursorPos windowPos].
    rewrite (u32_small (c - numRows h')) by lia.
    rewrite (u32_small (c - numRows h' + 1)) by lia.
    unfold u32. rewrite Z.add_mod_idemp_l by lia. f_equal. lia.
Qed.

(** Ten records on sixteen rows, the cursor on the last one: a resize
    to thirty rows keeps the selection, a resize to eleven rows loses
    it. *)
Lemma resize_and_selection_witness :
  (selected_on_enter 10 (menu_run 10 16 ([MoveUp] ++ [Resized 30]))
   = selected (pos (menu_run 10 16 [MoveUp]))
   /\ in_window 10 (numRows 30)
        (layout 10 30 (pos (menu_run 10 16 ([MoveUp] ++ [Resized 30])))))
  /\ selected_on_enter 10 (menu_run 10 16 ([MoveUp] ++ [Resized 11]))
     = u32 (selected (pos (menu_run 10 16 [MoveUp]))
            + (cursorPos (pos (menu_run 10 16 [MoveUp])) - numRows 11 + 1)).
Proof.
  split.
  - refine (proj1 (resize_and_selection 10 16 30 [MoveUp] _ _ _ _ _ _) _);
      try lia.
    + repeat constructor; left; reflexivity.
    + left. reflexivity.
  - refine (proj2 (resize_and_selection 10 16 11 [MoveUp] _ _ _ _ _ _) _ _ _);
      try lia.
    + repeat constructor; left; reflexivity.
    + vm_compute. discriminate.
    + vm_compute. discriminate.
    + vm_compute. discriminate.
Defined.

End NavigationFacts.

Module AmountFacts.
Import Machine Double DoubleFacts Curses CursesFacts Bank Entry EntryFacts Amounts.

(** *** Whole doubles *)

Lemma to_ll_of_int (n : Z) : 0 <= n < 2 ^ 53 -> to_ll (of_int n) = n.
Proof.
  intros H. destruct n as [| p | p]; [reflexivity | | lia].
  unfold to_ll. rewrite Prim2SF_of_int by lia. unfold canon.
  destruct H as [_ H]. pose proof H as Hs. apply size_bound in Hs.
  set (k := Zpos (Pos.size p)) in *.
  assert (Hk : 0 < k) by (unfold k; lia).
  rewrite shiftl_Z, Z2N.id by lia.
  assert (Ha : (if 0 <=? k - 53 then Zpos p * 2 ^ (53 - k) * 2 ^ (k - 53)
                else Zpos p * 2 ^ (53 - k) / 2 ^ (- (k - 53))) = Zpos p).
  { destruct (0 <=? k - 53) eqn:E.
    - apply Z.leb_le in E. replace k with 53 by lia.
      change (2 ^ (53 - 53)) with 1. lia.
    - replace (- (k - 53)) with (53 - k) by lia.
      apply Z.div_mul. apply Z.pow_nonzero; lia. }
  rewrite Ha. unfold LLONG_MIN.
  replace ((- 2 ^ 63 <=? Zpos p) && (Zpos p <? 2 ^ 63)) with true; [reflexivity |].
  symmetry. apply andb_true_iff. split; [apply Z.leb_le | apply Z.ltb_lt]; lia.
Qed.

Lemma numPlaces_small (i : Z) :
  0 <= i < 10 ^ 11 -> (12 <=? numPlaces i) = false.
Proof.
  intros Hi. unfold numPlaces.
  replace (i <? 0) with false by (symmetry; apply Z.ltb_ge; lia).
  pose proof (numPlaces_loop_digits 20 i 1 11) as H.
  change (Z.of_nat 11) with 11 in H.
  apply Z.leb_gt. destruct (Z_lt_le_dec (numPlaces_loop 20 i 1) 12) as [Hl | Hl];
    [exact Hl |].
  assert (10 ^ 11 <= i) by (apply H; lia). lia.
Qed.

Lemma of_int_sign (n : Z) :
  0 <= n < 2 ^ 53 ->
  PrimFloat.ltb (of_int n) 0 = false /\ PrimFloat.leb 0 (of_int n) = true.
Proof.
  intros H. destruct n as [| p | p]; [split; reflexivity | | lia].
  rewrite FloatAxioms.ltb_spec, FloatAxioms.leb_spec, Prim2SF_of_int by lia.
  split; reflexivity.
Qed.

Lemma overdrawn_whole (b n : Z) :
  0 <= n <= b -> b < 2 ^ 53 ->
  overdrawn (of_int b) (of_int n) = false
  /\ covered (of_int b) (of_int n) = true.
Proof.
  intros Hn Hb. unfold overdrawn, covered. rewrite of_int_sub by lia.
  apply of_int_sign. lia.
Qed.

Lemma places_whole (b n : Z) :
  0 <= b -> 0 <= n -> b + n < 10 ^ 11 ->
  (12 <=? numPlaces (to_ll (of_int b + of_int n))) = false.
Proof.
  intros Hb Hn Hs.
  assert (10 ^ 11 < 2 ^ 53) by reflexivity.
  rewrite of_int_plus, to_ll_of_int by lia. apply numPlaces_small. lia.
Qed.

Lemma zero_digit_test (n d : Z) :
  0 <= n < 2 ^ 53 -> 0 <= d <= 9 ->
  (48 + d =? 48) && is_zero (of_int n) = true -> n * 10 + d = n.
Proof.
  intros Hn Hd H. apply andb_true_iff in H as [H1 H2].
  apply Z.eqb_eq in H1. rewrite is_zero_of_int in H2 by lia.
  apply Z.eqb_eq in H2. lia.
Qed.

Lemma push_whole (n d : Z) (c : bool) :
  0 <= n -> 0 <= d <= 9 -> n * 10 + d < 2 ^ 53 ->
  push_digit (48 + d) (of_int n * 10) (mkEntry (of_int n) 0 c)
  = mkEntry (of_int (n * 10 + d)) 0 c.
Proof.
  intros Hn Hd Hb. unfold push_digit. cbn [newBalance place confirm].
  change (0 =? 0) with true. cbv iota.
  replace (48 + d - 48) with d by lia.
  rewrite (of_int_digit d Hd), of_int_append by assumption. reflexivity.
Qed.

Lemma alter_insert {A : Type} (f : A -> A) (l : list A) (i : nat) (x : A) :
  l !! i = Some x -> alter f i l = <[i := f x]> l.
Proof.
  revert i. induction l as [| a l IH]; intros i Hi; [discriminate |].
  destruct i as [| i]; simpl in *.
  - injection Hi as ->. reflexivity.
  - f_equal. apply IH. exact Hi.
Qed.

(** *** Digits typed into an amount menu *)

Lemma decimal_from_grows (ds : list Z) :
  Forall decimal_digit ds -> forall n, 0 <= n -> n <= decimal_from n ds.
Proof.
  unfold decimal_from, decimal_digit.
  induction 1 as [| d ds Hd _ IH]; intros n Hn; simpl; [lia |].
  specialize (IH (n * 10 + d)). lia.
Qed.

Section Typing.
Context {R : Type}.
Variables (on_key : Z -> entry -> step entry R)
          (on_escape : entry -> step entry R).
Variable digit_rule : Z -> entry -> entry.
Variable accepted : Z -> Prop.
Hypothesis key_digit : forall ch e,
  is_digit ch = true -> on_key ch e = Continue (digit_rule ch e).
Hypothesis rule : forall n d,
  0 <= n -> decimal_digit d -> accepted n -> n * 10 + d < 2 ^ 53 ->
  digit_rule (48 + d) (mkEntry (of_int n) 0 false)
  = mkEntry (of_int (n * 10 + d)) 0 false.
Hypothesis accepted_below : forall n m, 0 <= n <= m -> accepted m -> accepted n.

Lemma digits_typed (ds rest : list Z) :
  Forall decimal_digit ds ->
  forall n, 0 <= n -> accepted (decimal_from n ds) -> decimal_from n ds < 2 ^ 53 ->
  menu_loop id on_key on_escape (digit_keys ds ++ rest) (mkEntry (of_int n) 0 false)
  = menu_loop id on_key on_escape rest
              (mkEntry (of_int (decimal_from n ds)) 0 false).
Proof.
  induction 1 as [| d ds Hd Hds IH]; intros n Hn Hacc Hb; [reflexivity |].
  pose proof (decimal_from_grows ds Hds (n * 10 + d)) as Hg.
  unfold decimal_digit in Hd.
  change (decimal_from n (d :: ds)) with (decimal_from (n * 10 + d) ds) in *.
  change (digit_keys (d :: ds) ++ rest)
    with ((48 + d) :: (digit_keys ds ++ rest)).
  cbn [menu_loop].
  replace (48 + d =? 27) with false by (symmetry; apply Z.eqb_neq; lia).
  unfold id at 1.
  rewrite key_digit
    by (unfold is_digit; apply andb_true_iff; split; apply Z.leb_le; lia).
  rewrite rule; [apply IH; [lia | exact Hacc | exact Hb] | lia | exact Hd | | lia].
  apply (accepted_below n (decimal_from (n * 10 + d) ds)); [lia | exact Hacc].
Qed.
End Typing.

Lemma deposit_rule (acc : Account) (b n d : Z) :
  balance acc = of_int b -> 0 <= b ->
  0 <= n -> decimal_digit d -> b + n < 10 ^ 11 -> n * 10 + d < 2 ^ 53 ->
  deposit_digit acc (48 + d) (mkEntry (of_int n) 0 false)
  = mkEntry (of_int (n * 10 + d)) 0 false.
Proof.
  intros Hbal Hb Hn Hd Hs Hlim. unfold decimal_digit in Hd.
  assert (10 ^ 11 < 2 ^ 53) by reflexivity.
  unfold deposit_digit, unconfirm. cbn [newBalance place confirm].
  destruct ((48 + d =? 48) && is_zero (of_int n)) eqn:E.
  { rewrite (zero_digit_test n d) by (assumption || lia). reflexivity. }
  change (0 <? -2) with false. change (0 =? 0) with true. cbv iota.
  rewrite Hbal, places_whole by lia.
  apply push_whole; assumption.
Qed.

Lemma withdraw_rule (acc : Account) (b n d : Z) :
  balance acc = of_int b -> b < 2 ^ 53 ->
  0 <= n -> decimal_digit d -> n <= b -> n * 10 + d < 2 ^ 53 ->
  withdraw_digit acc (48 + d) (mkEntry (of_int n) 0 false)
  = mkEntry (of_int (n * 10 + d)) 0 false.
Proof.
  intros Hbal Hb Hn Hd Hs Hlim. unfold decimal_digit in Hd.
  unfold withdraw_digit, unconfirm. cbn [newBalance place confirm].
  destruct ((48 + d =? 48) && is_zero (of_int n)) eqn:E.
  { rewrite (zero_digit_test n d) by (assumption || lia). reflexivity. }
  rewrite Hbal. destruct (overdrawn_whole b n) as [-> _]; [lia | lia |].
  change (0 =? 0) with true. cbv iota.
  apply push_whole; assumption.
Qed.

Lemma transfer_rule (accf acct : Account) (x y n d : Z) :
  balance accf = of_int x -> balance acct = of_int y ->
  x < 2 ^ 53 -> 0 <= y ->
  0 <= n -> decimal_digit d -> n <= x /\ y + n < 10 ^ 11 -> n * 10 + d < 2 ^ 53 ->
  transfer_digit accf acct (48 + d) (mkEntry (of_int n) 0 false)
  = mkEntry (of_int (n * 10 + d)) 0 false.
Proof.
  intros Hf Ht Hx Hy Hn Hd [Hs1 Hs2] Hlim. unfold decimal_digit in Hd.
  unfold transfer_digit, unconfirm. cbn [newBalance place confirm].
  destruct ((48 + d =? 48) && is_zero (of_int n)) eqn:E.
  { rewrite (zero_digit_test n d) by (assumption || lia). reflexivity. }
  change (0 <? -2) with false. change (0 =? 0) with true. cbv iota.
  rewrite Hf, Ht, places_whole by lia.
  destruct (overdrawn_whole x n) as [-> _]; [lia | lia |].
  cbn [orb]. apply push_whole; assumption.
Qed.

(** [deposit] of a whole amount.  Into an account that holds the whole amount [b], typing the
    decimal digits of [n], with [b + n] below [10 ^ 11], then Enter
    twice makes [deposit] return with the balance exactly [b + n] in
    the record and nothing else changed; and with escape, alone, in the
    place of the second Enter and once more, it returns the store as it
    was. *)
Theorem deposit_adds_amount (people : store) (person : nat) (acc : Account)
    (b : Z) (ds rest : list Z) :
  people !! person = Some acc ->
  balance acc = of_int b -> 0 <= b ->
  Forall decimal_digit ds -> b + decimal ds < 10 ^ 11 ->
  deposit people person (digit_keys ds ++ 10 :: 10 :: rest)
  = Returned (<[person := set_balance acc (of_int (b + decimal ds))]> people) rest
  /\ (value (of_int (b + decimal ds)) == inject_Z b + inject_Z (decimal ds))%Q
  /\ deposit people person (digit_keys ds ++ 10 :: 27 :: -1 :: 27 :: -1 :: rest)
     = Returned people rest.
Proof.
  intros Hacc Hbal Hb Hds Hs.
  assert (H53 : 10 ^ 11 < 2 ^ 53) by reflexivity.
  pose proof (decimal_from_grows ds Hds 0 ltac:(lia)) as Hg. fold (decimal ds) in Hg.
  assert (Htyped : forall rest',
    deposit people person (digit_keys ds ++ rest')
    = menu_loop id (deposit_key people person acc) (key_escape people) rest'
                (mkEntry (of_int (decimal ds)) 0 false)).
  { intros rest'. unfold deposit. rewrite Hacc.
    change start with (mkEntry (of_int 0) 0 false).
    apply (digits_typed _ _ (deposit_digit acc) (fun n => b + n < 10 ^ 11)).
    - intros ch e Hch. unfold deposit_key.
      destruct (digit_key_cases ch Hch) as (d & Hd & ->).
      replace (48 + d =? 3) with false by (symmetry; apply Z.eqb_neq; lia).
      rewrite Hch. reflexivity.
    - intros n d Hn Hd Ha Hlim. apply (deposit_rule acc b); assumption.
    - intros n m Hnm Hm. lia.
    - exact Hds.
    - lia.
    - exact Hs.
    - fold (decimal ds). lia. }
  split; [| split].
  - rewrite Htyped. cbn. unfold deposit_commit. rewrite Hbal.
    rewrite of_int_plus by lia. reflexivity.
  - rewrite value_of_int by lia. rewrite inject_Z_plus. reflexivity.
  - rewrite Htyped. reflexivity.
Qed.

(** Twenty-five into an account holding one hundred. *)
Lemma deposit_adds_amount_witness :
  deposit [holder "A0001" (of_int 100)] 0 (digit_keys [2; 5] ++ [10; 10])
  = Returned (<[0%nat := set_balance (holder "A0001" (of_int 100))
                                     (of_int (100 + decimal [2; 5]))]>
                [holder "A0001" (of_int 100)]) []
  /\ (value (of_int (100 + decimal [2; 5]%Z))
      == inject_Z 100 + inject_Z (decimal [2; 5]%Z))%Q
  /\ deposit [holder "A0001" (of_int 100)] 0
             (digit_keys [2; 5] ++ [10; 27; -1; 27; -1])
     = Returned [holder "A0001" (of_int 100)] [].
Proof.
  apply (deposit_adds_amount [holder "A0001" (of_int 100)] 0
           (holder "A0001" (of_int 100)) 100 [2; 5] []).
  - reflexivity.
  - reflexivity.
  - lia.
  - repeat constructor; unfold decimal_digit; lia.
  - vm_compute. reflexivity.
Defined.

(** [withdraw] of a whole amount.  From an account that holds the whole amount [b], below
    [2 ^ 53], typing the decimal digits of an amount [n] the balance
    covers, then Enter twice, makes [withdraw] return with the balance
    exactly [b - n] in the record and nothing else changed; with
    escape, alone, in the place of the second Enter and once more, it
    returns the store as it was. *)
Theorem withdraw_takes_amount (people : store) (person : nat) (acc : Account)
    (b : Z) (ds rest : list Z) :
  people !! person = Some acc ->
  balance acc = of_int b -> b < 2 ^ 53 ->
  Forall decimal_digit ds -> decimal ds <= b ->
  withdraw people person (digit_keys ds ++ 10 :: 10 :: rest)
  = Returned (<[person := set_balance acc (of_int (b - decimal ds))]> people) rest
  /\ (value (of_int (b - decimal ds)) == inject_Z b - inject_Z (decimal ds))%Q
  /\ withdraw people person (digit_keys ds ++ 10 :: 27 :: -1 :: 27 :: -1 :: rest)
     = Returned people rest.
Proof.
  intros Hacc Hbal Hb Hds Hs.
  pose proof (decimal_from_grows ds Hds 0 ltac:(lia)) as Hg. fold (decimal ds) in Hg.
  assert (Htyped : forall rest',
    withdraw people person (digit_keys ds ++ rest')
    = menu_loop id (withdraw_key people person acc) (key_escape people) rest'
                (mkEntry (of_int (decimal ds)) 0 false)).
  { intros rest'. unfold withdraw. rewrite Hacc.
    change start with (mkEntry (of_int 0) 0 false).
    apply (digits_typed _ _ (withdraw_digit acc) (fun n => n <= b)).
    - intros ch e Hch. unfold withdraw_key.
      destruct (digit_key_cases ch Hch) as (d & Hd & ->).
      replace (48 + d =? 3) with false by (symmetry; apply Z.eqb_neq; lia).
      rewrite Hch. reflexivity.
    - intros n d Hn Hd Ha Hlim. apply (withdraw_rule acc b); assumption.
    - intros n m Hnm Hm. lia.
    - exact Hds.
    - lia.
    - exact Hs.
    - fold (decimal ds). lia. }
  destruct (overdrawn_whole b (decimal ds)) as [_ Hcov]; [lia | lia |].
  split; [| split].
  - rewrite Htyped. with_strategy opaque [covered] cbn.
    rewrite Hbal, Hcov. cbn.
    unfold withdraw_commit. rewrite Hbal.
    rewrite of_int_sub by lia. reflexivity.
  - rewrite value_of_int by lia. unfold Z.sub.
    rewrite inject_Z_plus, inject_Z_opp. reflexivity.
  - rewrite Htyped. with_strategy opaque [covered] cbn.
    rewrite Hbal, Hcov. reflexivity.
Qed.

(** Twenty-five out of an account holding one hundred. *)
Lemma withdraw_takes_amount_witness :
  withdraw [holder "A0001" (of_int 100)] 0 (digit_keys [2; 5] ++ [10; 10])
  = Returned (<[0%nat := set_balance (holder "A0001" (of_int 100))
                                     (of_int (100 - decimal [2; 5]))]>
                [holder "A0001" (of_int 100)]) []
  /\ (value (of_int (100 - decimal [2; 5]%Z))
      == inject_Z 100 - inject_Z (decimal [2; 5]%Z))%Q
  /\ withdraw [holder "A0001" (of_int 100)] 0
              (digit_keys [2; 5] ++ [10; 27; -1; 27; -1])
     = Returned [holder "A0001" (of_int 100)] [].
Proof.
  apply (withdraw_takes_amount [holder "A0001" (of_int 100)] 0
           (holder "A0001" (of_int 100)) 100 [2; 5] []).
  - reflexivity.
  - reflexivity.
  - lia.
  - repeat constructor; unfold decimal_digit; lia.
  - vm_compute. discriminate.
Defined.

(** [transferAmmount] of a whole amount.  Between two different records that hold the whole amounts [x]
    and [y], typing the decimal digits of an amount [n] that [x] covers,
    with [y + n] below [10 ^ 11], then Enter twice, makes
    [transferAmmount] return with exactly [x - n] in the source and
    [y + n] in the destination, nothing else changed and the sum of the
    balances as it was. *)
Theorem transfer_moves_whole_amount (people : store) (from to : nat)
    (accf acct : Account) (x y : Z) (ds rest : list Z) :
  from <> to ->
  people !! from = Some accf -> people !! to = Some acct ->
  balance accf = of_int x -> balance acct = of_int y ->
  x < 2 ^ 53 -> 0 <= y ->
  Forall decimal_digit ds -> decimal ds <= x -> y + decimal ds < 10 ^ 11 ->
  let people' :=
    <[to := set_balance acct (of_int (y + decimal ds))]>
      (<[from := set_balance accf (of_int (x - decimal ds))]> people) in
  transferAmmount people from to (digit_keys ds ++ 10 :: 10 :: rest)
  = Returned people' rest
  /\ (total people' == total people)%Q.
Proof.
  intros Hne Hf Ht Hbf Hbt Hx Hy Hds Hs1 Hs2 people'.
  assert (H53 : 10 ^ 11 < 2 ^ 53) by reflexivity.
  pose proof (decimal_from_grows ds Hds 0 ltac:(lia)) as Hg. fold (decimal ds) in Hg.
  assert (Htyped : forall rest',
    transferAmmount people from to (digit_keys ds ++ rest')
    = menu_loop id (transfer_key people from to accf acct) (key_escape people)
                rest' (mkEntry (of_int (decimal ds)) 0 false)).
  { intros rest'. unfold transferAmmount. rewrite Hf, Ht.
    change start with (mkEntry (of_int 0) 0 false).
    apply (digits_typed _ _ (transfer_digit accf acct)
             (fun n => n <= x /\ y + n < 10 ^ 11)).
    - intros ch e Hch. unfold transfer_key.
      destruct (digit_key_cases ch Hch) as (d & Hd & ->).
      replace (48 + d =? 3) with false by (symmetry; apply Z.eqb_neq; lia).
      rewrite Hch. reflexivity.
    - intros n d Hn Hd Ha Hlim. apply (transfer_rule accf acct x y); assumption.
    - intros n m Hnm Hm. lia.
    - exact Hds.
    - lia.
    - split; [exact Hs1 | exact Hs2].
    - fold (decimal ds). lia. }
  assert (Hcommit : transfer_commit people from to (of_int (decimal ds)) = people').
  { unfold transfer_commit, people'.
    rewrite (alter_insert _ _ _ acct)
      by (rewrite list_lookup_alter_ne by exact Hne; exact Ht).
    rewrite (alter_insert _ _ _ accf) by exact Hf.
    unfold credit, debit. rewrite Hbf, Hbt.
    rewrite of_int_sub, of_int_plus by lia. reflexivity. }
  split.
  - rewrite Htyped. cbn. rewrite Hcommit. reflexivity.
  - rewrite <- Hcommit. unfold transfer_commit.
    rewrite (total_alter (credit (of_int (decimal ds))) _ to acct)
      by (rewrite list_lookup_alter_ne by exact Hne; exact Ht).
    rewrite (total_alter (debit (of_int (decimal ds))) _ from accf) by exact Hf.
    unfold credit, debit. destruct accf, acct. cbn in *. subst.
    rewrite of_int_sub, of_int_plus by lia.
    rewrite !value_of_int by lia.
    unfold Z.sub. rewrite !inject_Z_plus, inject_Z_opp. ring.
Qed.

(** Twenty-five from an account holding one hundred to one holding seven. *)
Lemma transfer_moves_whole_amount_witness :
  let people := [holder "A0001" (of_int 100); holder "B0002" (of_int 7)] in
  let people' :=
    <[1%nat := set_balance (holder "B0002" (of_int 7)) (of_int (7 + decimal [2; 5]))]>
      (<[0%nat := set_balance (holder "A0001" (of_int 100))
                              (of_int (100 - decimal [2; 5]))]> people) in
  transferAmmount people 0 1 (digit_keys [2; 5] ++ [10; 10])
  = Returned people' []
  /\ (total people' == total people)%Q.
Proof.
  apply (transfer_moves_whole_amount
           [holder "A0001" (of_int 100); holder "B0002" (of_int 7)] 0 1
           (holder "A0001" (of_int 100)) (holder "B0002" (of_int 7))
           100 7 [2; 5] []).
  - discriminate.
  - reflexivity.
  - reflexivity.
  - reflexivity.
  - reflexivity.
  - lia.
  - lia.
  - repeat constructor; unfold decimal_digit; lia.
  - vm_compute. discriminate.
  - vm_compute. reflexivity.
Defined.

End AmountFacts.
